(** * OllamaService: the chat service of the vscode-ollama-chat extension

    A shallow embedding of [ollamaService.ts] (class [OllamaService]) and of
    the part of [extension.ts] that drives it.

    Strings.  A JavaScript string is modelled by [string]: a sequence of
    characters, each one an [ascii].  The built-ins used by the service
    ([trim], [toLowerCase], [split], [join], [includes], [startsWith],
    [slice], and the classes [\s], [\w], [\d] of its regular expressions) are
    written out below as they behave on ASCII text; a character above 127
    stands for itself and is neither white space, nor a letter, nor a digit
    (the pictographs in the messages of the service are written as their
    UTF-8 bytes).

    Effects.  The service keeps mutable fields and talks to the editor and to
    the Ollama server.  Stateful methods live in a small state-and-exception
    monad [M]; every call that leaves the process (fetch, the workspace API,
    the clock, the console) is an [Event] appended to a log, and its answer
    is read from an environment that may depend on everything logged so far. *)

From Stdlib Require Import Strings.String Strings.Ascii Lists.List.
From Stdlib Require Import Arith.Arith Bool.Bool Lia NArith.NArith ZArith.ZArith.
From Stdlib Require Import Numbers.DecimalString Numbers.DecimalNat.
Import ListNotations.

Open Scope list_scope.
Open Scope string_scope.

(** [++] joins strings; lists are joined with [+++]. *)
Infix "+++" := (@List.app _) (at level 60, right associativity).

(* ================================================================= *)
(** ** JavaScript strings *)

Module Js.

(** Characters that cannot be written inside a literal. *)
Definition LF : ascii := "010"%char.
Definition DQUOTE : ascii := "034"%char.
Definition nl : string := String LF "".
Definition dq : string := String DQUOTE "".

Definition in_range (lo hi : N) (c : ascii) : bool :=
  (lo <=? N_of_ascii c)%N && (N_of_ascii c <=? hi)%N.

(** [\s]: tab, line feed, vertical tab, form feed, carriage return, space. *)
Definition is_space (c : ascii) : bool :=
  in_range 9 13 c || (N_of_ascii c =? 32)%N.

Definition is_digit (c : ascii) : bool := in_range 48 57 c.
Definition is_upper (c : ascii) : bool := in_range 65 90 c.
Definition is_lower (c : ascii) : bool := in_range 97 122 c.

(** [\w]: letters, digits and the underscore. *)
Definition is_word (c : ascii) : bool :=
  is_upper c || is_lower c || is_digit c || (N_of_ascii c =? 95)%N.

(** [.] of a regular expression without the [s] flag: no line terminator. *)
Definition is_dot (c : ascii) : bool :=
  negb ((N_of_ascii c =? 10)%N || (N_of_ascii c =? 13)%N).

Definition is_quote (c : ascii) : bool :=
  (N_of_ascii c =? 34)%N || (N_of_ascii c =? 39)%N.

Definition lower_char (c : ascii) : ascii :=
  if is_upper c then ascii_of_N (N_of_ascii c + 32) else c.

Fixpoint toLowerCase (s : string) : string :=
  match s with
  | "" => ""
  | String c r => String (lower_char c) (toLowerCase r)
  end.

Fixpoint trimStart (s : string) : string :=
  match s with
  | "" => ""
  | String c r => if is_space c then trimStart r else s
  end.

Fixpoint trimEnd (s : string) : string :=
  match s with
  | "" => ""
  | String c r =>
      match trimEnd r with
      | "" => if is_space c then "" else String c ""
      | r' => String c r'
      end
  end.

Definition trim (s : string) : string := trimEnd (trimStart s).

(** [s.startsWith(p)] *)
Fixpoint startsWith (s p : string) {struct p} : bool :=
  match p with
  | "" => true
  | String a p' =>
      match s with
      | "" => false
      | String b s' => Ascii.eqb a b && startsWith s' p'
      end
  end.

(** [s.includes(sub)] *)
Fixpoint includes (s sub : string) : bool :=
  startsWith s sub ||
  match s with
  | "" => false
  | String _ r => includes r sub
  end.

(** [s.slice(n)] for [0 <= n]. *)
Fixpoint slice (n : nat) (s : string) : string :=
  match n, s with
  | O, _ => s
  | S _, "" => ""
  | S m, String _ r => slice m r
  end.

(** [s.split(sep)] for a separator of one character; the result is never
    empty: the empty string splits into one empty piece. *)
Fixpoint split (sep : ascii) (s : string) : list string :=
  match s with
  | "" => [""]
  | String c r =>
      if Ascii.eqb c sep then "" :: split sep r
      else match split sep r with
           | h :: t => String c h :: t
           | [] => [String c ""]
           end
  end.

(** [l.join(sep)] *)
Definition join (sep : string) (l : list string) : string := String.concat sep l.

(** [l.slice(i, j)] on arrays, for [0 <= i]. *)
Definition slice_list {A} (i j : nat) (l : list A) : list A :=
  firstn (j - i) (skipn i l).

(** Decimal text of a natural number, as a template literal prints it. *)
Definition show_nat (n : nat) : string :=
  NilEmpty.string_of_uint (Nat.to_uint n).

(** [s.repeat(n)] *)
Fixpoint repeat_string (s : string) (n : nat) : string :=
  match n with
  | O => ""
  | S m => s ++ repeat_string s m
  end.

(** *** Pieces of regular expressions

    The regular expressions of the service are sequences of literals and of
    greedy character-class runs in which every run is followed by a
    character outside its class (or by nothing), so giving back characters
    never helps: taking the longest run is what the backtracking matcher
    finds. *)

(** Longest prefix of characters in a class, and what follows it. *)
Fixpoint span (p : ascii -> bool) (s : string) : string * string :=
  match s with
  | "" => ("", "")
  | String c r =>
      if p c then let (a, b) := span p r in (String c a, b)
      else ("", s)
  end.

(** [class+]: a non-empty longest run. *)
Definition many1 (p : ascii -> bool) (s : string) : option (string * string) :=
  match span p s with
  | ("", _) => None
  | (a, b) => Some (a, b)
  end.

(** A literal at the head of the input; the rest of the input. *)
Fixpoint lit (p s : string) : option string :=
  match p, s with
  | "", _ => Some s
  | String _ _, "" => None
  | String a p', String b s' => if Ascii.eqb a b then lit p' s' else None
  end.

(** An unanchored pattern is tried at every position from the left. *)
Fixpoint search {A} (m : string -> option A) (s : string) : option A :=
  match m s with
  | Some a => Some a
  | None =>
      match s with
      | "" => None
      | String _ r => search m r
      end
  end.

Definition orElse {A} (x y : option A) : option A :=
  match x with
  | Some _ => x
  | None => y
  end.

Definition is_some {A} (x : option A) : bool :=
  match x with
  | Some _ => true
  | None => false
  end.

(** [/\w+/]: the first word token of a string. *)
Definition match_word (s : string) : option string :=
  search (fun t => option_map fst (many1 is_word t)) s.

End Js.

Import Js.

(* ================================================================= *)
(** ** The heuristic code inspector (private helpers of [OllamaService]) *)

(** The test shared by [calculateCodeComplexity] and
    [calculateFunctionComplexity]: one disjunction over the trimmed line. *)
Definition branching_line (line : string) : bool :=
  let trimmed := trim line in
  includes trimmed "if" ||
  includes trimmed "else" ||
  includes trimmed "for" ||
  includes trimmed "while" ||
  includes trimmed "switch" ||
  includes trimmed "catch" ||
  includes trimmed "&&" ||
  includes trimmed "||".

(** The loop [for (const line of lines) { if (...) complexity++; }]. *)
Definition count_branching (complexity : nat) (lines : list string) : nat :=
  fold_left (fun c line => if branching_line line then S c else c)
            lines complexity.

Definition calculateCodeComplexity (content : string) : nat :=
  let complexity := 1 in
  let lines := split LF content in
  count_branching complexity lines.

Definition calculateFunctionComplexity (content : string) : nat :=
  let complexity := 1 in
  let lines := split LF content in
  count_branching complexity lines.

(** [(async\s+)?] in front of the pattern [k]: with the group first, then
    without it. *)
Definition opt_async {A} (k : string -> option A) (s : string) : option A :=
  orElse
    (match lit "async" s with
     | Some r =>
         match many1 is_space r with
         | Some (_, r') => k r'
         | None => None
         end
     | None => None
     end)
    (k s).

(** [keyword\s+(\w+)] at the head of the input; the captured word. *)
Definition keyword_name (kw s : string) : option string :=
  match lit kw s with
  | Some r =>
      match many1 is_space r with
      | Some (_, r') => option_map fst (many1 is_word r')
      | None => None
      end
  | None => None
  end.

(** [/^(async\s+)?function\s+(\w+)/] *)
Definition re_function_decl (s : string) : option string :=
  opt_async (keyword_name "function") s.

(** [/^(async\s+)?\w+\s*=\s*function/] *)
Definition re_function_expr (s : string) : option unit :=
  opt_async
    (fun t =>
       match many1 is_word t with
       | Some (_, r) =>
           match lit "=" (snd (span is_space r)) with
           | Some r' => option_map (fun _ => tt) (lit "function" (snd (span is_space r')))
           | None => None
           end
       | None => None
       end) s.

(** [/^class\s+(\w+)/] *)
Definition re_class_decl (s : string) : option string :=
  keyword_name "class" s.

(** [line.match(/\w+/)?.[0] || 'anonymous'] *)
Definition first_word_or_anonymous (line : string) : string :=
  match match_word line with
  | Some w => w
  | None => "anonymous"
  end.

Record FunctionInfo := mkFunctionInfo {
  fn_name : string;
  fn_content : string;
  fn_lines : nat
}.

Record ClassInfo := mkClassInfo {
  cls_name : string;
  cls_content : string
}.

Definition is_function_start (line : string) : bool :=
  is_some (re_function_decl (trim line)) || is_some (re_function_expr (trim line)).

(** The loop state of [extractFunctions]: [functions], [currentFunction],
    [functionContent]. *)
Definition ef_state : Type :=
  (list FunctionInfo * option FunctionInfo * list string)%type.

Definition ef_step (st : ef_state) (line : string) : ef_state :=
  let '(functions, currentFunction, functionContent) := st in
  if is_function_start line then
    (match currentFunction with
     | Some f => functions +++ [f]
     | None => functions
     end,
     Some (mkFunctionInfo (first_word_or_anonymous line) line 1),
     [line])
  else
    match currentFunction with
    | Some f =>
        let functionContent' := functionContent +++ [line] in
        (functions,
         Some (mkFunctionInfo (fn_name f) (join nl functionContent')
                              (length functionContent')),
         functionContent')
    | None => st
    end.

Definition extractFunctions (content : string) : list FunctionInfo :=
  let lines := split LF content in
  let '(functions, currentFunction, _) :=
    fold_left ef_step lines ([], None, []) in
  match currentFunction with
  | Some f => functions +++ [f]
  | None => functions
  end.

Definition ec_state : Type :=
  (list ClassInfo * option ClassInfo * list string)%type.

Definition ec_step (st : ec_state) (line : string) : ec_state :=
  let '(classes, currentClass, classContent) := st in
  if is_some (re_class_decl (trim line)) then
    (match currentClass with
     | Some c => classes +++ [c]
     | None => classes
     end,
     Some (mkClassInfo (first_word_or_anonymous line) line),
     [line])
  else
    match currentClass with
    | Some c =>
        let classContent' := classContent +++ [line] in
        (classes,
         Some (mkClassInfo (cls_name c) (join nl classContent')),
         classContent')
    | None => st
    end.

Definition extractClasses (content : string) : list ClassInfo :=
  let lines := split LF content in
  let '(classes, currentClass, _) :=
    fold_left ec_step lines ([], None, []) in
  match currentClass with
  | Some c => classes +++ [c]
  | None => classes
  end.

Record LineRange := mkLineRange {
  startLine : nat;
  endLine : nat
}.

Definition windowSize : nat := 5.

(** [for (let i = lo; i < hi; i++)]: the values of the loop variable. *)
Definition loop_range (lo hi : nat) : list nat := seq lo (hi - lo).

(** The inner loop of [findCodeDuplicates] for a fixed [i]. *)
Definition duplicates_of (lines : list string) (i : nat) : list LineRange :=
  let window := join nl (slice_list i (i + windowSize) lines) in
  flat_map
    (fun j =>
       let compareWindow := join nl (slice_list j (j + windowSize) lines) in
       if String.eqb window compareWindow
       then [mkLineRange (i + 1) (i + windowSize)]
       else [])
    (loop_range (i + windowSize) (length lines - windowSize)).

Definition findCodeDuplicates (content : string) : list LineRange :=
  let lines := split LF content in
  flat_map (duplicates_of lines) (loop_range 0 (length lines - windowSize)).

Fixpoint all_chars (p : ascii -> bool) (s : string) : bool :=
  match s with
  | "" => true
  | String c r => p c && all_chars p r
  end.

Definition is_alnum (c : ascii) : bool := is_upper c || is_lower c || is_digit c.

(** [/^[a-z][a-zA-Z0-9]*$/.test(w)] *)
Definition camelCaseRegex (w : string) : bool :=
  match w with
  | "" => false
  | String c r => is_lower c && all_chars is_alnum r
  end.

(** [/^[A-Z][a-zA-Z0-9]*$/.test(w)] *)
Definition pascalCaseRegex (w : string) : bool :=
  match w with
  | "" => false
  | String c r => is_upper c && all_chars is_alnum r
  end.

(** [/^(const|let|var)\s+(\w+)/]: the second group. *)
Definition re_var_decl (s : string) : option string :=
  orElse (keyword_name "const" s)
         (orElse (keyword_name "let" s) (keyword_name "var" s)).

(** The body of the [forEach] of [checkNamingConventions] for one line. *)
Definition naming_issues_of (index : nat) (line : string) : list string :=
  (match re_var_decl line with
   | Some v =>
       if negb (camelCaseRegex v)
       then ["Line " ++ show_nat (index + 1) ++ ": Variable '" ++ v ++ "' should use camelCase"]
       else []
   | None => []
   end +++
   match re_function_decl line with
   | Some f =>
       if negb (camelCaseRegex f)
       then ["Line " ++ show_nat (index + 1) ++ ": Function '" ++ f ++ "' should use camelCase"]
       else []
   | None => []
   end +++
   match re_class_decl line with
   | Some c =>
       if negb (pascalCaseRegex c)
       then ["Line " ++ show_nat (index + 1) ++ ": Class '" ++ c ++ "' should use PascalCase"]
       else []
   | None => []
   end).

(** [lines.forEach((line, index) => ...)] *)
Fixpoint forEach_indexed {A B} (f : nat -> A -> list B) (index : nat) (l : list A)
  : list B :=
  match l with
  | [] => []
  | x :: r => f index x +++ forEach_indexed f (S index) r
  end.

Definition checkNamingConventions (content : string) : list string :=
  let lines := split LF content in
  forEach_indexed naming_issues_of 0 lines.

Definition extractImports (content : string) : list string :=
  let lines := split LF content in
  flat_map
    (fun line => if startsWith (trim line) "import" then [trim line] else [])
    lines.

(** [/from\s+Q([^Q]+)Q/] where [Q] is the class of the two quote
    characters: the module specifier. *)
Definition re_from_clause (s : string) : option string :=
  search
    (fun t =>
       match lit "from" t with
       | Some r =>
           match many1 is_space r with
           | Some (_, String q r') =>
               if is_quote q then
                 match many1 (fun c => negb (is_quote c)) r' with
                 | Some (name, String q' _) =>
                     if is_quote q' then Some name else None
                 | _ => None
                 end
               else None
           | _ => None
           end
       | None => None
       end) s.

(** [/import\s+(\w+)/]: the first bound name. *)
Definition re_import_name (s : string) : option string :=
  search (keyword_name "import") s.

(** [imp.match(from...)?.[1] || imp.match(import...)?.[1]] *)
Definition importName_of (imp : string) : option string :=
  orElse (re_from_clause imp) (re_import_name imp).

Definition findUnusedImports (content : string) (imports : list string)
  : list string :=
  flat_map
    (fun imp =>
       match importName_of imp with
       | Some importName =>
           if negb (String.eqb importName "") && negb (includes content importName)
           then [imp]
           else []
       | None => []
       end)
    imports.

(** [lines[0]] of a split text, which always has a first piece. *)
Definition first_line (lines : list string) : string := hd "" lines.

(** [firstLine.replace(/^\/\/\s*|\/\*\s*|\s*\*\/$/, '')] is only reached
    when [firstLine] starts with [//] or [/*]; the leftmost match is then at
    position 0, by the first or the second alternative: the two characters
    and the white space after them are removed. *)
Definition analyzeFilePurpose (content : string) : string :=
  let lines := split LF content in
  let firstLine := trim (first_line lines) in
  if startsWith firstLine "//" || startsWith firstLine "/*" then
    trimStart (slice 2 firstLine)
  else
    "This file appears to be a source code file. Purpose could not be determined from comments.".

Record Component := mkComponent {
  comp_name : string;
  comp_type : string;
  comp_description : string
}.

Definition analyzeKeyComponents (content : string) : list Component :=
  (map (fun cls =>
          mkComponent (cls_name cls) "Class"
            ("A class with " ++ show_nat (length (split LF (cls_content cls)))
               ++ " lines of code"))
       (extractClasses content)
   +++
   map (fun func =>
          mkComponent (fn_name func) "Function"
            ("A function with " ++ show_nat (fn_lines func) ++ " lines of code"))
       (extractFunctions content)).

(** [output += f(x)] for each element, in order. *)
Definition concat_map {A} (f : A -> string) (l : list A) : string :=
  fold_left (fun out x => out ++ f x) l "".

Definition analyzeCodeFlow (content : string) : string :=
  let lines := split LF content in
  let mainFlow :=
    filter (fun line =>
              startsWith (trim line) "if" ||
              startsWith (trim line) "for" ||
              startsWith (trim line) "while" ||
              startsWith (trim line) "switch") lines in
  if (0 <? length mainFlow)%nat then
    "Main execution flow includes:" ++ nl ++
    concat_map (fun line => "- " ++ trim line ++ nl) mainFlow
  else
    "Linear execution flow with no conditional branches" ++ nl.

(** [/extends\s+(\w+)/] *)
Definition re_extends (s : string) : option string :=
  search (keyword_name "extends") s.

Definition analyzeRelationships (content : string) : string :=
  let imports := extractImports content in
  let classLines :=
    filter (fun line => startsWith (trim line) "class") (split LF content) in
  let relationships :=
    ((if (0 <? length imports)%nat
      then "Imports:" :: map (fun imp => "- " ++ imp) imports
      else []) +++
     (if (0 <? length classLines)%nat
      then (nl ++ "Class Relationships:") ::
           flat_map (fun line =>
                       match re_extends line with
                       | Some base => ["- Extends " ++ base]
                       | None => []
                       end) classLines
      else [])) in
  join nl relationships.

Definition analyzePotentialIssues (content : string) : list string :=
  let functions := extractFunctions content in
  let duplicates := findCodeDuplicates content in
  (flat_map (fun func =>
               if (20 <? fn_lines func)%nat
               then ["Long function '" ++ fn_name func ++ "' ("
                       ++ show_nat (fn_lines func) ++ " lines)"]
               else []) functions
   +++
   flat_map (fun func =>
               if (5 <? calculateFunctionComplexity (fn_content func))%nat
               then ["Complex function '" ++ fn_name func ++ "' (complexity: "
                       ++ show_nat (calculateFunctionComplexity (fn_content func)) ++ ")"]
               else []) functions
   +++
   (if (0 <? length duplicates)%nat
    then [show_nat (length duplicates) ++ " potential code duplications found"]
    else [])).

(* ================================================================= *)
(** ** Data of the service *)

Inductive Role := user | assistant.

Definition role_text (r : Role) : string :=
  match r with
  | user => "user"
  | assistant => "assistant"
  end.

Record ChatMessage := mkChatMessage {
  msg_role : Role;
  msg_content : string;
  msg_timestamp : string
}.

Record OllamaModel := mkOllamaModel {
  model_name : string;
  model_size : string;
  model_modified_at : string
}.

(** [OllamaResponse], with its nested [message] flattened.  The cast
    [as OllamaResponse] of a parsed body is taken at its word: a body that
    parses has these fields. *)
Record OllamaResponse := mkOllamaResponse {
  resp_model : string;
  resp_created_at : string;
  resp_message_role : string;
  resp_message_content : string;
  resp_done : bool
}.

Record FileContext := mkFileContext {
  fc_path : string;
  fc_content : string
}.

(** The fields of an [OllamaService] object. *)
Record OllamaService := mkOllamaService {
  apiUrl : string;
  model : string;
  messageHistory : list ChatMessage;
  workspaceContext : string;
  currentFileContext : option FileContext
}.

(** [new OllamaService(apiUrl, model)], field initialisers included. *)
Definition constructor (apiUrl model : string) : OllamaService :=
  mkOllamaService apiUrl model [] "" None.

(** Assignment to one field. *)
Definition set_messageHistory (s : OllamaService) (history : list ChatMessage)
  : OllamaService :=
  mkOllamaService (apiUrl s) (model s) history
                  (workspaceContext s) (currentFileContext s).

Definition set_model (s : OllamaService) (model' : string) : OllamaService :=
  mkOllamaService (apiUrl s) model' (messageHistory s)
                  (workspaceContext s) (currentFileContext s).

(** *** Thrown values *)

Inductive Thrown :=
| JsError (name message : string)   (* an [Error] object *)
| JsValue (text : string).          (* any other value, with its string form *)

(** [new Error(message)] *)
Definition new_Error (message : string) : Thrown := JsError "Error" message.

(** [String(e)], also what a template literal prints for [e]. *)
Definition String_of (e : Thrown) : string :=
  match e with
  | JsError name message =>
      if String.eqb name "" then message
      else if String.eqb message "" then name
      else name ++ ": " ++ message
  | JsValue text => text
  end.

(** [error instanceof Error ? error.message : String(error)] *)
Definition message_of (e : Thrown) : string :=
  match e with
  | JsError _ message => message
  | JsValue text => text
  end.

(** *** The outside world *)

Definition Uri : Type := string.

Inductive Severity := SevError | SevWarning | SevInformation | SevHint.

Record Diagnostic := mkDiagnostic {
  diag_line : nat;              (* [range.start.line], 0-based *)
  diag_message : string;
  diag_severity : Severity
}.

Record TextDocument := mkTextDocument {
  doc_uri : Uri;
  getText : string;
  lineAt : Z -> Thrown + string   (* the text of a line; throws out of range *)
}.

(** The JSON body of a chat request. *)
Record ChatRequest := mkChatRequest {
  req_model : string;
  req_messages : list (Role * string);
  req_stream : bool
}.

(** What [fetch] resolves to: the status line and the outcome of [json()]. *)
Record Response (Body : Type) := mkResponse {
  ok : bool;
  status : nat;
  json : Thrown + Body
}.
Arguments mkResponse {Body}.
Arguments ok {Body}.
Arguments status {Body}.
Arguments json {Body}.

(** The dependency tables of a parsed [package.json]. *)
Record Manifest := mkManifest {
  dependencies : list (string * string);
  devDependencies : list (string * string)
}.

(** Every call that leaves the process. *)
Inductive Event :=
| EFetchChat (url : string) (body : ChatRequest)
| EFetchTags (url : string)
| EFindFiles (include exclude : string)
| EOpenTextDocument (uri : Uri)
| EGetDiagnostics (uri : Uri)
| EApplyEdit (uri : Uri) (line : Z) (len : nat) (newText : string)
| EShowErrorMessage (text : string)
| EPostMessage (command text : string) (history : option (list ChatMessage))
| ENow
| EConsoleError (label : string) (e : Thrown).

Definition Log : Type := list Event.

(** The editor, the server and the clock.  Each answer may depend on the
    events so far, so the world may change between two calls. *)
Record Env := mkEnv {
  (** [vscode.workspace.workspaceFolders]: [undefined] or the folders' URIs *)
  workspaceFolders : Log -> option (list Uri);
  findFiles : Log -> Thrown + list Uri;
  asRelativePath : Uri -> string;
  joinPath : Uri -> string -> Uri;
  openTextDocument : Log -> Uri -> Thrown + TextDocument;
  getDiagnostics : Log -> Uri -> list Diagnostic;
  applyEdit : Log -> Uri -> Z -> nat -> string -> Thrown + bool;
  (** [JSON.parse] of a manifest and the reading of its two tables; a table
      that is absent is empty, a failure is thrown *)
  parseManifest : string -> Thrown + Manifest;
  fetchChat : Log -> string -> ChatRequest -> Thrown + Response OllamaResponse;
  (** the body of [/api/tags]: its [models] field, [None] when absent *)
  fetchTags : Log -> string -> Thrown + Response (option (list OllamaModel));
  (** [new Date().toISOString()] *)
  clock : Log -> string;
  (** the names of the members that have been added to [Object.prototype],
      beside those that the language defines ([constructor], [toString],
      [__proto__], ...): a plain object [{}] inherits them all *)
  addedToPrototype : Log -> string -> bool;
  (** what [buildFileTree] and [formatFileTree] come to when a path leads
      through an inherited member into the built-in objects: a thrown value,
      or the listing *)
  builtinWalk : Log -> list Uri -> Thrown + string
}.

(* ================================================================= *)
(** ** The monad of the service's methods *)

Record World := mkWorld {
  svc : OllamaService;
  log : Log
}.

Inductive Outcome (A : Type) :=
| Return (a : A)
| Throw (e : Thrown).
Arguments Return {A}.
Arguments Throw {A}.

Definition M (A : Type) : Type := World -> Outcome A * World.

Definition ret {A} (a : A) : M A := fun w => (Return a, w).

Definition bind {A B} (m : M A) (k : A -> M B) : M B :=
  fun w =>
    match m w with
    | (Return a, w') => k a w'
    | (Throw e, w') => (Throw e, w')
    end.

Definition throw {A} (e : Thrown) : M A := fun w => (Throw e, w).

(** [try { body } catch (error) { handler }] *)
Definition try_catch {A} (body : M A) (handler : Thrown -> M A) : M A :=
  fun w =>
    match body w with
    | (Return a, w') => (Return a, w')
    | (Throw e, w') => handler e w'
    end.

Declare Scope monad_scope.
Delimit Scope monad_scope with M.
Notation "x <- m ;; k" := (bind m (fun x => k))
  (at level 100, m at next level, right associativity) : monad_scope.
Notation "m ;;; k" := (bind m (fun _ => k))
  (at level 100, right associativity) : monad_scope.
Open Scope monad_scope.

(** Reading and writing [this]. *)
Definition this : M OllamaService := fun w => (Return (svc w), w).

Definition set_this (s : OllamaService) : M unit :=
  fun w => (Return tt, mkWorld s (log w)).

(** An external call: the event is logged, the answer comes from the
    environment as it stood before the call. *)
Definition call {A} (ev : Event) (answer : Log -> Thrown + A) : M A :=
  fun w =>
    let w' := mkWorld (svc w) (log w +++ [ev]) in
    match answer (log w) with
    | inl e => (Throw e, w')
    | inr a => (Return a, w')
    end.

(** Awaiting a value that is already settled. *)
Definition settle {A} (r : Thrown + A) : M A :=
  match r with
  | inl e => throw e
  | inr a => ret a
  end.

(** [for (const x of l) { acc = f(acc, x) }] with effects. *)
Fixpoint foldM {A B} (f : B -> A -> M B) (l : list A) (b : B) : M B :=
  match l with
  | [] => ret b
  | x :: r => b' <- f b x ;; foldM f r b'
  end.

(* ================================================================= *)
(** ** The file tree of [scanWorkspace]

    A JavaScript object used as an ordered map: own keys that are array
    indices come first, in increasing order, the other keys follow in the
    order of their creation.  [null] marks a file.

    The objects are plain ones, so [current[part]] finds an own key or,
    failing that, a member inherited from [Object.prototype].  A path with
    the part [constructor], say, leads out of the tree into the built-in
    objects; what the walk does there is not part of this model, and
    [insert_parts] answers [None]. *)

#[warnings="-register-all"]
Inductive FileTree :=
| TreeObject (entries : list (string * option FileTree)).

Definition tree_entries (t : FileTree) : list (string * option FileTree) :=
  match t with
  | TreeObject es => es
  end.

Fixpoint digits_value (acc : N) (s : string) : N :=
  match s with
  | "" => acc
  | String c r => digits_value (acc * 10 + (N_of_ascii c - 48)) r
  end.

(** A canonical array index: ["0"], or digits without a leading zero whose
    value is at most [2^32 - 2]. *)
Definition array_index (k : string) : option N :=
  match k with
  | "" => None
  | String c r =>
      if all_chars is_digit k
         && (String.eqb k "0" || negb (Ascii.eqb c "0"%char))
         && (String.length k <=? 10)%nat
         && (digits_value 0 k <=? 4294967294)%N
      then Some (digits_value 0 k)
      else None
  end.

Fixpoint tree_get (es : list (string * option FileTree)) (k : string)
  : option (option FileTree) :=
  match es with
  | [] => None
  | (k', v) :: r => if String.eqb k' k then Some v else tree_get r k
  end.

(** Creation of a key that is not there yet. *)
Fixpoint tree_add (es : list (string * option FileTree)) (k : string)
  (v : option FileTree) : list (string * option FileTree) :=
  match es with
  | [] => [(k, v)]
  | (k', v') :: r =>
      match array_index k, array_index k' with
      | Some n, Some n' =>
          if (n <? n')%N then (k, v) :: es else (k', v') :: tree_add r k v
      | Some _, None => (k, v) :: es
      | None, _ => (k', v') :: tree_add r k v
      end
  end.

Fixpoint tree_replace (es : list (string * option FileTree)) (k : string)
  (v : option FileTree) : list (string * option FileTree) :=
  match es with
  | [] => []
  | (k', v') :: r =>
      if String.eqb k' k then (k', v) :: r else (k', v') :: tree_replace r k v
  end.

(** [current[k] = v] *)
Definition tree_set (t : FileTree) (k : string) (v : option FileTree) : FileTree :=
  match tree_get (tree_entries t) k with
  | Some _ => TreeObject (tree_replace (tree_entries t) k v)
  | None => TreeObject (tree_add (tree_entries t) k v)
  end.

(** The members that a plain object inherits from [Object.prototype] as the
    language defines it. *)
Definition Object_prototype_members : list string :=
  ["constructor"; "toString"; "toLocaleString"; "valueOf"; "hasOwnProperty";
   "isPrototypeOf"; "propertyIsEnumerable"; "__proto__"; "__defineGetter__";
   "__defineSetter__"; "__lookupGetter__"; "__lookupSetter__"].

(** The names under which a plain object finds an inherited member: those
    of the language and those [added] to the prototype. *)
Definition inherited (added : string -> bool) (part : string) : bool :=
  existsb (String.eqb part) Object_prototype_members || added part.

(** What [current[part]] finds on a plain object: an own key, else an
    inherited member, else nothing. *)
Inductive Member :=
| Own (value : option FileTree)
| Inherited
| Absent.

Definition member (added : string -> bool) (current : FileTree) (part : string)
  : Member :=
  match tree_get (tree_entries current) part with
  | Some value => Own value
  | None => if inherited added part then Inherited else Absent
  end.

(** The inner [parts.forEach] of [buildFileTree], from the object [current].
    The last part is assigned [null]; an own [null] or a missing key on the
    way is replaced by a new object.  [None]: the walk has met an inherited
    member (a truthy one is entered instead of a new object, an inherited
    setter takes the assignment) and goes on outside the tree. *)
Fixpoint insert_parts (added : string -> bool) (parts : list string)
  (current : FileTree) : option FileTree :=
  match parts with
  | [] => Some current
  | [part] =>
      match member added current part with
      | Inherited => None
      | Own _ | Absent => Some (tree_set current part None)
      end
  | part :: rest =>
      match member added current part with
      | Inherited => None
      | Own (Some sub) =>
          option_map (fun sub' => tree_set current part (Some sub'))
                     (insert_parts added rest sub)
      | Own None | Absent =>
          option_map (fun sub' => tree_set current part (Some sub'))
                     (insert_parts added rest (TreeObject []))
      end
  end.

Fixpoint formatFileTree (tree : FileTree) (level : nat) : string :=
  let indent := repeat_string "  " level in
  match tree with
  | TreeObject es =>
      (fix each (es : list (string * option FileTree)) : string :=
         match es with
         | [] => ""
         | (name, None) :: r => indent ++ "📄 " ++ name ++ nl ++ each r
         | (name, Some value) :: r =>
             indent ++ "📁 " ++ name ++ "/" ++ nl
               ++ formatFileTree value (S level) ++ each r
         end) es
  end.

(* ================================================================= *)
(** ** The methods of [OllamaService] *)

Record CommandInfo := mkCommandInfo {
  cmd_command : string;
  cmd_description : string
}.

Definition availableCommands : list CommandInfo :=
  [ mkCommandInfo "@workspace" "Show the workspace structure";
    mkCommandInfo "@read" "Read contents of a file (usage: @read <filepath>)";
    mkCommandInfo "@analyze" "Analyze code for issues (usage: @analyze <filepath>)";
    mkCommandInfo "@search" "Search for code across files (usage: @search <query>)";
    mkCommandInfo "@edit" "Edit a file (usage: @edit <filepath> <line> <content>)";
    mkCommandInfo "@explain" "Explain code in a file (usage: @explain <filepath>)";
    mkCommandInfo "@refactor" "Suggest code refactoring (usage: @refactor <filepath>)";
    mkCommandInfo "@deps" "Show dependency analysis (usage: @deps <filepath>)";
    mkCommandInfo "@understand" "Get detailed code understanding (usage: @understand <filepath>)";
    mkCommandInfo "@help" "Show all available commands" ].

Definition getCommandSuggestions : string :=
  "Available Commands:" ++ nl ++ nl
  ++ concat_map (fun cmd => cmd_command cmd ++ nl) availableCommands
  ++ nl ++ "Type @help for detailed information about each command.".

Definition getCommandHelp : string :=
  "📚 Command Help" ++ nl ++ nl
  ++ concat_map (fun cmd => cmd_command cmd ++ nl ++ cmd_description cmd ++ nl ++ nl)
       availableCommands.

Definition show_N (n : N) : string := NilEmpty.string_of_uint (N.to_uint n).

(** [parseInt] of a non-empty run of digits (exact below [2^53]). *)
Definition parseInt (digits : string) : N := digits_value 0 digits.

(** [s.trim().length > 0] *)
Definition non_empty_line (line : string) : bool :=
  (0 <? String.length (trim line))%nat.

Definition truthy (s : string) : bool := negb (String.eqb s "").

(** [None]: the walk of some file has left the tree. *)
Definition buildFileTree (added : string -> bool) (asRel : Uri -> string)
  (files : list Uri) (rootPath : string) : option FileTree :=
  fold_left
    (fun tree file =>
       let relativePath := asRel file in
       let parts := split "/"%char relativePath in
       match tree with
       | Some current => insert_parts added parts current
       | None => None
       end)
    files (Some (TreeObject [])).

Section Methods.

Variable env : Env.

Definition now : M string := call ENow (fun l => inr (clock env l)).

Definition console_error (label : string) (e : Thrown) : M unit :=
  call (EConsoleError label e) (fun _ => inr tt).

(** [vscode.workspace.workspaceFolders] *)
Definition read_workspaceFolders : M (option (list Uri)) :=
  fun w => (Return (workspaceFolders env (log w)), w).

(** [!workspaceFolders || workspaceFolders.length === 0] is false exactly
    when there is a first folder. *)
Definition first_folder (folders : option (list Uri)) : option Uri :=
  match folders with
  | Some (folder :: _) => Some folder
  | _ => None
  end.

Definition fetch_chat (url : string) (body : ChatRequest)
  : M (Response OllamaResponse) :=
  call (EFetchChat url body) (fun l => fetchChat env l url body).

Definition fetch_tags (url : string)
  : M (Response (option (list OllamaModel))) :=
  call (EFetchTags url) (fun l => fetchTags env l url).

Definition open_document (uri : Uri) : M TextDocument :=
  call (EOpenTextDocument uri) (fun l => openTextDocument env l uri).

(** [this.messageHistory.push(m)] *)
Definition messageHistory_push (m : ChatMessage) : M unit :=
  s <- this ;;
  set_this (set_messageHistory s (messageHistory s +++ [m])).

Definition setModel (model' : string) : M unit :=
  s <- this ;;
  set_this (set_model s model').

Definition getModel : M string := s <- this ;; ret (model s).

Definition getMessageHistory : M (list ChatMessage) :=
  s <- this ;; ret (messageHistory s).

Definition clearHistory : M unit :=
  s <- this ;;
  set_this (set_messageHistory s []).

Definition addToHistory (message : ChatMessage) : M unit :=
  messageHistory_push message.

(** The [messages] of a request that carries the transcript. *)
Definition wire_messages (history : list ChatMessage) : list (Role * string) :=
  map (fun msg => (msg_role msg, msg_content msg)) history.

Definition http_error (status : nat) : Thrown :=
  new_Error ("HTTP error! status: " ++ show_nat status).

Definition sendMessage (message : string) : M string :=
  try_catch
    (if String.eqb (trim message) "@" then ret getCommandSuggestions
     else
       s <- this ;;
       let contextMessage := message in
       let contextMessage :=
         if truthy (workspaceContext s)
         then "Workspace Context:" ++ nl ++ workspaceContext s ++ nl ++ nl
                ++ "User Question: " ++ message
         else contextMessage in
       let contextMessage :=
         match currentFileContext s with
         | Some fc =>
             "Current File Context (" ++ fc_path fc ++ "):" ++ nl
               ++ fc_content fc ++ nl ++ nl ++ "User Question: " ++ message
         | None => contextMessage
         end in
       ts <- now ;;
       messageHistory_push (mkChatMessage user contextMessage ts) ;;;
       s <- this ;;
       response <- fetch_chat (apiUrl s ++ "/api/chat")
                     (mkChatRequest (model s) (wire_messages (messageHistory s)) false) ;;
       if negb (ok response) then throw (http_error (status response))
       else
         data <- settle (json response) ;;
         ts <- now ;;
         messageHistory_push
           (mkChatMessage assistant (resp_message_content data) ts) ;;;
         ret (resp_message_content data))
    (fun error =>
       console_error "Error sending message:" error ;;;
       throw error).

Definition listModels : M (list OllamaModel) :=
  try_catch
    (s <- this ;;
     response <- fetch_tags (apiUrl s ++ "/api/tags") ;;
     if negb (ok response) then throw (http_error (status response))
     else
       data <- settle (json response) ;;
       match data with
       | Some models =>
           ret (map (fun m => mkOllamaModel (model_name m) (model_size m)
                                            (model_modified_at m)) models)
       | None =>
           throw (JsError "TypeError"
                    "Cannot read properties of undefined (reading 'map')")
       end)
    (fun error =>
       console_error "Error listing Ollama models:" error ;;;
       throw error).

Definition no_workspace : string := "No workspace folder is open.".

(** [this.formatFileTree(this.buildFileTree(files, rootPath))]; when a walk
    leaves the tree, the outcome is that of the built-in objects. *)
Definition file_listing (files : list Uri) (rootPath : string) : M string :=
  fun w =>
    match buildFileTree (addedToPrototype env (log w)) (asRelativePath env) files
            rootPath with
    | Some fileTree => ret (formatFileTree fileTree 0) w
    | None => settle (builtinWalk env (log w) files) w
    end.

Definition scanWorkspace : M string :=
  try_catch
    (workspaceFolders <- read_workspaceFolders ;;
     match first_folder workspaceFolders with
     | None => ret no_workspace
     | Some rootPath =>
         files <- call (EFindFiles "**/*" "**/node_modules/**")
                       (fun l => findFiles env l) ;;
         let output := "Workspace Structure:" ++ nl ++ nl in
         listing <- file_listing files rootPath ;;
         ret (output ++ listing)
     end)
    (fun error =>
       console_error "Error scanning workspace:" error ;;;
       ret ("Error scanning workspace: " ++ String_of error)).

Definition readFile (filePath : string) : M string :=
  try_catch
    (workspaceFolders <- read_workspaceFolders ;;
     match first_folder workspaceFolders with
     | None => throw (new_Error no_workspace)
     | Some folder =>
         let fullPath := joinPath env folder filePath in
         document <- open_document fullPath ;;
         ret (getText document)
     end)
    (fun error =>
       console_error "Error reading file:" error ;;;
       throw (new_Error ("Failed to read file " ++ filePath ++ ": "
                           ++ String_of error))).

(** The private [getDiagnostics(filePath)]. *)
Definition getDiagnostics_of (filePath : string) : M (list Diagnostic) :=
  workspaceFolders <- read_workspaceFolders ;;
  match first_folder workspaceFolders with
  | None => ret []
  | Some folder =>
      let fullPath := joinPath env folder filePath in
      document <- open_document fullPath ;;
      call (EGetDiagnostics fullPath) (fun l => inr (getDiagnostics env l fullPath))
  end.

Definition count_non_empty (lines : list string) : nat :=
  length (filter non_empty_line lines).

Definition analyzeCode (filePath : string) : M string :=
  try_catch
    (content <- readFile filePath ;;
     diagnostics <- getDiagnostics_of filePath ;;
     let analysis := "Code Analysis for " ++ filePath ++ ":" ++ nl ++ nl in
     let lines := split LF content in
     let analysis := analysis ++ "📊 File Statistics:" ++ nl in
     let analysis := analysis ++ "- Total lines: " ++ show_nat (length lines) ++ nl in
     let analysis :=
       analysis ++ "- Non-empty lines: " ++ show_nat (count_non_empty lines) ++ nl in
     let analysis :=
       if (0 <? length diagnostics)%nat then
         analysis ++ nl ++ "⚠️ Issues Found:" ++ nl
         ++ concat_map
              (fun diagnostic =>
                 "- Line " ++ show_nat (diag_line diagnostic + 1) ++ ": "
                   ++ diag_message diagnostic ++ nl
                   ++ match diag_severity diagnostic with
                      | SevError => "  Error: " ++ diag_message diagnostic ++ nl
                      | SevWarning => "  Warning: " ++ diag_message diagnostic ++ nl
                      | _ => ""
                      end)
              diagnostics
       else analysis ++ nl ++ "✅ No issues found in the code." ++ nl in
     ret analysis)
    (fun error =>
       console_error "Error analyzing code:" error ;;;
       throw (new_Error ("Failed to analyze code in " ++ filePath ++ ": "
                           ++ String_of error))).

(** The inner loop of [searchCode] over the lines of one file. *)
Fixpoint search_lines (relativePath query : string) (i : nat) (lines : list string)
  (acc : string * nat) : string * nat :=
  match lines with
  | [] => acc
  | line :: r =>
      let '(results, matchCount) := acc in
      search_lines relativePath query (S i) r
        (if includes (toLowerCase line) (toLowerCase query)
         then (results ++ "📄 " ++ relativePath ++ ":" ++ show_nat (i + 1) ++ nl
                 ++ trim line ++ nl ++ nl,
               S matchCount)
         else acc)
  end.

Definition searchCode (query : string) : M string :=
  try_catch
    (workspaceFolders <- read_workspaceFolders ;;
     match first_folder workspaceFolders with
     | None => throw (new_Error no_workspace)
     | Some _ =>
         files <- call (EFindFiles "**/*" "**/node_modules/**")
                       (fun l => findFiles env l) ;;
         found <- foldM
                    (fun acc file =>
                       document <- open_document file ;;
                       let text := getText document in
                       let lines := split LF text in
                       ret (search_lines (asRelativePath env file) query 0 lines acc))
                    files ("🔍 Search Results:" ++ nl ++ nl, 0) ;;
         let '(results, matchCount) := found in
         if (matchCount =? 0)%nat
         then ret "No matches found for your search query."
         else ret (results ++ "Found " ++ show_nat matchCount ++ " matches.")
     end)
    (fun error =>
       console_error "Error searching code:" error ;;;
       throw (new_Error ("Failed to search code: " ++ String_of error))).

Definition editFile (filePath : string) (line : N) (content : string) : M string :=
  try_catch
    (workspaceFolders <- read_workspaceFolders ;;
     match first_folder workspaceFolders with
     | None => throw (new_Error no_workspace)
     | Some folder =>
         let fullPath := joinPath env folder filePath in
         document <- open_document fullPath ;;
         lineText <- settle (lineAt document (Z.of_N line - 1)) ;;
         let len := String.length lineText in
         call (EApplyEdit (doc_uri document) (Z.of_N line - 1) len content)
              (fun l => applyEdit env l (doc_uri document) (Z.of_N line - 1) len content) ;;;
         ret ("✅ Successfully edited line " ++ show_N line ++ " in " ++ filePath)
     end)
    (fun error =>
       console_error "Error editing file:" error ;;;
       throw (new_Error ("Failed to edit file: " ++ String_of error))).

Definition explainCode (filePath : string) : M string :=
  try_catch
    (content <- readFile filePath ;;
     diagnostics <- getDiagnostics_of filePath ;;
     let explanation := "📝 Code Explanation for " ++ filePath ++ ":" ++ nl ++ nl in
     let lines := split LF content in
     let explanation := explanation ++ "📊 File Overview:" ++ nl in
     let explanation :=
       explanation ++ "- Total lines: " ++ show_nat (length lines) ++ nl in
     let explanation :=
       explanation ++ "- Non-empty lines: " ++ show_nat (count_non_empty lines) ++ nl in
     let imports := filter (fun line => startsWith (trim line) "import") lines in
     let functions :=
       filter (fun line => startsWith (trim line) "function"
                           || startsWith (trim line) "async function") lines in
     let classes := filter (fun line => startsWith (trim line) "class") lines in
     let explanation := explanation ++ nl ++ "🔍 Code Structure:" ++ nl in
     let explanation :=
       explanation ++ "- Imports: " ++ show_nat (length imports) ++ nl in
     let explanation :=
       explanation ++ "- Functions: " ++ show_nat (length functions) ++ nl in
     let explanation :=
       explanation ++ "- Classes: " ++ show_nat (length classes) ++ nl in
     let explanation :=
       if (0 <? length diagnostics)%nat then
         explanation ++ nl ++ "⚠️ Issues Found:" ++ nl
         ++ concat_map
              (fun diagnostic =>
                 "- Line " ++ show_nat (diag_line diagnostic + 1) ++ ": "
                   ++ diag_message diagnostic ++ nl)
              diagnostics
       else explanation in
     let complexity := calculateCodeComplexity content in
     let explanation := explanation ++ nl ++ "📈 Code Complexity:" ++ nl in
     let explanation :=
       explanation ++ "- Cyclomatic complexity: " ++ show_nat complexity ++ nl in
     let explanation :=
       explanation ++ (if (10 <? complexity)%nat
                       then "  ⚠️ High complexity detected" ++ nl
                       else "  ✅ Good complexity level" ++ nl) in
     ret explanation)
    (fun error =>
       console_error "Error explaining code:" error ;;;
       throw (new_Error ("Failed to explain code: " ++ String_of error))).

Definition suggestRefactoring (filePath : string) : M string :=
  try_catch
    (content <- readFile filePath ;;
     diagnostics <- getDiagnostics_of filePath ;;
     let header := "🔄 Refactoring Suggestions for " ++ filePath ++ ":" ++ nl ++ nl in
     let suggestions := header in
     let functions := extractFunctions content in
     let classes := extractClasses content in
     let longFunctions := filter (fun f => (20 <? fn_lines f)%nat) functions in
     let suggestions :=
       if (0 <? length longFunctions)%nat then
         suggestions ++ "⚠️ Long Functions Found:" ++ nl
         ++ concat_map
              (fun f =>
                 "- " ++ fn_name f ++ " (" ++ show_nat (fn_lines f) ++ " lines)" ++ nl
                 ++ "  Consider breaking this function into smaller, more focused functions."
                 ++ nl)
              longFunctions
         ++ nl
       else suggestions in
     let complexFunctions :=
       filter (fun f => (5 <? calculateFunctionComplexity (fn_content f))%nat)
              functions in
     let suggestions :=
       if (0 <? length complexFunctions)%nat then
         suggestions ++ "⚠️ Complex Functions Found:" ++ nl
         ++ concat_map
              (fun f =>
                 "- " ++ fn_name f ++ " (complexity: "
                 ++ show_nat (calculateFunctionComplexity (fn_content f)) ++ ")" ++ nl
                 ++ "  Consider simplifying the logic or extracting complex conditions."
                 ++ nl)
              complexFunctions
         ++ nl
       else suggestions in
     let duplicates := findCodeDuplicates content in
     let suggestions :=
       if (0 <? length duplicates)%nat then
         suggestions ++ "⚠️ Potential Code Duplication:" ++ nl
         ++ concat_map
              (fun d =>
                 "- Similar code found in lines " ++ show_nat (startLine d) ++ "-"
                 ++ show_nat (endLine d) ++ nl
                 ++ "  Consider extracting this into a reusable function." ++ nl)
              duplicates
         ++ nl
       else suggestions in
     let namingIssues := checkNamingConventions content in
     let suggestions :=
       if (0 <? length namingIssues)%nat then
         suggestions ++ "⚠️ Naming Convention Issues:" ++ nl
         ++ concat_map (fun issue => "- " ++ issue ++ nl) namingIssues
         ++ nl
       else suggestions in
     let suggestions :=
       if String.eqb suggestions header then
         suggestions
         ++ "✅ No major refactoring suggestions found. The code looks well-structured."
         ++ nl
       else suggestions in
     ret suggestions)
    (fun error =>
       console_error "Error suggesting refactoring:" error ;;;
       throw (new_Error ("Failed to suggest refactoring: " ++ String_of error))).

Definition getPackageDependencies : M (list (string * string)) :=
  try_catch
    (workspaceFolders <- read_workspaceFolders ;;
     match first_folder workspaceFolders with
     | None => ret []
     | Some folder =>
         let packageJsonPath := joinPath env folder "package.json" in
         document <- open_document packageJsonPath ;;
         packageJson <- settle (parseManifest env (getText document)) ;;
         ret (dependencies packageJson +++ devDependencies packageJson)
     end)
    (fun error =>
       console_error "Error reading package.json:" error ;;;
       ret []).

Definition analyzeDependencies (filePath : string) : M string :=
  try_catch
    (content <- readFile filePath ;;
     let imports := extractImports content in
     let analysis := "📦 Dependency Analysis for " ++ filePath ++ ":" ++ nl ++ nl in
     let analysis := analysis ++ "🔍 Imports:" ++ nl in
     let analysis :=
       analysis ++ concat_map (fun imp => "- " ++ imp ++ nl) imports ++ nl in
     let unusedImports := findUnusedImports content imports in
     let analysis :=
       if (0 <? length unusedImports)%nat then
         analysis ++ "⚠️ Unused Imports:" ++ nl
         ++ concat_map (fun imp => "- " ++ imp ++ nl) unusedImports
         ++ nl
       else analysis in
     deps <- getPackageDependencies ;;
     let analysis :=
       analysis ++ "📦 Package Dependencies:" ++ nl
       ++ concat_map (fun dep => "- " ++ fst dep ++ ": " ++ snd dep ++ nl) deps in
     ret analysis)
    (fun error =>
       console_error "Error analyzing dependencies:" error ;;;
       throw (new_Error ("Failed to analyze dependencies: " ++ String_of error))).

Definition understandCode (filePath : string) : M string :=
  try_catch
    (content <- readFile filePath ;;
     let understanding := "🧠 Code Understanding for " ++ filePath ++ ":" ++ nl ++ nl in
     let understanding := understanding ++ "🎯 File Purpose:" ++ nl in
     let understanding := understanding ++ analyzeFilePurpose content ++ nl in
     let understanding := understanding ++ "🔑 Key Components:" ++ nl in
     let components := analyzeKeyComponents content in
     let understanding :=
       understanding
       ++ concat_map
            (fun comp =>
               "- " ++ comp_name comp ++ " (" ++ comp_type comp ++ ")" ++ nl
               ++ "  " ++ comp_description comp ++ nl)
            components
       ++ nl in
     let understanding := understanding ++ "🔄 Code Flow:" ++ nl in
     let understanding := understanding ++ analyzeCodeFlow content ++ nl in
     let understanding :=
       understanding ++ "🔗 Dependencies and Relationships:" ++ nl in
     let understanding := understanding ++ analyzeRelationships content ++ nl in
     let understanding := understanding ++ "⚠️ Potential Issues:" ++ nl in
     let issues := analyzePotentialIssues content in
     let understanding :=
       understanding ++ concat_map (fun issue => "- " ++ issue ++ nl) issues in
     ret understanding)
    (fun error =>
       console_error "Error understanding code:" error ;;;
       throw (new_Error ("Failed to understand code: " ++ String_of error))).

(** A literal matched under the [i] flag. *)
Fixpoint lit_ci (p s : string) : option string :=
  match p, s with
  | "", _ => Some s
  | String _ _, "" => None
  | String a p', String b s' =>
      if Ascii.eqb (lower_char a) (lower_char b) then lit_ci p' s' else None
  end.

(** The last character of a string that [.] accepts. *)
Fixpoint last_dot (s : string) : option string :=
  match s with
  | "" => None
  | String c r =>
      match last_dot r with
      | Some d => Some d
      | None => if is_dot c then Some (String c "") else None
      end
  end.

(** [\s+(.+)] at the head of the input.  White space and [.] overlap, so
    this is the one place where the matcher may give characters back: when
    nothing follows the white space, the content is the last character of
    the run, the first excepted, that [.] accepts. *)
Definition spaces_then_content (s : string) : option string :=
  match span is_space s with
  | (String _ w, rest) =>
      match many1 is_dot rest with
      | Some (content, _) => Some content
      | None => last_dot w
      end
  | _ => None
  end.

(** [/@edit\s+(\S+)\s+(\d+)\s+(.+)/i]: the three groups. *)
Definition re_edit (s : string) : option (string * string * string) :=
  search
    (fun t =>
       match lit_ci "@edit" t with
       | Some r =>
           match many1 is_space r with
           | Some (_, r1) =>
               match many1 (fun c => negb (is_space c)) r1 with
               | Some (filePath, r2) =>
                   match many1 is_space r2 with
                   | Some (_, r3) =>
                       match many1 is_digit r3 with
                       | Some (line, r4) =>
                           match spaces_then_content r4 with
                           | Some content => Some (filePath, line, content)
                           | None => None
                           end
                       | None => None
                       end
                   | None => None
                   end
               | None => None
               end
           | None => None
           end
       | None => None
       end) s.

Definition help_text : string :=
  "Available commands:" ++ nl
  ++ "@help - Show this help message" ++ nl
  ++ "@list - List available models" ++ nl
  ++ "@clear - Clear chat history" ++ nl
  ++ "@model <n> - Change the current model" ++ nl
  ++ "@info - Show current model information" ++ nl
  ++ "@workspace: <query> - Use workspace as context and answer the query" ++ nl
  ++ "@read <file>: <query> - Use file as context and answer the query" ++ nl
  ++ "@analyze <file> - Analyze code in a file" ++ nl
  ++ "@search <query> - Search code in workspace" ++ nl
  ++ "@edit <file> <line> <content> - Edit a file" ++ nl
  ++ "@explain <file> - Explain code in a file" ++ nl
  ++ "@refactor <file> - Suggest refactoring" ++ nl
  ++ "@deps <file> - Analyze dependencies" ++ nl
  ++ "@understand <file> - Get detailed code understanding with context".

Definition workspace_prompt (workspaceFiles query : string) : string :=
  "Workspace Context:" ++ nl ++ workspaceFiles ++ nl ++ nl
  ++ "User Query: " ++ query.

Definition file_prompt (filePath fileContent query : string) : string :=
  "File Context (" ++ filePath ++ "):" ++ nl ++ fileContent ++ nl ++ nl
  ++ "User Query: " ++ query.

Definition understand_prompt (filePath fileContent : string) : string :=
  "Please analyze and explain this code file in detail:" ++ nl
  ++ "File path: " ++ filePath ++ nl
  ++ "Content:" ++ nl
  ++ fileContent ++ nl
  ++ nl
  ++ "Please provide:" ++ nl
  ++ "1. A high-level overview of what this file does" ++ nl
  ++ "2. Key functions and their purposes" ++ nl
  ++ "3. Important data structures or patterns used" ++ nl
  ++ "4. Any notable dependencies or relationships with other files" ++ nl
  ++ "5. Potential areas for improvement or optimization".

Definition unknown_command (baseCmd : string) : string :=
  "Unknown command: " ++ baseCmd ++ nl ++ "Type @help to see available commands".

(** The request shared by [@workspace], [@read] and [@understand]: one user
    message, then the reply's text. *)
Definition ask_with_prompt (prompt : string) : M string :=
  s <- this ;;
  response <- fetch_chat (apiUrl s ++ "/api/chat")
                (mkChatRequest (model s) [(user, prompt)] false) ;;
  if negb (ok response) then throw (http_error (status response))
  else
    data <- settle (json response) ;;
    ret (resp_message_content data).

(** The split of [handleCommand]: [baseCmd] and [query] of an input. *)
Definition cmd_of (command : string) : string := toLowerCase (trim command).

Definition baseCmd_of (command : string) : string :=
  trim (hd "" (split ":" (cmd_of command))).

Definition query_of (command : string) : string :=
  trim (join ":" (tl (split ":" (cmd_of command)))).

(** The [default:] branch of the [switch]. *)
Definition handle_default (baseCmd query : string) : M string :=
  if startsWith baseCmd "@model " then
    let modelName := trim (slice 7 baseCmd) in
    models <- listModels ;;
    if existsb (fun m => String.eqb (model_name m) modelName) models then
      setModel modelName ;;;
      clearHistory ;;;
      ret ("Model changed to: " ++ modelName)
    else
      ret ("Error: Model " ++ dq ++ modelName ++ dq ++ " not found")
  else if startsWith baseCmd "@read " then
    let filePath := trim (slice 6 baseCmd) in
    if negb (truthy query) then
      ret "Please provide a query after the file path:"
    else
      fileContent <- readFile filePath ;;
      let filePrompt := file_prompt filePath fileContent query in
      ask_with_prompt filePrompt
  else if startsWith baseCmd "@understand " then
    let filePath := trim (slice 12 baseCmd) in
    fileContent <- readFile filePath ;;
    let prompt := understand_prompt filePath fileContent in
    ask_with_prompt prompt
  else if startsWith baseCmd "@analyze " then
    let filePath := trim (slice 9 baseCmd) in
    analyzeCode filePath
  else if startsWith baseCmd "@search " then
    let searchQuery := trim (slice 8 baseCmd) in
    searchCode searchQuery
  else if startsWith baseCmd "@edit " then
    match re_edit baseCmd with
    | Some (filePath, line, content) =>
        if truthy filePath && truthy line && truthy content then
          editFile filePath (parseInt line) content
        else
          ret "Error: Invalid edit command format. Use @edit <file> <line> <content>"
    | None =>
        ret "Error: Invalid edit command format. Use @edit <file> <line> <content>"
    end
  else if startsWith baseCmd "@explain " then
    let filePath := trim (slice 9 baseCmd) in
    explainCode filePath
  else if startsWith baseCmd "@refactor " then
    let filePath := trim (slice 10 baseCmd) in
    suggestRefactoring filePath
  else if startsWith baseCmd "@deps " then
    let filePath := trim (slice 6 baseCmd) in
    analyzeDependencies filePath
  else
    ret (unknown_command baseCmd).

(** The [switch (baseCmd)] of [handleCommand]. *)
Definition handleCommand_switch (baseCmd query : string) : M string :=
  if String.eqb baseCmd "@help" then
    ret help_text
  else if String.eqb baseCmd "@list" then
    models <- listModels ;;
    ret ("Available models:" ++ nl
         ++ join nl (map (fun m => "- " ++ model_name m ++ " ("
                                     ++ model_size m ++ ")") models))
  else if String.eqb baseCmd "@clear" then
    clearHistory ;;;
    ret "Chat history cleared"
  else if String.eqb baseCmd "@info" then
    s <- this ;;
    ret ("Current model: " ++ model s)
  else if String.eqb baseCmd "@workspace" then
    if negb (truthy query) then
      ret "Please provide a query after @workspace:"
    else
      workspaceFiles <- scanWorkspace ;;
      let workspacePrompt := workspace_prompt workspaceFiles query in
      ask_with_prompt workspacePrompt
  else
    handle_default baseCmd query.

(** The [try] block of [handleCommand]. *)
Definition handleCommand_try (command cmd : string) : M string :=
  ts <- now ;;
  messageHistory_push (mkChatMessage user command ts) ;;;
  let parts := split ":" cmd in
  let cmdPart := hd "" parts in
  let queryParts := tl parts in
  let query := trim (join ":" queryParts) in
  let baseCmd := trim cmdPart in
  handleCommand_switch baseCmd query.

Definition handleCommand (command : string) : M string :=
  let cmd := toLowerCase (trim command) in
  try_catch
    (handleCommand_try command cmd)
    (fun error =>
       console_error "Error handling command:" error ;;;
       ret ("Error executing command: " ++ message_of error)).

(** *** The caller: the [sendMessage] case of the panel's message handler *)

Definition postMessage (command text : string)
  (history : option (list ChatMessage)) : M unit :=
  call (EPostMessage command text history) (fun _ => inr tt).

Definition onSendMessage (message_text : string) : M unit :=
  try_catch
    (let text := trim message_text in
     if startsWith text "@" then
       response <- handleCommand text ;;
       if truthy response then
         ts <- now ;;
         addToHistory (mkChatMessage assistant response ts) ;;;
         history <- getMessageHistory ;;
         postMessage "response" response (Some history)
       else ret tt
     else
       postMessage "thinking" "Thinking..." None ;;;
       response <- sendMessage text ;;
       history <- getMessageHistory ;;
       postMessage "response" response (Some history))
    (fun error =>
       call (EShowErrorMessage ("Error: " ++ String_of error)) (fun _ => inr tt) ;;;
       postMessage "error" ("Error: " ++ String_of error) None).

End Methods.

(* ================================================================= *)
(** ** Vocabulary of the statements *)

(** The chat requests among logged events, oldest first. *)
Fixpoint chat_requests (l : Log) : list ChatRequest :=
  match l with
  | [] => []
  | EFetchChat _ body :: r => body :: chat_requests r
  | _ :: r => chat_requests r
  end.

(** Does an event reach the Ollama server? *)
Definition is_remote (ev : Event) : bool :=
  match ev with
  | EFetchChat _ _ | EFetchTags _ => true
  | _ => false
  end.

Definition remote_calls (l : Log) : list Event := filter is_remote l.

(** The commands [handleCommand] knows: the [case] labels of its [switch]
    and the prefixes of its [default:] chain. *)
Definition exact_commands : list string :=
  ["@help"; "@list"; "@clear"; "@info"; "@workspace"].

Definition prefix_commands : list string :=
  ["@model "; "@read "; "@understand "; "@analyze "; "@search "; "@edit ";
   "@explain "; "@refactor "; "@deps "].

Definition matches_command (baseCmd : string) : bool :=
  existsb (String.eqb baseCmd) exact_commands
  || existsb (startsWith baseCmd) prefix_commands.

(** The text in front of [\s+NAME] on a line that begins [async function]. *)
Definition begins_async_function (s : string) : bool :=
  match lit "async" s with
  | Some r =>
      match many1 is_space r with
      | Some (_, r') => is_some (keyword_name "function" r')
      | None => false
      end
  | None => false
  end.

(** The public operations of an [OllamaService] object. *)
Inductive Operation :=
| OpSendMessage (message : string)
| OpListModels
| OpSetModel (model : string)
| OpGetModel
| OpGetMessageHistory
| OpClearHistory
| OpScanWorkspace
| OpReadFile (filePath : string)
| OpAnalyzeCode (filePath : string)
| OpSearchCode (query : string)
| OpEditFile (filePath : string) (line : N) (content : string)
| OpExplainCode (filePath : string)
| OpSuggestRefactoring (filePath : string)
| OpAnalyzeDependencies (filePath : string)
| OpUnderstandCode (filePath : string)
| OpHandleCommand (command : string)
| OpAddToHistory (message : ChatMessage).

(** The world after a computation, whatever it returned or threw. *)
Definition after {A} (m : M A) (w : World) : World := snd (m w).

Definition result {A} (m : M A) (w : World) : Outcome A := fst (m w).

Definition run_operation (env : Env) (op : Operation) (w : World) : World :=
  match op with
  | OpSendMessage message => after (sendMessage env message) w
  | OpListModels => after (listModels env) w
  | OpSetModel model => after (setModel model) w
  | OpGetModel => after getModel w
  | OpGetMessageHistory => after getMessageHistory w
  | OpClearHistory => after clearHistory w
  | OpScanWorkspace => after (scanWorkspace env) w
  | OpReadFile filePath => after (readFile env filePath) w
  | OpAnalyzeCode filePath => after (analyzeCode env filePath) w
  | OpSearchCode query => after (searchCode env query) w
  | OpEditFile filePath line content => after (editFile env filePath line content) w
  | OpExplainCode filePath => after (explainCode env filePath) w
  | OpSuggestRefactoring filePath => after (suggestRefactoring env filePath) w
  | OpAnalyzeDependencies filePath => after (analyzeDependencies env filePath) w
  | OpUnderstandCode filePath => after (understandCode env filePath) w
  | OpHandleCommand command => after (handleCommand env command) w
  | OpAddToHistory message => after (addToHistory message) w
  end.

(** The states an object can be in: freshly constructed, then any sequence
    of operations. *)
Inductive reachable (env : Env) : World -> Prop :=
| reachable_new (apiUrl model : string) (l : Log) :
    reachable env (mkWorld (constructor apiUrl model) l)
| reachable_step (op : Operation) (w : World) :
    reachable env w -> reachable env (run_operation env op w).

(** *** Sample worlds *)

Definition sample_reply (text : string) : Response OllamaResponse :=
  mkResponse true 200
    (inr (mkOllamaResponse "llama2" "2024-01-01T00:00:00Z" "assistant" text true)).

(** No folder is open; the server answers every chat with [reply]. *)
Definition closed_env (reply : string) : Env :=
  mkEnv (fun _ => None)
        (fun _ => inr [])
        (fun uri => uri)
        (fun folder p => folder ++ "/" ++ p)
        (fun _ uri => inl (new_Error ("cannot open " ++ uri)))
        (fun _ _ => [])
        (fun _ _ _ _ _ => inr true)
        (fun _ => inl (JsError "SyntaxError" "Unexpected token"))
        (fun _ _ _ => inr (sample_reply reply))
        (fun _ _ => inr (mkResponse true 200
                           (inr (Some [mkOllamaModel "llama2" "3.8 GB" "2024-01-01"]))))
        (fun l => "t" ++ show_nat (length l))
        (fun _ _ => false)
        (fun _ _ => inl (JsError "TypeError" "Cannot create property")).

(** The folder [/ws] is open and holds the one file [src/ollamaService.ts],
    on a file system that distinguishes upper and lower case. *)
Definition project_env (reply : string) : Env :=
  mkEnv (fun _ => Some ["/ws"])
        (fun _ => inr ["/ws/src/ollamaService.ts"])
        (fun uri => slice 4 uri)
        (fun folder p => folder ++ "/" ++ p)
        (fun _ uri =>
           if String.eqb uri "/ws/src/ollamaService.ts"
           then inr (mkTextDocument uri "export class OllamaService {}"
                       (fun n => if (n =? 0)%Z
                                 then inr "export class OllamaService {}"
                                 else inl (new_Error "Illegal value for `line`")))
           else inl (new_Error ("cannot open " ++ uri)))
        (fun _ _ => [])
        (fun _ _ _ _ _ => inr true)
        (fun _ => inl (JsError "SyntaxError" "Unexpected token"))
        (fun _ _ _ => inr (sample_reply reply))
        (fun _ _ => inr (mkResponse true 200
                           (inr (Some [mkOllamaModel "llama2" "3.8 GB" "2024-01-01"]))))
        (fun l => "t" ++ show_nat (length l))
        (fun _ _ => false)
        (fun _ _ => inl (JsError "TypeError" "Cannot create property")).

Definition fresh_world : World :=
  mkWorld (constructor "http://localhost:11434" "llama2") [].

(** Ten lines, the last five repeating the first five. *)
Definition five_lines : list string := ["a"; "b"; "c"; "d"; "e"].

Definition ten_lines : string := join nl (five_lines +++ five_lines).

(** The joined text of the window that starts at line [i], counted from 0. *)
Definition window_at (lines : list string) (i : nat) : string :=
  join nl (slice_list i (i + windowSize) lines).

(** The world in which the [switch] of [handleCommand] starts: the clock
    has been read and the user turn with the raw command appended. *)
Definition logged_command (env : Env) (command : string) (w : World) : World :=
  mkWorld
    (set_messageHistory (svc w)
       (messageHistory (svc w)
        +++ [mkChatMessage user command (clock env (log w))]))
    (log w +++ [ENow]).

(** The chat requests made between two worlds. *)
Definition new_chat_requests (w w' : World) (reqs : list ChatRequest) : Prop :=
  chat_requests (log w') = chat_requests (log w) +++ reqs.

(** The request of a scoped command: one synthetic user message. *)
Definition one_turn_request (s : OllamaService) (prompt : string) : ChatRequest :=
  mkChatRequest (model s) [(user, prompt)] false.

Definition not_upper (c : ascii) : bool := negb (is_upper c).

(** A computation keeps a relation between the world before and after it. *)
Definition keeps {A} (R : World -> World -> Prop) (m : M A) : Prop :=
  forall w, R w (after m w).

(** The two context fields are what they were. *)
Definition same_context (w w' : World) : Prop :=
  workspaceContext (svc w') = workspaceContext (svc w)
  /\ currentFileContext (svc w') = currentFileContext (svc w).

(** [sub] occurs somewhere in [s]. *)
Definition occurs_in (sub s : string) : Prop :=
  exists a b, s = a ++ sub ++ b.

(** The test that [findUnusedImports] applies to one import line. *)
Definition reported_unused (content imp : string) : bool :=
  match importName_of imp with
  | Some importName => negb (includes content importName)
  | None => false
  end.

(** A class record takes its name from a class-start line of [lines]. *)
Definition class_named_from (lines : list string) (c : ClassInfo) : Prop :=
  exists line,
    In line lines /\ is_some (re_class_decl (trim line)) = true
    /\ cls_name c = first_word_or_anonymous line.

(** The loop invariant of [extractClasses]. *)
Definition ec_inv (lines : list string) (st : ec_state) : Prop :=
  let '(classes, currentClass, _) := st in
  Forall (class_named_from lines) classes
  /\ (forall c, currentClass = Some c -> class_named_from lines c).

Definition is_chat (ev : Event) : bool :=
  match ev with
  | EFetchChat _ _ => true
  | _ => false
  end.

(** The world after one more event. *)
Definition with_event (w : World) (ev : Event) : World :=
  mkWorld (svc w) (log w +++ [ev]).

(** The service is untouched and no chat request has been made. *)
Definition quiet (w w' : World) : Prop :=
  svc w' = svc w /\ chat_requests (log w') = chat_requests (log w).

(** Each request carries exactly one message, from the user. *)
Definition one_turn (req : ChatRequest) : Prop :=
  exists prompt, req_messages req = [(user, prompt)].

(** The three scoped commands. *)
Definition scoped_command (baseCmd : string) : bool :=
  String.eqb baseCmd "@workspace"
  || startsWith baseCmd "@read "
  || startsWith baseCmd "@understand ".

(** *** Further vocabulary *)

Definition not_char (sep c : ascii) : bool := negb (Ascii.eqb c sep).

(** A text without line breaks. *)
Definition one_line (s : string) : bool := all_chars (not_char LF) s.

(** The lines from the first one that satisfies [p]. *)
Fixpoint from_first {A} (p : A -> bool) (l : list A) : list A :=
  match l with
  | [] => []
  | x :: r => if p x then l else from_first p r
  end.

(** The service object is what it was. *)
Definition same_service (w w' : World) : Prop := svc w' = svc w.

(** No chat request has been sent. *)
Definition same_chat (w w' : World) : Prop :=
  chat_requests (log w') = chat_requests (log w).

(** The user turn that [handleCommand] appends for a command. *)
Definition command_turn (env : Env) (command : string) (w : World) : ChatMessage :=
  mkChatMessage user command (clock env (log w)).

(** The lines of the text recorded for a function. *)
Definition ef_body (f : FunctionInfo) : list string := split LF (fn_content f).

(** A block of lines that opens with a function-start line and holds no
    other one. *)
Definition function_block (block : list string) : Prop :=
  match block with
  | [] => False
  | start :: rest =>
      is_function_start start = true
      /\ forallb (fun line => negb (is_function_start line)) rest = true
  end.

(** The loop invariant of [extractFunctions] after the lines [processed]:
    the finished functions and the open one hold, in order, the lines from
    the first function start on. *)
Definition ef_partition (processed : list string) (st : ef_state) : Prop :=
  let '(functions, currentFunction, functionContent) := st in
  flat_map ef_body functions +++ functionContent
  = from_first is_function_start processed
  /\ Forall (fun f => function_block (ef_body f)
                      /\ fn_lines f = length (ef_body f)) functions
  /\ length functions + length (match currentFunction with
                                | Some _ => [tt]
                                | None => []
                                end)
     = length (filter is_function_start processed)
  /\ Forall (fun line => one_line line = true) functionContent
  /\ match currentFunction with
     | Some f =>
         function_block functionContent
         /\ fn_content f = join nl functionContent
         /\ fn_lines f = length functionContent
     | None => functions = [] /\ functionContent = []
     end.

(** A line that is empty or opens with white space. *)
Definition indented (line : string) : bool :=
  match line with
  | "" => true
  | String c _ => is_space c
  end.

(** A line on which one of the three declaration patterns of
    [checkNamingConventions] matches. *)
Definition declaration_line (line : string) : bool :=
  is_some (re_var_decl line) || is_some (re_function_decl line)
  || is_some (re_class_decl line).

Definition not_space (c : ascii) : bool := negb (is_space c).

(** A non-empty run of white space. *)
Definition blank (s : string) : bool := truthy s && all_chars is_space s.

(** What the three groups of the [@edit] pattern can hold: a path without
    white space, a run of digits, and a content without line terminators;
    none is empty. *)
Definition edit_groups (filePath line content : string) : bool :=
  truthy filePath && all_chars not_space filePath
  && truthy line && all_chars is_digit line
  && truthy content && all_chars is_dot content.

(** The text [r] does not continue a run of the class [p]. *)
Definition ends_run (p : ascii -> bool) (r : string) : bool :=
  match r with
  | "" => true
  | String c _ => negb (p c)
  end.





(** No folder is open, whenever the editor is asked. *)
Definition no_folder (env : Env) : Prop :=
  forall l, first_folder (workspaceFolders env l) = None.

(** The message of the error that [readFile] throws when no folder is
    open. *)
Definition read_failure (filePath : string) : string :=
  "Failed to read file " ++ filePath ++ ": Error: " ++ no_workspace.

(** The answer of [handleCommand] when a method with the error prefix
    [prefix] has called [readFile] and no folder is open. *)
Definition no_folder_answer (prefix filePath : string) : string :=
  "Error executing command: " ++ prefix ++ "Error: " ++ read_failure filePath.

(** [handleCommand] answers [text] and makes no call to the server. *)
Definition answers_locally (env : Env) (command : string) (w : World)
  (text : string) : Prop :=
  result (handleCommand env command) w = Return text
  /\ remote_calls (log (after (handleCommand env command) w))
     = remote_calls (log w).

(** The test of [searchCode] on one line. *)
Definition line_matches (query line : string) : bool :=
  includes (toLowerCase line) (toLowerCase query).




(** The project of [project_env] in an editor that refuses every edit:
    [applyEdit] resolves to [false]. *)
Definition refusing_env : Env :=
  mkEnv (workspaceFolders (project_env "hi"))
        (findFiles (project_env "hi"))
        (asRelativePath (project_env "hi"))
        (joinPath (project_env "hi"))
        (openTextDocument (project_env "hi"))
        (getDiagnostics (project_env "hi"))
        (fun _ _ _ _ _ => inr false)
        (parseManifest (project_env "hi"))
        (fetchChat (project_env "hi"))
        (fetchTags (project_env "hi"))
        (clock (project_env "hi"))
        (addedToPrototype (project_env "hi"))
        (builtinWalk (project_env "hi")).

(** The answer of [editFile] when nothing is thrown. *)
Definition edit_success (filePath : string) (line : N) : string :=
  "✅ Successfully edited line " ++ show_N line ++ " in " ++ filePath.

(** The first line of the report of [suggestRefactoring]. *)
Definition refactoring_header (filePath : string) : string :=
  "🔄 Refactoring Suggestions for " ++ filePath ++ ":" ++ nl ++ nl.

(** The line that [suggestRefactoring] writes when it has nothing to say. *)
Definition all_clear : string :=
  "✅ No major refactoring suggestions found. The code looks well-structured."
  ++ nl.

(** The functions that [suggestRefactoring] reports as long, and as complex. *)
Definition long_functions (content : string) : list FunctionInfo :=
  filter (fun f => (20 <? fn_lines f)%nat) (extractFunctions content).

Definition complex_functions (content : string) : list FunctionInfo :=
  filter (fun f => (5 <? calculateFunctionComplexity (fn_content f))%nat)
         (extractFunctions content).

(** The records of a loop state of [extractFunctions]: the finished
    functions and the open one. *)
Definition ef_records (st : ef_state) : list FunctionInfo :=
  let '(functions, currentFunction, _) := st in
  functions +++ match currentFunction with
                | Some f => [f]
                | None => []
                end.

(** The loop invariant of [extractFunctions] for the names, after the lines
    [processed]: the records follow the function-start lines one for one,
    and each is named by the first word of the line that opens its text. *)
Definition ef_names (processed : list string) (st : ef_state) : Prop :=
  let '(functions, currentFunction, functionContent) := st in
  map fn_name (ef_records st)
  = map first_word_or_anonymous (filter is_function_start processed)
  /\ Forall (fun f => fn_name f = first_word_or_anonymous (hd "" (ef_body f)))
       functions
  /\ (forall f, currentFunction = Some f ->
                fn_name f = first_word_or_anonymous (hd "" functionContent)).

(** The label that opens the findings of line [n]. *)
Definition line_label (n : nat) : string := "Line " ++ show_nat n ++ ": ".

Definition labelled (n : nat) (issue : string) : bool :=
  startsWith issue (line_label n).


(** The test of [extractClasses] on a line. *)
Definition is_class_start (line : string) : bool :=
  is_some (re_class_decl (trim line)).

(** The loop invariant of [extractClasses] for the names: the records
    follow the class-start lines one for one. *)
Definition ec_names (processed : list string) (st : ec_state) : Prop :=
  let '(classes, currentClass, _) := st in
  map cls_name (classes +++ match currentClass with
                            | Some c => [c]
                            | None => []
                            end)
  = map first_word_or_anonymous (filter is_class_start processed).

(* ================================================================= *)
(** ** Facts about strings *)

Lemma append_nil_r (s : string) : s ++ "" = s.
Proof. induction s; simpl; congruence. Qed.

Lemma append_assoc (a b c : string) : (a ++ b) ++ c = a ++ (b ++ c).
Proof. induction a; simpl; congruence. Qed.

Lemma append_inv_head (h a b : string) : h ++ a = h ++ b -> a = b.
Proof. induction h as [|c h IH]; simpl; [auto|]. intros [= H]. auto. Qed.

Lemma startsWith_append (p r : string) : startsWith (p ++ r) p = true.
Proof.
  induction p as [|c p IH]; simpl.
  - destruct r; reflexivity.
  - now rewrite Ascii.eqb_refl, IH.
Qed.

Lemma startsWith_inv (s p : string) :
  startsWith s p = true -> exists r, s = p ++ r.
Proof.
  revert s; induction p as [|c p IH]; intros s H.
  - exists s; reflexivity.
  - destruct s as [|d s]; simpl in H; [discriminate|].
    apply andb_true_iff in H as [Hc Hs].
    apply Ascii.eqb_eq in Hc; subst d.
    destruct (IH _ Hs) as [r ->]. now exists r.
Qed.

Lemma includes_startsWith (s p : string) :
  startsWith s p = true -> includes s p = true.
Proof. intros H. destruct s; simpl in *; now rewrite H. Qed.

Lemma includes_intro (a sub b : string) : includes (a ++ sub ++ b) sub = true.
Proof.
  induction a as [|c a IH]; simpl.
  - apply includes_startsWith, startsWith_append.
  - rewrite IH. apply orb_true_r.
Qed.

Lemma includes_inv (s sub : string) :
  includes s sub = true -> exists a b, s = a ++ sub ++ b.
Proof.
  induction s as [|c s IH]; intros H.
  - destruct sub; [|discriminate]. exists "", ""; reflexivity.
  - change (startsWith (String c s) sub || includes s sub = true) in H.
    apply orb_true_iff in H as [H|H].
    + apply startsWith_inv in H as [r ->]. exists "", r; reflexivity.
    + destruct (IH H) as (a & b & ->). exists (String c a), b; reflexivity.
Qed.

Lemma includes_trans (s t u : string) :
  includes s t = true -> includes t u = true -> includes s u = true.
Proof.
  intros H1 H2.
  apply includes_inv in H1 as (a & b & ->).
  apply includes_inv in H2 as (a' & b' & ->).
  rewrite !append_assoc, <- (append_assoc a a').
  apply includes_intro.
Qed.

(* ================================================================= *)
(** ** Complexity *)

Lemma count_branching_filter (lines : list string) (c : nat) :
  count_branching c lines = c + length (filter branching_line lines).
Proof.
  unfold count_branching.
  revert c; induction lines as [|line lines IH]; intros c; simpl.
  - lia.
  - rewrite IH. destruct (branching_line line); simpl; lia.
Qed.

(** C6. The complexity of a text is 1 plus the number of its lines on which
    the branching test holds, so a line adds at most 1 however many keywords
    and operators it holds; in particular the complexity never exceeds 1 plus
    the number of lines, the empty text has complexity 1, the two lines
    [if (x) {}] and [else {}] have complexity 3 (with or without a final
    line break), and the single line [if (a && b) {} else {}] has
    complexity 2. *)
Theorem calculateCodeComplexity_once_per_line :
  (forall content,
      calculateCodeComplexity content
      = 1 + length (filter branching_line (split LF content)))
  /\ (forall content,
         calculateCodeComplexity content <= 1 + length (split LF content))
  /\ calculateCodeComplexity "" = 1
  /\ calculateCodeComplexity ("if (x) {}" ++ nl ++ "else {}") = 3
  /\ calculateCodeComplexity ("if (x) {}" ++ nl ++ "else {}" ++ nl) = 3
  /\ calculateCodeComplexity "if (a && b) {} else {}" = 2.
Proof.
  split; [|split]; [| |repeat split; reflexivity].
  - intros content. unfold calculateCodeComplexity.
    apply count_branching_filter.
  - intros content. unfold calculateCodeComplexity.
    rewrite count_branching_filter.
    pose proof (filter_length_le branching_line (split LF content)). lia.
Qed.

(* ================================================================= *)
(** ** Duplicate windows *)

Lemma in_loop_range (lo hi k : nat) : In k (loop_range lo hi) <-> lo <= k < hi.
Proof. unfold loop_range. rewrite in_seq. lia. Qed.

Lemma in_duplicates_of (lines : list string) (i : nat) (r : LineRange) :
  In r (duplicates_of lines i) <->
  exists j, i + windowSize <= j /\ j < length lines - windowSize
            /\ window_at lines i = window_at lines j
            /\ r = mkLineRange (i + 1) (i + windowSize).
Proof.
  unfold duplicates_of. rewrite in_flat_map. split.
  - intros (j & Hj & Hr). apply in_loop_range in Hj.
    destruct (String.eqb_spec (join nl (slice_list i (i + windowSize) lines))
                              (join nl (slice_list j (j + windowSize) lines)))
      as [E|E]; simpl in Hr; [|contradiction].
    destruct Hr as [<-|[]]. exists j. unfold window_at. intuition.
  - intros (j & H1 & H2 & E & ->). exists j. split.
    + apply in_loop_range. lia.
    + unfold window_at in E. rewrite E, String.eqb_refl. now left.
Qed.

(** C5. On the ten lines [a b c d e a b c d e] the scan reports nothing,
    although lines 1-5 equal lines 6-10; with one more line after them it
    reports the window 1-5.  In general a range is reported exactly for the
    pairs of windows starting at lines [i] and [j] (counted from 0) with
    [i + 5 <= j], equal joined text and [j + 5] strictly below the number of
    lines: a later window that ends on the last line is never compared. *)
Theorem findCodeDuplicates_misses_last_window :
  findCodeDuplicates ten_lines = []
  /\ findCodeDuplicates (ten_lines ++ nl) = [mkLineRange 1 5]
  /\ (forall content r,
         In r (findCodeDuplicates content) <->
         exists i j,
           i + windowSize <= j
           /\ j + windowSize < length (split LF content)
           /\ window_at (split LF content) i = window_at (split LF content) j
           /\ r = mkLineRange (i + 1) (i + windowSize)).
Proof.
  split; [reflexivity|]. split; [reflexivity|].
  intros content r. unfold findCodeDuplicates.
  rewrite in_flat_map. split.
  - intros (i & Hi & Hr). apply in_duplicates_of in Hr as (j & H1 & H2 & E & ->).
    exists i, j. repeat split; auto. lia.
  - intros (i & j & H1 & H2 & E & ->). exists i. split.
    + apply in_loop_range. lia.
    + apply in_duplicates_of. exists j. repeat split; auto. lia.
Qed.

(* ================================================================= *)
(** ** The dispatcher *)

Lemma remote_calls_app (l l' : Log) :
  remote_calls (l +++ l') = remote_calls l +++ remote_calls l'.
Proof. apply filter_app. Qed.

Lemma chat_requests_app (l l' : Log) :
  chat_requests (l +++ l') = chat_requests l +++ chat_requests l'.
Proof.
  induction l as [|ev l IH]; simpl; [reflexivity|].
  destruct ev; simpl; now rewrite ?IH.
Qed.

(** [handleCommand] is its [switch], run after the user turn is logged, with
    a thrown value turned into text. *)
Lemma handleCommand_run (env : Env) (command : string) (w : World) :
  handleCommand env command w =
  match handleCommand_switch env (baseCmd_of command) (query_of command)
          (logged_command env command w) with
  | (Return text, w') => (Return text, w')
  | (Throw e, w') =>
      (Return ("Error executing command: " ++ message_of e),
       mkWorld (svc w') (log w' +++ [EConsoleError "Error handling command:" e]))
  end.
Proof.
  unfold handleCommand, handleCommand_try, try_catch, bind, now, call,
    messageHistory_push, this, set_this, console_error, ret, logged_command,
    baseCmd_of, query_of, cmd_of.
  simpl.
  destruct (handleCommand_switch env _ _ _) as [[text|e] w']; reflexivity.
Qed.

Lemma handleCommand_try_run (env : Env) (command : string) (w : World) :
  handleCommand_try env command (cmd_of command) w =
  handleCommand_switch env (baseCmd_of command) (query_of command)
    (logged_command env command w).
Proof. reflexivity. Qed.

Lemma switch_unknown (env : Env) (baseCmd query : string) :
  matches_command baseCmd = false ->
  handleCommand_switch env baseCmd query = ret (unknown_command baseCmd).
Proof.
  unfold matches_command, exact_commands, prefix_commands. cbn [existsb].
  intros H.
  repeat match goal with
         | H' : (_ || _) = false |- _ => apply orb_false_iff in H' as [? ?]
         end.
  unfold handleCommand_switch, handle_default.
  repeat match goal with
         | E : ?b = false |- context [if ?b then _ else _] => rewrite E
         end.
  reflexivity.
Qed.

Lemma unknown_command_help (baseCmd : string) :
  unknown_command baseCmd
  = ("Unknown command: " ++ baseCmd ++ nl ++ "Type ")
      ++ "@help" ++ " to see available commands".
Proof. unfold unknown_command. rewrite !append_assoc. reflexivity. Qed.

(** C1, as stated, fails on the token: the unknown-command message does not
    hold the text that was typed.  It names the command part in lower case,
    and cut at the first colon: [@FOO bar] is answered with [@foo bar], and
    of [@Foo: bar] only [@foo] comes back. *)
Lemma unknown_command_is_not_literal :
  matches_command (baseCmd_of "@FOO bar") = false
  /\ result (handleCommand (closed_env "ok") "@FOO bar") fresh_world
     = Return ("Unknown command: @foo bar" ++ nl
               ++ "Type @help to see available commands")
  /\ includes ("Unknown command: @foo bar" ++ nl
               ++ "Type @help to see available commands") "@FOO" = false
  /\ result (handleCommand (closed_env "ok") "@Foo: bar") fresh_world
     = Return ("Unknown command: @foo" ++ nl
               ++ "Type @help to see available commands").
Proof. repeat split; reflexivity. Qed.

(** C1, amended. [handleCommand] always returns a text and never throws.
    When the command part of the input (trimmed, in lower case, up to the
    first colon) is none of the known commands, the text is the
    unknown-command message, which contains that command part and [@help].
    When the [try] block throws, the text is [Error executing command: ]
    followed by the message of the thrown value. *)
Theorem handleCommand_never_throws :
  (forall env command w,
      exists text, result (handleCommand env command) w = Return text)
  /\ (forall env command w,
         matches_command (baseCmd_of command) = false ->
         result (handleCommand env command) w
         = Return (unknown_command (baseCmd_of command))
         /\ includes (unknown_command (baseCmd_of command)) (baseCmd_of command) = true
         /\ includes (unknown_command (baseCmd_of command)) "@help" = true)
  /\ (forall env command w e w',
         handleCommand_try env command (cmd_of command) w = (Throw e, w') ->
         result (handleCommand env command) w
         = Return ("Error executing command: " ++ message_of e)).
Proof.
  split; [|split].
  - intros env command w. unfold result. rewrite handleCommand_run.
    destruct (handleCommand_switch env _ _ _) as [[text|e] w']; simpl; eauto.
  - intros env command w H. unfold result. rewrite handleCommand_run.
    rewrite (switch_unknown env _ _ H). unfold ret. cbn [fst].
    split; [reflexivity|].
    split.
    + unfold unknown_command. apply (includes_intro "Unknown command: ").
    + rewrite unknown_command_help. apply includes_intro.
  - intros env command w e w' H. unfold result. rewrite handleCommand_run.
    rewrite handleCommand_try_run in H. now rewrite H.
Qed.

Lemma handleCommand_never_throws_witness :
  matches_command (baseCmd_of "@FOO bar") = false
  /\ result (handleCommand (closed_env "ok") "@FOO bar") fresh_world
     = Return (unknown_command "@foo bar")
  /\ result (handleCommand (closed_env "ok") "@read notes.txt: why") fresh_world
     = Return ("Error executing command: Failed to read file notes.txt: "
               ++ "Error: No workspace folder is open.").
Proof.
  split; [reflexivity|]. split.
  - apply (proj1 (proj2 handleCommand_never_throws) (closed_env "ok") "@FOO bar"
             fresh_world).
    reflexivity.
  - eapply (proj2 (proj2 handleCommand_never_throws) (closed_env "ok")
              "@read notes.txt: why" fresh_world
              (new_Error ("Failed to read file notes.txt: "
                          ++ "Error: No workspace folder is open."))).
    lazy. reflexivity.
Defined.

(** C7, as stated, fails: after [@clear] and then [@info] the transcript
    holds the user turn of [@info]. *)
Lemma info_after_clear_leaves_a_turn :
  let w1 := after (handleCommand (closed_env "ok") "@clear") fresh_world in
  let w2 := after (handleCommand (closed_env "ok") "@info") w1 in
  ~ (model (svc w2) = model (svc fresh_world)
     /\ length (messageHistory (svc w2)) = 0).
Proof. cbv zeta. intros [_ H]. vm_compute in H. discriminate. Qed.

(** C7, amended. [@clear] returns [Chat history cleared], leaves the
    transcript empty and the model name unchanged, and makes no remote call.
    [@info] after it returns the unchanged model name and makes no remote
    call; the transcript then has length 1: it holds the user turn of
    [@info], which [handleCommand] appends before it looks at the command. *)
Theorem clear_then_info (env : Env) (w : World) :
  let w1 := after (handleCommand env "@clear") w in
  let w2 := after (handleCommand env "@info") w1 in
  result (handleCommand env "@clear") w = Return "Chat history cleared"
  /\ messageHistory (svc w1) = []
  /\ model (svc w1) = model (svc w)
  /\ remote_calls (log w1) = remote_calls (log w)
  /\ result (handleCommand env "@info") w1
     = Return ("Current model: " ++ model (svc w))
  /\ model (svc w2) = model (svc w)
  /\ messageHistory (svc w2) = [mkChatMessage user "@info" (clock env (log w1))]
  /\ length (messageHistory (svc w2)) = 1
  /\ remote_calls (log w2) = remote_calls (log w).
Proof.
  cbv zeta. unfold after, result. cbn.
  rewrite !remote_calls_app. cbn. rewrite !app_nil_r.
  repeat split.
Qed.

(** The chat requests of a log that is written out. *)
Ltac requests_of_log :=
  rewrite ?chat_requests_app; cbn [chat_requests];
  rewrite ?app_nil_r, <- ?app_assoc; try reflexivity.

(** One step of symbolic execution: the monad's operations are unfolded and
    the projections of the worlds they build are computed. *)
Ltac run_m :=
  repeat (progress
            (unfold try_catch, bind, call, this, set_this, ret, throw, settle,
               now, console_error, fetch_chat, fetch_tags, open_document,
               read_workspaceFolders, messageHistory_push, clearHistory,
               setModel, postMessage, after, result;
             cbn [log svc fst snd negb apiUrl model messageHistory
                  workspaceContext currentFileContext set_messageHistory
                  set_model])).

Lemma switch_workspace (env : Env) (query : string) :
  handleCommand_switch env "@workspace" query =
  if negb (truthy query) then ret "Please provide a query after @workspace:"
  else workspaceFiles <- scanWorkspace env ;;
       ask_with_prompt env (workspace_prompt workspaceFiles query).
Proof. reflexivity. Qed.

(** C3. With no folder open, [@workspace: <query>] still asks the server:
    the text [No workspace folder is open.] that [scanWorkspace] returns is
    embedded in the prompt as if it were the file tree, one chat request is
    sent, and what comes back is the server's reply (or the failure of the
    request), not that text. *)
Theorem workspace_without_folder_asks_server (env : Env) (command : string)
  (w : World) :
  baseCmd_of command = "@workspace" ->
  query_of command <> "" ->
  first_folder (workspaceFolders env (log w +++ [ENow])) = None ->
  let request :=
    one_turn_request (svc w) (workspace_prompt no_workspace (query_of command)) in
  new_chat_requests w (after (handleCommand env command) w) [request]
  /\ (forall reply,
         fetchChat env (log w +++ [ENow]) (apiUrl (svc w) ++ "/api/chat") request
         = inr (sample_reply reply) ->
         result (handleCommand env command) w = Return reply).
Proof.
  intros Hb Hq Hf. cbv zeta.
  unfold after, result, new_chat_requests. rewrite handleCommand_run, Hb.
  apply String.eqb_neq in Hq.
  rewrite switch_workspace. unfold truthy. rewrite Hq.
  unfold scanWorkspace, ask_with_prompt, logged_command. run_m.
  rewrite Hf. run_m.
  split.
  - destruct (fetchChat env _ _ _) as [e|response]; run_m;
      [|destruct (ok response); run_m; [destruct (json response); run_m|]];
      requests_of_log.
  - intros reply Hr. unfold one_turn_request in Hr. rewrite Hr. reflexivity.
Qed.

Lemma workspace_without_folder_asks_server_witness :
  new_chat_requests fresh_world
    (after (handleCommand (closed_env "The folders are src and test.")
              "@workspace: list the top-level folders") fresh_world)
    [one_turn_request (svc fresh_world)
       (workspace_prompt no_workspace "list the top-level folders")]
  /\ result (handleCommand (closed_env "The folders are src and test.")
               "@workspace: list the top-level folders") fresh_world
     = Return "The folders are src and test.".
Proof.
  pose proof (workspace_without_folder_asks_server
                (closed_env "The folders are src and test.")
                "@workspace: list the top-level folders" fresh_world
                eq_refl) as H.
  cbv zeta in H.
  destruct H as [H1 H2]; [discriminate | reflexivity |].
  split; [exact H1 | apply H2; reflexivity].
Defined.

(* ================================================================= *)
(** ** Letter case of the arguments *)

Lemma lower_char_not_upper (c : ascii) : not_upper (lower_char c) = true.
Proof.
  destruct c as [[] [] [] [] [] [] [] []]; reflexivity.
Qed.

Lemma toLowerCase_not_upper (s : string) :
  all_chars not_upper (toLowerCase s) = true.
Proof.
  induction s as [|c s IH]; simpl; [reflexivity|].
  now rewrite lower_char_not_upper, IH.
Qed.

Section AllChars.

Variable P : ascii -> bool.

Lemma all_chars_append (a b : string) :
  all_chars P (a ++ b) = all_chars P a && all_chars P b.
Proof.
  induction a as [|c a IH]; simpl; [reflexivity|].
  now rewrite IH, andb_assoc.
Qed.

Lemma all_chars_trimStart (s : string) :
  all_chars P s = true -> all_chars P (trimStart s) = true.
Proof.
  induction s as [|c s IH]; simpl; [auto|].
  intros H. apply andb_true_iff in H as [Hc Hs].
  destruct (is_space c); [auto|]. simpl. now rewrite Hc, Hs.
Qed.

Lemma all_chars_trimEnd (s : string) :
  all_chars P s = true -> all_chars P (trimEnd s) = true.
Proof.
  induction s as [|c s IH]; simpl; [auto|].
  intros H. apply andb_true_iff in H as [Hc Hs].
  specialize (IH Hs).
  destruct (trimEnd s) as [|d r].
  - destruct (is_space c); simpl; [reflexivity|]. now rewrite Hc.
  - simpl in *. now rewrite Hc.
Qed.

Lemma all_chars_trim (s : string) :
  all_chars P s = true -> all_chars P (trim s) = true.
Proof. intros H. apply all_chars_trimEnd, all_chars_trimStart, H. Qed.

Lemma all_chars_split (sep : ascii) (s : string) :
  all_chars P s = true ->
  Forall (fun piece => all_chars P piece = true) (split sep s).
Proof.
  induction s as [|c s IH]; simpl; intros H.
  - repeat constructor.
  - apply andb_true_iff in H as [Hc Hs]. specialize (IH Hs).
    destruct (Ascii.eqb c sep).
    + constructor; [reflexivity | exact IH].
    + destruct (split sep s) as [|h t].
      * repeat constructor. simpl. now rewrite Hc.
      * inversion IH; subst. constructor; [|assumption].
        simpl. now rewrite Hc.
Qed.

Lemma all_chars_join (sep : string) (l : list string) :
  all_chars P sep = true ->
  Forall (fun piece => all_chars P piece = true) l ->
  all_chars P (join sep l) = true.
Proof.
  intros Hsep H. unfold join.
  induction H as [|x l Hx Hl IH]; simpl; [reflexivity|].
  destruct l as [|y l]; [exact Hx|].
  rewrite !all_chars_append, Hx, Hsep. exact IH.
Qed.

End AllChars.

Lemma baseCmd_not_upper (command : string) :
  all_chars not_upper (baseCmd_of command) = true.
Proof.
  unfold baseCmd_of, cmd_of. apply all_chars_trim.
  pose proof (all_chars_split not_upper ":" _
                (toLowerCase_not_upper (trim command))) as H.
  destruct (split ":" (toLowerCase (trim command))); simpl; [reflexivity|].
  now inversion H.
Qed.

Lemma query_not_upper (command : string) :
  all_chars not_upper (query_of command) = true.
Proof.
  unfold query_of, cmd_of. apply all_chars_trim, all_chars_join; [reflexivity|].
  pose proof (all_chars_split not_upper ":" _
                (toLowerCase_not_upper (trim command))) as H.
  destruct (split ":" (toLowerCase (trim command))); simpl; [constructor|].
  now inversion H.
Qed.

(** C4. The command part and the query that [handleCommand] hands to its
    branches are cut from the lower-cased input, so they hold no upper-case
    letter, and nothing else of the input reaches the branches: the path of
    [@understand src/ollamaService.ts] becomes [src/ollamaservice.ts], which
    a case-sensitive file system does not have, and the query of
    [@read README.md: What Is THIS] becomes [what is this]. *)
Theorem handleCommand_lowercases_arguments :
  (forall command,
      all_chars not_upper (baseCmd_of command) = true
      /\ all_chars not_upper (query_of command) = true)
  /\ (forall env command w,
         handleCommand_try env command (cmd_of command) w
         = handleCommand_switch env (baseCmd_of command) (query_of command)
             (logged_command env command w))
  /\ baseCmd_of "@understand src/ollamaService.ts"
     = "@understand src/ollamaservice.ts"
  /\ result (handleCommand (project_env "ok") "@understand src/ollamaService.ts")
       fresh_world
     = Return ("Error executing command: Failed to read file src/ollamaservice.ts: "
               ++ "Error: cannot open /ws/src/ollamaservice.ts")
  /\ result (readFile (project_env "ok") "src/ollamaService.ts") fresh_world
     = Return "export class OllamaService {}"
  /\ baseCmd_of "@read README.md: What Is THIS" = "@read readme.md"
  /\ query_of "@read README.md: What Is THIS" = "what is this".
Proof.
  split; [|split].
  - intros command. split; [apply baseCmd_not_upper | apply query_not_upper].
  - intros env command w. apply handleCommand_try_run.
  - repeat split; reflexivity.
Qed.

(* ================================================================= *)
(** ** Occurrences and the pieces of regular expressions *)

Lemma occurs_in_refl (s : string) : occurs_in s s.
Proof. exists "", "". simpl. now rewrite append_nil_r. Qed.

Lemma occurs_in_trans (a b c : string) :
  occurs_in a b -> occurs_in b c -> occurs_in a c.
Proof.
  intros (x & y & ->) (x' & y' & ->).
  exists (x' ++ x), (y ++ y'). now rewrite !append_assoc.
Qed.

Lemma occurs_in_includes (sub s : string) :
  occurs_in sub s <-> includes s sub = true.
Proof.
  split.
  - intros (a & b & ->). apply includes_intro.
  - apply includes_inv.
Qed.


Lemma occurs_in_suffix (sub s t : string) : occurs_in sub s -> occurs_in sub (t ++ s).
Proof.
  intros (a & b & ->). exists (t ++ a), b. now rewrite !append_assoc.
Qed.

Lemma occurs_in_cons (sub s : string) (c : ascii) :
  occurs_in sub s -> occurs_in sub (String c s).
Proof. apply (occurs_in_suffix sub s (String c "")). Qed.

Lemma trimStart_occurs (s : string) : occurs_in (trimStart s) s.
Proof.
  induction s as [|c s IH]; simpl.
  - apply occurs_in_refl.
  - destruct (is_space c); [now apply occurs_in_cons | apply occurs_in_refl].
Qed.

Lemma trimEnd_prefix (s : string) : exists ws, s = trimEnd s ++ ws.
Proof.
  induction s as [|c s [ws IH]]; simpl.
  - now exists "".
  - destruct (trimEnd s) as [|d r] eqn:E.
    + destruct (is_space c).
      * now exists (String c s).
      * exists s. reflexivity.
    + exists ws. simpl in IH |- *. congruence.
Qed.

Lemma trimEnd_occurs (s : string) : occurs_in (trimEnd s) s.
Proof.
  destruct (trimEnd_prefix s) as [ws H]. exists "", ws. exact H.
Qed.

Lemma trim_occurs (s : string) : occurs_in (trim s) s.
Proof.
  unfold trim. eapply occurs_in_trans; [apply trimEnd_occurs | apply trimStart_occurs].
Qed.

Lemma split_head_prefix (sep : ascii) (s h : string) (t : list string) :
  split sep s = h :: t -> exists r, s = h ++ r.
Proof.
  revert h t; induction s as [|c s IH]; simpl; intros h t H.
  - injection H as <- _. now exists "".
  - destruct (Ascii.eqb c sep).
    + injection H as <- _. now exists (String c s).
    + destruct (split sep s) as [|h' t'].
      * injection H as <- _. exists s. reflexivity.
      * injection H as <- _. destruct (IH h' t' eq_refl) as [r ->].
        now exists r.
Qed.

Lemma split_occurs (sep : ascii) (s piece : string) :
  In piece (split sep s) -> occurs_in piece s.
Proof.
  revert piece; induction s as [|c s IH]; simpl; intros piece H.
  - destruct H as [<-|[]]. apply occurs_in_refl.
  - destruct (Ascii.eqb c sep).
    + destruct H as [<-|H].
      * exists "", (String c s). reflexivity.
      * now apply occurs_in_cons, IH.
    + destruct (split sep s) as [|h t] eqn:E.
      * destruct H as [<-|[]]. exists "", s. reflexivity.
      * destruct H as [<-|H].
        -- destruct (split_head_prefix _ _ _ _ E) as [r ->].
           exists "", r. reflexivity.
        -- apply occurs_in_cons, IH. now right.
Qed.

Lemma lit_inv (p s r : string) : lit p s = Some r -> s = p ++ r.
Proof.
  revert s; induction p as [|a p IH]; simpl; intros s H.
  - congruence.
  - destruct s as [|b s]; [discriminate|].
    destruct (Ascii.eqb_spec a b) as [<-|]; [|discriminate].
    now rewrite (IH _ H).
Qed.

Lemma span_inv (p : ascii -> bool) (s a b : string) :
  span p s = (a, b) -> s = a ++ b.
Proof.
  revert a b; induction s as [|c s IH]; simpl; intros a b H.
  - injection H as <- <-. reflexivity.
  - destruct (p c).
    + destruct (span p s) as [a' b']. injection H as <- <-.
      simpl. now rewrite (IH a' b' eq_refl).
    + injection H as <- <-. reflexivity.
Qed.

Lemma many1_inv (p : ascii -> bool) (s a b : string) :
  many1 p s = Some (a, b) -> s = a ++ b /\ a <> "".
Proof.
  unfold many1. destruct (span p s) as [a' b'] eqn:E.
  destruct a' as [|c a']; [discriminate|].
  intros H. injection H as <- <-. split; [now apply span_inv in E | discriminate].
Qed.

Lemma search_inv {A} (m : string -> option A) (s : string) (x : A) :
  search m s = Some x -> exists pre t, s = pre ++ t /\ m t = Some x.
Proof.
  induction s as [|c s IH]; simpl; intros H.
  - destruct (m "") eqn:E; [|discriminate].
    exists "", "". split; [reflexivity | congruence].
  - destruct (m (String c s)) eqn:E.
    + exists "", (String c s). split; [reflexivity | congruence].
    + destruct (IH H) as (pre & t & -> & Ht).
      exists (String c pre), t. split; [reflexivity | assumption].
Qed.

Lemma keyword_name_inv (kw s w : string) :
  keyword_name kw s = Some w -> occurs_in w s /\ w <> "".
Proof.
  unfold keyword_name. intros H.
  destruct (lit kw s) as [r|] eqn:E1; [|discriminate].
  destruct (many1 is_space r) as [[ws r']|] eqn:E2; [|discriminate].
  destruct (many1 is_word r') as [[w' r'']|] eqn:E3; [|discriminate].
  simpl in H. injection H as ->.
  apply lit_inv in E1 as ->. apply many1_inv in E2 as [-> _].
  apply many1_inv in E3 as [-> Hw]. split; [|assumption].
  exists (kw ++ ws), r''. now rewrite !append_assoc.
Qed.

Lemma re_import_name_inv (imp w : string) :
  re_import_name imp = Some w -> occurs_in w imp /\ w <> "".
Proof.
  unfold re_import_name. intros H.
  apply search_inv in H as (pre & t & -> & H).
  apply keyword_name_inv in H as [H Hw]. split; [|assumption].
  now apply occurs_in_suffix.
Qed.

Lemma re_from_clause_inv (imp w : string) :
  re_from_clause imp = Some w -> occurs_in w imp /\ w <> "".
Proof.
  unfold re_from_clause. intros H.
  apply search_inv in H as (pre & t & -> & H).
  destruct (lit "from" t) as [r|] eqn:E1; [|discriminate].
  destruct (many1 is_space r) as [[ws [|q r']]|] eqn:E2; try discriminate.
  destruct (is_quote q); [|discriminate].
  destruct (many1 (fun c => negb (is_quote c)) r') as [[name [|q' r'']]|] eqn:E3;
    try discriminate.
  destruct (is_quote q'); [|discriminate].
  injection H as ->.
  apply lit_inv in E1 as ->. apply many1_inv in E2 as [-> _].
  apply many1_inv in E3 as [-> Hw]. split; [|assumption].
  apply occurs_in_suffix.
  exists ("from" ++ ws ++ String q ""), (String q' r'').
  now rewrite !append_assoc.
Qed.

Lemma importName_of_inv (imp w : string) :
  importName_of imp = Some w -> occurs_in w imp /\ w <> "".
Proof.
  unfold importName_of, orElse.
  destruct (re_from_clause imp) as [n|] eqn:E.
  - intros H. injection H as ->. now apply re_from_clause_inv.
  - apply re_import_name_inv.
Qed.

Lemma extractImports_occurs (content imp : string) :
  In imp (extractImports content) -> occurs_in imp content.
Proof.
  unfold extractImports. rewrite in_flat_map. intros (line & Hl & Hi).
  destruct (startsWith (trim line) "import"); [|contradiction].
  destruct Hi as [<-|[]].
  eapply occurs_in_trans; [apply trim_occurs | eapply split_occurs, Hl].
Qed.

Lemma findUnusedImports_filter (content : string) (imports : list string) :
  findUnusedImports content imports = filter (reported_unused content) imports.
Proof.
  unfold findUnusedImports, reported_unused.
  induction imports as [|imp imports IH]; simpl; [reflexivity|].
  rewrite IH. destruct (importName_of imp) as [n|] eqn:E; [|reflexivity].
  apply importName_of_inv in E as [_ Hn]. apply String.eqb_neq in Hn.
  rewrite Hn. simpl. now destruct (includes content n).
Qed.

Lemma filter_none {A} (f : A -> bool) (l : list A) :
  (forall x, In x l -> f x = false) -> filter f l = [].
Proof.
  induction l as [|x l IH]; simpl; intros H; [reflexivity|].
  rewrite (H x (or_introl eq_refl)). apply IH. intros y Hy. apply H. now right.
Qed.

(** C8. [findUnusedImports] keeps the import lines that resolve to a name
    (the module specifier of the [from] clause, else the word after
    [import]) which the text does not include.  The text is searched as a
    whole, the import line itself included, so an import line taken from the
    text always finds its own name there: on the import lines that
    [extractImports] extracts from a text, the result is empty whatever the
    rest of the text says. *)
Theorem findUnusedImports_of_own_imports_is_empty :
  (forall content imports,
      findUnusedImports content imports
      = filter (reported_unused content) imports)
  /\ (forall content, findUnusedImports content (extractImports content) = [])
  /\ extractImports ("import lodash from 'lodash'" ++ nl ++ "let x = 1")
     = ["import lodash from 'lodash'"]
  /\ importName_of "import lodash from 'lodash'" = Some "lodash"
  /\ includes "let x = 1" "lodash" = false
  /\ findUnusedImports ("import lodash from 'lodash'" ++ nl ++ "let x = 1")
       ["import lodash from 'lodash'"] = [].
Proof.
  split; [exact findUnusedImports_filter|].
  split; [|repeat split; reflexivity].
  intros content. rewrite findUnusedImports_filter.
  apply filter_none. intros imp Hi. unfold reported_unused.
  destruct (importName_of imp) as [n|] eqn:E; [|reflexivity].
  apply importName_of_inv in E as [Hn _].
  apply extractImports_occurs in Hi.
  pose proof (occurs_in_trans _ _ _ Hn Hi) as H.
  apply occurs_in_includes in H. now rewrite H.
Qed.

(* ================================================================= *)
(** ** Names of extracted functions and classes *)

Lemma space_not_word (c : ascii) : is_space c = true -> is_word c = false.
Proof.
  destruct c as [[] [] [] [] [] [] [] []]; try reflexivity; discriminate.
Qed.

Lemma span_all (p : ascii -> bool) (s a b : string) :
  span p s = (a, b) -> all_chars p a = true.
Proof.
  revert a b; induction s as [|c s IH]; simpl; intros a b H.
  - injection H as <- <-. reflexivity.
  - destruct (p c) eqn:E.
    + destruct (span p s) as [a' b']. injection H as <- <-.
      simpl. now rewrite E, (IH a' b' eq_refl).
    + injection H as <- <-. reflexivity.
Qed.

Lemma span_stop (p : ascii -> bool) (s a r : string) (c : ascii) :
  span p s = (a, String c r) -> p c = false.
Proof.
  revert a; induction s as [|d s IH]; simpl; intros a H.
  - discriminate.
  - destruct (p d) eqn:E.
    + destruct (span p s) as [a' b'] eqn:Es. injection H as <- ->.
      now apply (IH a').
    + injection H as <- <- <-. exact E.
Qed.

Lemma span_app_stop (p : ascii -> bool) (a r : string) (c : ascii) :
  all_chars p a = true -> p c = false ->
  span p (a ++ String c r) = (a, String c r).
Proof.
  intros Ha Hc. induction a as [|d a IH]; simpl in *.
  - now rewrite Hc.
  - apply andb_true_iff in Ha as [Hd Ha]. now rewrite Hd, (IH Ha).
Qed.

Lemma trimStart_split (s : string) :
  exists ws, s = ws ++ trimStart s /\ all_chars is_space ws = true.
Proof.
  induction s as [|c s (ws & IH & Hws)]; simpl.
  - now exists "".
  - destruct (is_space c) eqn:E.
    + exists (String c ws). simpl. rewrite E, Hws.
      split; [now f_equal | reflexivity].
    + now exists "".
Qed.

(** A line is its trimmed text between two runs of white space. *)
Lemma trim_split (line : string) :
  exists ws ws', line = ws ++ trim line ++ ws' /\ all_chars is_space ws = true.
Proof.
  destruct (trimStart_split line) as (ws & H & Hws).
  destruct (trimEnd_prefix (trimStart line)) as [ws' H'].
  exists ws, ws'. split; [|assumption]. unfold trim. congruence.
Qed.

Lemma match_word_skip (ws s : string) :
  all_chars is_space ws = true -> match_word (ws ++ s) = match_word s.
Proof.
  induction ws as [|c ws IH]; simpl; intros H; [reflexivity|].
  apply andb_true_iff in H as [Hc Hws].
  unfold match_word in *. simpl. unfold many1 at 1. simpl.
  rewrite (space_not_word c Hc). simpl. now apply IH.
Qed.

(** A word followed by a character that is not of a word is the first word
    token. *)
Lemma match_word_head (w r : string) (c : ascii) :
  w <> "" -> all_chars is_word w = true -> is_word c = false ->
  match_word (w ++ String c r) = Some w.
Proof.
  intros Hne Hw Hc. unfold match_word.
  assert (E : many1 is_word (w ++ String c r) = Some (w, String c r)).
  { unfold many1. rewrite (span_app_stop _ _ _ _ Hw Hc).
    destruct w; [congruence | reflexivity]. }
  destruct w as [|d w]; [congruence|].
  change (String d w ++ String c r) with (String d (w ++ String c r)) in *.
  cbn [search]. now rewrite E.
Qed.

(** [\s+] takes at least one character, which is white space. *)
Lemma many1_space_head (s a b : string) :
  many1 is_space s = Some (a, b) ->
  exists c r, s = String c r /\ is_space c = true.
Proof.
  unfold many1. destruct (span is_space s) as [a' b'] eqn:E.
  destruct a' as [|c a']; [discriminate|]. intros _.
  pose proof (span_all _ _ _ _ E) as Ha. pose proof (span_inv _ _ _ _ E) as Hs.
  simpl in Ha. apply andb_true_iff in Ha as [Hc _].
  exists c, (a' ++ b'). split; [exact Hs | exact Hc].
Qed.

(** A line whose trimmed text is [kw], white space and more has [kw] as its
    first word token. *)
Lemma first_word_keyword (kw line r r' ws : string) :
  kw <> "" -> all_chars is_word kw = true ->
  lit kw (trim line) = Some r -> many1 is_space r = Some (ws, r') ->
  match_word line = Some kw.
Proof.
  intros Hne Hkw Hl Hs.
  destruct (trim_split line) as (pre & post & Hline & Hpre).
  apply lit_inv in Hl. apply many1_space_head in Hs as (c & r0 & -> & Hc).
  rewrite Hline, Hl, match_word_skip by assumption.
  rewrite append_assoc. simpl.
  apply match_word_head; auto using space_not_word.
Qed.

Lemma keyword_name_first_word (kw line : string) :
  kw <> "" -> all_chars is_word kw = true ->
  is_some (keyword_name kw (trim line)) = true ->
  first_word_or_anonymous line = kw.
Proof.
  intros Hne Hkw H. unfold keyword_name in H.
  destruct (lit kw (trim line)) as [r|] eqn:E1; [|discriminate].
  destruct (many1 is_space r) as [[ws r']|] eqn:E2; [|discriminate].
  unfold first_word_or_anonymous.
  now rewrite (first_word_keyword kw line r r' ws Hne Hkw E1 E2).
Qed.

Lemma async_first_word (line r r' ws : string) :
  lit "async" (trim line) = Some r -> many1 is_space r = Some (ws, r') ->
  first_word_or_anonymous line = "async".
Proof.
  intros E1 E2. unfold first_word_or_anonymous.
  rewrite (first_word_keyword "async" line r r' ws); auto. discriminate.
Qed.

(** The pattern [\w+\s*=\s*function] at the head of the trimmed line: its
    word is the first word token. *)
Lemma assigned_function_first_word (line w r : string) :
  many1 is_word (trim line) = Some (w, r) ->
  is_some (lit "=" (snd (span is_space r))) = true ->
  match_word line = Some w.
Proof.
  intros Hw Heq.
  destruct (trim_split line) as (pre & post & Hline & Hpre).
  unfold many1 in Hw. destruct (span is_word (trim line)) as [a b] eqn:E.
  destruct a as [|c0 a]; [discriminate|]. injection Hw as <- <-.
  pose proof (span_all _ _ _ _ E) as Hall.
  pose proof (span_inv _ _ _ _ E) as Htrim.
  destruct b as [|c b]; [discriminate|].
  pose proof (span_stop _ _ _ _ _ E) as Hc.
  rewrite Hline, Htrim, match_word_skip by assumption.
  rewrite append_assoc. simpl String.append at 2.
  apply match_word_head; auto. discriminate.
Qed.

Lemma function_start_has_word (line : string) :
  is_function_start line = true -> exists w, match_word line = Some w.
Proof.
  unfold is_function_start. intros H. apply orb_true_iff in H as [H|H].
  - unfold re_function_decl, opt_async, orElse in H.
    destruct (lit "async" (trim line)) as [r|] eqn:E1.
    + destruct (many1 is_space r) as [[ws r']|] eqn:E2.
      * exists "async". apply (first_word_keyword "async" line r r' ws); auto.
        discriminate.
      * exists "function".
        pose proof (keyword_name_first_word "function" line) as K.
        unfold keyword_name in *.
        destruct (lit "function" (trim line)) as [r2|] eqn:E3; [|discriminate].
        destruct (many1 is_space r2) as [[ws2 r3]|] eqn:E4; [|discriminate].
        apply (first_word_keyword "function" line r2 r3 ws2); auto. discriminate.
    + exists "function".
      unfold keyword_name in H.
      destruct (lit "function" (trim line)) as [r2|] eqn:E3; [|discriminate].
      destruct (many1 is_space r2) as [[ws2 r3]|] eqn:E4; [|discriminate].
      apply (first_word_keyword "function" line r2 r3 ws2); auto. discriminate.
  - unfold re_function_expr, opt_async, orElse in H.
    destruct (lit "async" (trim line)) as [r|] eqn:E1.
    + destruct (many1 is_space r) as [[ws r']|] eqn:E2.
      * exists "async". apply (first_word_keyword "async" line r r' ws); auto.
        discriminate.
      * destruct (many1 is_word (trim line)) as [[w r2]|] eqn:E3; [|discriminate].
        exists w. apply (assigned_function_first_word line w r2 E3).
        destruct (lit "=" (snd (span is_space r2))); [reflexivity | discriminate].
    + destruct (many1 is_word (trim line)) as [[w r2]|] eqn:E3; [|discriminate].
      exists w. apply (assigned_function_first_word line w r2 E3).
      destruct (lit "=" (snd (span is_space r2))); [reflexivity | discriminate].
Qed.

Lemma ec_step_inv (lines : list string) (st : ec_state) (line : string) :
  In line lines -> ec_inv lines st -> ec_inv lines (ec_step st line).
Proof.
  destruct st as [[classes cur] cc]. unfold ec_inv, ec_step.
  intros Hin [Hf Hc].
  destruct (is_some (re_class_decl (trim line))) eqn:E.
  - split.
    + destruct cur as [c|]; [|assumption].
      apply Forall_app. split; [assumption|]. constructor; [now apply Hc | constructor].
    + intros c H. injection H as <-. exists line. auto.
  - destruct cur as [c|].
    + split; [assumption|]. intros c' H. injection H as <-.
      destruct (Hc c eq_refl) as (l0 & H1 & H2 & H3). exists l0. auto.
    + split; assumption.
Qed.

Lemma ec_fold_inv (lines l : list string) (st : ec_state) :
  incl l lines -> ec_inv lines st -> ec_inv lines (fold_left ec_step l st).
Proof.
  revert st; induction l as [|x l IH]; simpl; intros st Hi H; [assumption|].
  apply IH.
  - intros y Hy. apply Hi. now right.
  - apply ec_step_inv; [apply Hi; now left | assumption].
Qed.

Lemma extractClasses_names (content : string) (c : ClassInfo) :
  In c (extractClasses content) ->
  class_named_from (split LF content) c.
Proof.
  unfold extractClasses.
  pose proof (ec_fold_inv (split LF content) (split LF content) ([], None, [])
                (incl_refl _)) as H.
  destruct (fold_left ec_step (split LF content) ([], None, []))
    as [[classes cur] cc].
  destruct H as [Hf Hc].
  { split; [constructor | discriminate]. }
  intros Hin. rewrite Forall_forall in Hf.
  destruct cur as [g|]; [|now apply Hf].
  apply in_app_or in Hin as [Hin|[<-|[]]]; [now apply Hf | now apply Hc].
Qed.

(* ================================================================= *)
(** ** What the methods leave alone

    A relation between the world before and the world after that is
    reflexive and transitive, that holds across every event other than a
    chat request and across every assignment to [messageHistory] and
    [model], is kept by every method that sends no chat request; if it also
    holds across chat requests, it is kept by all methods. *)

Section Keeps.

Variable R : World -> World -> Prop.
Hypothesis R_refl : forall w, R w w.
Hypothesis R_trans : forall a b c, R a b -> R b c -> R a c.
Hypothesis R_event :
  forall w ev, is_chat ev = false -> R w (with_event w ev).
Hypothesis R_history :
  forall w history, R w (mkWorld (set_messageHistory (svc w) history) (log w)).
Hypothesis R_model :
  forall w model', R w (mkWorld (set_model (svc w) model') (log w)).

Lemma keeps_ret {A} (a : A) : keeps R (ret a).
Proof. intros w. apply R_refl. Qed.

Lemma keeps_throw {A} (e : Thrown) : keeps R (@throw A e).
Proof. intros w. apply R_refl. Qed.

Lemma keeps_this : keeps R this.
Proof. intros w. apply R_refl. Qed.

Lemma keeps_settle {A} (r : Thrown + A) : keeps R (settle r).
Proof. destruct r; [apply keeps_throw | apply keeps_ret]. Qed.

Lemma keeps_bind {A B} (m : M A) (k : A -> M B) :
  keeps R m -> (forall a, keeps R (k a)) -> keeps R (bind m k).
Proof.
  intros Hm Hk w. unfold after, bind. specialize (Hm w). unfold after in Hm.
  destruct (m w) as [[a|e] w']; simpl in *; [|assumption].
  eapply R_trans; [exact Hm | apply Hk].
Qed.

Lemma keeps_try_catch {A} (body : M A) (handler : Thrown -> M A) :
  keeps R body -> (forall e, keeps R (handler e)) -> keeps R (try_catch body handler).
Proof.
  intros Hm Hk w. unfold after, try_catch. specialize (Hm w). unfold after in Hm.
  destruct (body w) as [[a|e] w']; simpl in *; [assumption|].
  eapply R_trans; [exact Hm | apply Hk].
Qed.

Lemma keeps_call {A} (ev : Event) (answer : Log -> Thrown + A) :
  is_chat ev = false -> keeps R (call ev answer).
Proof.
  intros H w. unfold after, call.
  destruct (answer (log w)); simpl; apply (R_event w ev H).
Qed.

Lemma keeps_foldM {A B} (f : B -> A -> M B) (l : list A) (b : B) :
  (forall b x, keeps R (f b x)) -> keeps R (foldM f l b).
Proof.
  intros Hf. revert b; induction l as [|x l IH]; intros b; simpl.
  - apply keeps_ret.
  - apply keeps_bind; [apply Hf | intros b'; apply IH].
Qed.

Lemma keeps_read_workspaceFolders (env : Env) : keeps R (read_workspaceFolders env).
Proof. intros w. apply R_refl. Qed.

Lemma keeps_file_listing (env : Env) (files : list Uri) (rootPath : string) :
  keeps R (file_listing env files rootPath).
Proof.
  intros w. unfold after, file_listing.
  destruct (buildFileTree _ _ _ _); [apply R_refl|].
  destruct (builtinWalk env _ _); apply R_refl.
Qed.

Lemma keeps_messageHistory_push (m : ChatMessage) : keeps R (messageHistory_push m).
Proof. intros w. apply R_history. Qed.

Lemma keeps_clearHistory : keeps R clearHistory.
Proof. intros w. apply R_history. Qed.

Lemma keeps_setModel (model' : string) : keeps R (setModel model').
Proof. intros w. apply R_model. Qed.

(** The proof of [keeps R m] follows the text of [m]. *)
Ltac keeps_step :=
  first
    [ apply keeps_ret | apply keeps_throw | apply keeps_this
    | apply keeps_settle | apply keeps_read_workspaceFolders
    | apply keeps_file_listing
    | apply keeps_messageHistory_push | apply keeps_clearHistory
    | apply keeps_setModel
    | apply keeps_call; reflexivity
    | apply keeps_bind; [|intros ?]
    | apply keeps_try_catch; [|intros ?]
    | apply keeps_foldM; intros ? ?
    | match goal with
      | |- keeps _ (if ?b then _ else _) => destruct b
      | |- keeps _ (match ?x with _ => _ end) => destruct x
      end ].

Ltac keeps_by_text :=
  unfold now, console_error, fetch_tags, open_document, postMessage;
  repeat keeps_step.

Variable env : Env.

Lemma keeps_now : keeps R (now env).
Proof. keeps_by_text. Qed.

Lemma keeps_listModels : keeps R (listModels env).
Proof. unfold listModels. keeps_by_text. Qed.

Lemma keeps_scanWorkspace : keeps R (scanWorkspace env).
Proof. unfold scanWorkspace. keeps_by_text. Qed.

Lemma keeps_readFile (filePath : string) : keeps R (readFile env filePath).
Proof. unfold readFile. keeps_by_text. Qed.

Lemma keeps_getDiagnostics_of (filePath : string) :
  keeps R (getDiagnostics_of env filePath).
Proof. unfold getDiagnostics_of. keeps_by_text. Qed.

Lemma keeps_getPackageDependencies : keeps R (getPackageDependencies env).
Proof. unfold getPackageDependencies. keeps_by_text. Qed.

Ltac keeps_methods :=
  repeat first
    [ apply keeps_readFile | apply keeps_getDiagnostics_of
    | apply keeps_getPackageDependencies | apply keeps_listModels
    | apply keeps_scanWorkspace | apply keeps_now
    | keeps_step ].

Lemma keeps_analyzeCode (filePath : string) : keeps R (analyzeCode env filePath).
Proof. unfold analyzeCode, console_error. keeps_methods. Qed.

Lemma keeps_searchCode (query : string) : keeps R (searchCode env query).
Proof. unfold searchCode, console_error, open_document. keeps_methods. Qed.

Lemma keeps_editFile (filePath : string) (line : N) (content : string) :
  keeps R (editFile env filePath line content).
Proof. unfold editFile, console_error, open_document. keeps_methods. Qed.

Lemma keeps_explainCode (filePath : string) : keeps R (explainCode env filePath).
Proof. unfold explainCode, console_error. keeps_methods. Qed.

Lemma keeps_suggestRefactoring (filePath : string) :
  keeps R (suggestRefactoring env filePath).
Proof. unfold suggestRefactoring, console_error. keeps_methods. Qed.

Lemma keeps_analyzeDependencies (filePath : string) :
  keeps R (analyzeDependencies env filePath).
Proof. unfold analyzeDependencies, console_error. keeps_methods. Qed.

Lemma keeps_understandCode (filePath : string) :
  keeps R (understandCode env filePath).
Proof. unfold understandCode, console_error. keeps_methods. Qed.

Section WithChat.

Hypothesis R_chat :
  forall w url body, R w (with_event w (EFetchChat url body)).

Lemma keeps_fetch_chat (url : string) (body : ChatRequest) :
  keeps R (fetch_chat env url body).
Proof.
  intros w. unfold after, fetch_chat, call.
  destruct (fetchChat env (log w) url body); simpl; apply R_chat.
Qed.

Ltac keeps_all :=
  repeat first
    [ apply keeps_fetch_chat | apply keeps_analyzeCode | apply keeps_searchCode
    | apply keeps_editFile | apply keeps_explainCode
    | apply keeps_suggestRefactoring | apply keeps_analyzeDependencies
    | keeps_methods ].

Lemma keeps_sendMessage (message : string) : keeps R (sendMessage env message).
Proof. unfold sendMessage, console_error. keeps_all. Qed.

Lemma keeps_ask_with_prompt (prompt : string) : keeps R (ask_with_prompt env prompt).
Proof. unfold ask_with_prompt. keeps_all. Qed.

Lemma keeps_handle_default (baseCmd query : string) :
  keeps R (handle_default env baseCmd query).
Proof.
  unfold handle_default.
  repeat first [ apply keeps_ask_with_prompt | keeps_all ].
Qed.

Lemma keeps_handleCommand_switch (baseCmd query : string) :
  keeps R (handleCommand_switch env baseCmd query).
Proof.
  unfold handleCommand_switch.
  repeat first [ apply keeps_ask_with_prompt | apply keeps_handle_default
               | keeps_all ].
Qed.

Lemma keeps_handleCommand (command : string) : keeps R (handleCommand env command).
Proof.
  unfold handleCommand, handleCommand_try, console_error.
  repeat first [ apply keeps_handleCommand_switch | keeps_all ].
Qed.

End WithChat.

End Keeps.

Lemma same_context_refl (w : World) : same_context w w.
Proof. split; reflexivity. Qed.

Lemma same_context_trans (a b c : World) :
  same_context a b -> same_context b c -> same_context a c.
Proof. intros [H1 H2] [H3 H4]. split; congruence. Qed.

Lemma same_context_event (w : World) (ev : Event) : same_context w (with_event w ev).
Proof. split; reflexivity. Qed.

Lemma same_context_history (w : World) (history : list ChatMessage) :
  same_context w (mkWorld (set_messageHistory (svc w) history) (log w)).
Proof. split; reflexivity. Qed.

Lemma same_context_model (w : World) (model' : string) :
  same_context w (mkWorld (set_model (svc w) model') (log w)).
Proof. split; reflexivity. Qed.

(** No operation assigns to the two context fields. *)
Lemma run_operation_same_context (env : Env) (op : Operation) (w : World) :
  same_context w (run_operation env op w).
Proof.
  pose proof same_context_refl as Hr. pose proof same_context_trans as Ht.
  pose proof (fun w ev (_ : is_chat ev = false) => same_context_event w ev) as He.
  pose proof same_context_history as Hh. pose proof same_context_model as Hm.
  pose proof (fun w url body => same_context_event w (EFetchChat url body)) as Hc.
  destruct op; simpl.
  - apply (keeps_sendMessage same_context Hr Ht He Hh env Hc).
  - apply (keeps_listModels same_context Hr Ht He env).
  - apply (keeps_setModel same_context Hm).
  - apply same_context_refl.
  - apply same_context_refl.
  - apply (keeps_clearHistory same_context Hh).
  - apply (keeps_scanWorkspace same_context Hr Ht He env).
  - apply (keeps_readFile same_context Hr Ht He env).
  - apply (keeps_analyzeCode same_context Hr Ht He env).
  - apply (keeps_searchCode same_context Hr Ht He env).
  - apply (keeps_editFile same_context Hr Ht He env).
  - apply (keeps_explainCode same_context Hr Ht He env).
  - apply (keeps_suggestRefactoring same_context Hr Ht He env).
  - apply (keeps_analyzeDependencies same_context Hr Ht He env).
  - apply (keeps_understandCode same_context Hr Ht He env).
  - apply (keeps_handleCommand same_context Hr Ht He Hh Hm env Hc).
  - apply (keeps_messageHistory_push same_context Hh).
Qed.

Lemma reachable_context (env : Env) (w : World) :
  reachable env w ->
  workspaceContext (svc w) = "" /\ currentFileContext (svc w) = None.
Proof.
  induction 1 as [apiUrl model l | op w Hw [IH1 IH2]].
  - split; reflexivity.
  - destruct (run_operation_same_context env op w) as [H1 H2].
    split; congruence.
Qed.

(** With both context fields unset, [sendMessage] appends the raw message. *)
Lemma sendMessage_user_turn (env : Env) (message : string) (w : World) :
  workspaceContext (svc w) = "" -> currentFileContext (svc w) = None ->
  trim message <> "@" ->
  exists rest,
    messageHistory (svc (after (sendMessage env message) w))
    = messageHistory (svc w)
      +++ mkChatMessage user message (clock env (log w)) :: rest.
Proof.
  intros Hw Hf Ht. apply String.eqb_neq in Ht.
  unfold sendMessage. rewrite Ht. run_m. rewrite Hw, Hf. unfold truthy.
  cbn [String.eqb negb]. run_m.
  destruct (fetchChat env _ _ _) as [e|response]; run_m.
  - exists []. reflexivity.
  - destruct (ok response); run_m.
    + destruct (json response) as [e|data]; run_m.
      * exists []. reflexivity.
      * eexists. rewrite <- app_assoc. reflexivity.
    + exists []. reflexivity.
Qed.

(** C9. No operation of the service assigns to [workspaceContext] or
    [currentFileContext].  So in every state reached from a new object by
    operations both fields have their initial values, the empty string and
    [null], and a call of [sendMessage] that appends a user turn (any call
    but the one for the lone [@]) appends the raw message as its content,
    behind the turns that were there. *)
Theorem context_fields_are_never_assigned :
  (forall env op w, same_context w (run_operation env op w))
  /\ (forall env w,
         reachable env w ->
         workspaceContext (svc w) = ""
         /\ currentFileContext (svc w) = None
         /\ forall message,
             trim message <> "@" ->
             exists ts rest,
               messageHistory (svc (after (sendMessage env message) w))
               = messageHistory (svc w) +++ mkChatMessage user message ts :: rest).
Proof.
  split; [exact run_operation_same_context|].
  intros env w Hw. destruct (reachable_context env w Hw) as [H1 H2].
  split; [assumption|]. split; [assumption|].
  intros message Ht.
  destruct (sendMessage_user_turn env message w H1 H2 Ht) as [rest H].
  eauto.
Qed.

Lemma context_fields_are_never_assigned_witness :
  let w :=
    run_operation (closed_env "hi") (OpHandleCommand "@workspace: what is here")
      (run_operation (closed_env "hi") (OpSendMessage "hello") fresh_world) in
  workspaceContext (svc w) = ""
  /\ currentFileContext (svc w) = None
  /\ exists ts rest,
      messageHistory (svc (after (sendMessage (closed_env "hi") "and now?") w))
      = messageHistory (svc w) +++ mkChatMessage user "and now?" ts :: rest.
Proof.
  cbv zeta.
  destruct (proj2 context_fields_are_never_assigned (closed_env "hi") _
              (reachable_step _ (OpHandleCommand "@workspace: what is here") _
                 (reachable_step _ (OpSendMessage "hello") _
                    (reachable_new _ "http://localhost:11434" "llama2" []))))
    as (H1 & H2 & H3).
  split; [exact H1|]. split; [exact H2|].
  apply H3. discriminate.
Defined.

(* ================================================================= *)
(** ** The messages of outgoing chat requests *)

Lemma quiet_refl (w : World) : quiet w w.
Proof. split; reflexivity. Qed.

Lemma quiet_trans (a b c : World) : quiet a b -> quiet b c -> quiet a c.
Proof. intros [H1 H2] [H3 H4]. split; congruence. Qed.

Lemma quiet_event (w : World) (ev : Event) :
  is_chat ev = false -> quiet w (with_event w ev).
Proof.
  intros H. split; [reflexivity|]. unfold with_event. cbn [log].
  rewrite chat_requests_app. destruct ev; try discriminate; apply app_nil_r.
Qed.

Lemma readFile_quiet (env : Env) (filePath : string) (w : World) :
  quiet w (after (readFile env filePath) w).
Proof. apply (keeps_readFile quiet quiet_refl quiet_trans quiet_event). Qed.

Lemma scanWorkspace_quiet (env : Env) (w : World) :
  quiet w (after (scanWorkspace env) w).
Proof. apply (keeps_scanWorkspace quiet quiet_refl quiet_trans quiet_event). Qed.

Lemma scanWorkspace_returns (env : Env) (w : World) :
  exists tree, result (scanWorkspace env) w = Return tree.
Proof.
  unfold scanWorkspace. run_m.
  destruct (first_folder _); run_m; [|eauto].
  destruct (findFiles env _); run_m; [eauto|].
  unfold file_listing. cbn [log].
  destruct (buildFileTree _ _ _ _); run_m; [eauto|].
  destruct (builtinWalk env _ _); run_m; eauto.
Qed.

Lemma ask_with_prompt_requests (env : Env) (prompt : string) (w : World) :
  new_chat_requests w (after (ask_with_prompt env prompt) w)
    [one_turn_request (svc w) prompt].
Proof.
  unfold new_chat_requests, ask_with_prompt, one_turn_request. run_m.
  destruct (fetchChat env _ _ _) as [e|response]; run_m;
    [|destruct (ok response); run_m; [destruct (json response); run_m|]];
    requests_of_log.
Qed.

Lemma handleCommand_requests (env : Env) (command : string) (w : World) :
  chat_requests (log (after (handleCommand env command) w))
  = chat_requests
      (log (after (handleCommand_switch env (baseCmd_of command) (query_of command))
              (logged_command env command w))).
Proof.
  unfold after. rewrite handleCommand_run.
  destruct (handleCommand_switch env _ _ _) as [[text|e] w']; cbn [snd log];
    [reflexivity|].
  rewrite chat_requests_app. apply app_nil_r.
Qed.

Lemma logged_command_requests (env : Env) (command : string) (w : World) :
  chat_requests (log (logged_command env command w)) = chat_requests (log w)
  /\ model (svc (logged_command env command w)) = model (svc w).
Proof.
  unfold logged_command. cbn [log svc]. rewrite chat_requests_app.
  split; [apply app_nil_r | reflexivity].
Qed.

(** A gathering step that is quiet, then the one-turn request. *)
Lemma gather_then_ask (env : Env) (gather : M string) (prompt_of : string -> string)
  (w : World) :
  quiet w (after gather w) ->
  match result gather w with
  | Return context =>
      new_chat_requests w
        (after (context <- gather ;; ask_with_prompt env (prompt_of context)) w)
        [one_turn_request (svc w) (prompt_of context)]
  | Throw _ =>
      new_chat_requests w
        (after (context <- gather ;; ask_with_prompt env (prompt_of context)) w)
        []
  end.
Proof.
  unfold after, result, bind, new_chat_requests.
  destruct (gather w) as [[context|e] w1]; cbn [fst snd]; intros [Hs Hq].
  - pose proof (ask_with_prompt_requests env (prompt_of context) w1) as H.
    unfold new_chat_requests, after in H. rewrite H, Hq, Hs. reflexivity.
  - rewrite Hq. symmetry. apply app_nil_r.
Qed.

Lemma switch_read (env : Env) (rest query : string) :
  handleCommand_switch env ("@read " ++ rest) query =
  let filePath := trim (slice 6 ("@read " ++ rest)) in
  if negb (truthy query) then ret "Please provide a query after the file path:"
  else fileContent <- readFile env filePath ;;
       ask_with_prompt env (file_prompt filePath fileContent query).
Proof. reflexivity. Qed.

Lemma switch_understand (env : Env) (rest query : string) :
  handleCommand_switch env ("@understand " ++ rest) query =
  let filePath := trim (slice 12 ("@understand " ++ rest)) in
  fileContent <- readFile env filePath ;;
  ask_with_prompt env (understand_prompt filePath fileContent).
Proof. reflexivity. Qed.

(** A command whose branch gathers a context quietly and then asks. *)
Lemma handleCommand_gather (env : Env) (command : string) (w : World)
  (gather : M string) (prompt_of : string -> string) :
  handleCommand_switch env (baseCmd_of command) (query_of command)
  = (context <- gather ;; ask_with_prompt env (prompt_of context)) ->
  (forall w0, quiet w0 (after gather w0)) ->
  match result gather (logged_command env command w) with
  | Return context =>
      new_chat_requests w (after (handleCommand env command) w)
        [one_turn_request (svc w) (prompt_of context)]
  | Throw _ => new_chat_requests w (after (handleCommand env command) w) []
  end.
Proof.
  intros Hs Hq.
  pose proof (gather_then_ask env gather prompt_of
                (logged_command env command w) (Hq _)) as H.
  destruct (logged_command_requests env command w) as [Hl Hm].
  unfold new_chat_requests in *. rewrite handleCommand_requests, Hs.
  unfold one_turn_request in *.
  destruct (result gather (logged_command env command w));
    rewrite H, Hl, ?Hm; reflexivity.
Qed.

(** A command whose branch returns at once. *)
Lemma handleCommand_immediate (env : Env) (command text : string) (w : World) :
  handleCommand_switch env (baseCmd_of command) (query_of command) = ret text ->
  new_chat_requests w (after (handleCommand env command) w) [].
Proof.
  intros Hs. unfold new_chat_requests. rewrite handleCommand_requests, Hs.
  unfold after, ret. cbn [snd].
  rewrite (proj1 (logged_command_requests env command w)).
  symmetry. apply app_nil_r.
Qed.

Lemma sendMessage_requests (env : Env) (message : string) (w : World) :
  trim message <> "@" ->
  exists turn,
    new_chat_requests w (after (sendMessage env message) w)
      [mkChatRequest (model (svc w))
         (map (fun msg => (msg_role msg, msg_content msg)) (messageHistory (svc w))
          +++ [(user, msg_content turn)])
         false]
    /\ msg_role turn = user
    /\ occurs_in message (msg_content turn)
    /\ In turn (messageHistory (svc (after (sendMessage env message) w))).
Proof.
  intros Ht. apply String.eqb_neq in Ht.
  unfold sendMessage, new_chat_requests. rewrite Ht. run_m.
  eexists (mkChatMessage user _ _). split; [|split; [reflexivity|split]].
  - destruct (fetchChat env _ _ _) as [e|response]; run_m;
      [|destruct (ok response); run_m; [destruct (json response); run_m|]];
      unfold wire_messages; rewrite map_app; cbn [map msg_role msg_content];
      requests_of_log.
  - cbn [msg_content].
    destruct (currentFileContext (svc w)) as [fc|].
    + repeat apply occurs_in_suffix. apply occurs_in_refl.
    + destruct (truthy (workspaceContext (svc w))); [|apply occurs_in_refl].
      repeat apply occurs_in_suffix. apply occurs_in_refl.
  - destruct (fetchChat env _ _ _) as [e|response]; run_m;
      [|destruct (ok response); run_m; [destruct (json response); run_m|]];
      rewrite ?in_app_iff; cbn [In]; auto.
Qed.

Lemma workspace_requests (env : Env) (command : string) (w : World) :
  baseCmd_of command = "@workspace" -> query_of command <> "" ->
  exists tree,
    result (scanWorkspace env) (logged_command env command w) = Return tree
    /\ new_chat_requests w (after (handleCommand env command) w)
         [one_turn_request (svc w) (workspace_prompt tree (query_of command))].
Proof.
  intros Hb Hq. apply String.eqb_neq in Hq.
  destruct (scanWorkspace_returns env (logged_command env command w)) as [tree Ht].
  exists tree. split; [assumption|].
  pose proof (handleCommand_gather env command w (scanWorkspace env)
                (fun tree => workspace_prompt tree (query_of command))) as H.
  rewrite Ht in H. apply H; [|apply scanWorkspace_quiet].
  rewrite Hb, switch_workspace. unfold truthy. now rewrite Hq.
Qed.

Lemma read_requests (env : Env) (command rest content : string) (w : World) :
  baseCmd_of command = "@read " ++ rest -> query_of command <> "" ->
  result (readFile env (trim rest)) (logged_command env command w) = Return content ->
  new_chat_requests w (after (handleCommand env command) w)
    [one_turn_request (svc w) (file_prompt (trim rest) content (query_of command))].
Proof.
  intros Hb Hq Hr. apply String.eqb_neq in Hq.
  pose proof (handleCommand_gather env command w (readFile env (trim rest))
                (fun content => file_prompt (trim rest) content (query_of command)))
    as H.
  rewrite Hr in H. apply H; [|apply readFile_quiet].
  rewrite Hb, switch_read. unfold truthy. now rewrite Hq.
Qed.

Lemma understand_requests (env : Env) (command rest content : string) (w : World) :
  baseCmd_of command = "@understand " ++ rest ->
  result (readFile env (trim rest)) (logged_command env command w) = Return content ->
  new_chat_requests w (after (handleCommand env command) w)
    [one_turn_request (svc w) (understand_prompt (trim rest) content)].
Proof.
  intros Hb Hr.
  pose proof (handleCommand_gather env command w (readFile env (trim rest))
                (fun content => understand_prompt (trim rest) content))
    as H.
  rewrite Hr in H. apply H; [|apply readFile_quiet].
  now rewrite Hb, switch_understand.
Qed.

Lemma one_turn_request_one_turn (s : OllamaService) (prompt : string) :
  one_turn (one_turn_request s prompt).
Proof. now exists prompt. Qed.

Lemma scoped_requests (env : Env) (command : string) (w : World) :
  scoped_command (baseCmd_of command) = true ->
  exists reqs,
    new_chat_requests w (after (handleCommand env command) w) reqs
    /\ Forall one_turn reqs.
Proof.
  unfold scoped_command. intros H.
  apply orb_true_iff in H as [H|H]; [apply orb_true_iff in H as [H|H]|].
  - apply String.eqb_eq in H.
    destruct (String.eqb_spec (query_of command) "") as [Hq|Hq].
    + exists []. split; [|constructor].
      eapply handleCommand_immediate. rewrite H, switch_workspace, Hq. reflexivity.
    + destruct (workspace_requests env command w H Hq) as (tree & _ & Hr).
      eexists. split; [exact Hr|].
      repeat constructor. apply one_turn_request_one_turn.
  - apply startsWith_inv in H as [rest H].
    destruct (String.eqb_spec (query_of command) "") as [Hq|Hq].
    + exists []. split; [|constructor].
      eapply handleCommand_immediate. rewrite H, switch_read, Hq. reflexivity.
    + apply String.eqb_neq in Hq.
      pose proof (handleCommand_gather env command w (readFile env (trim rest))
                    (fun content => file_prompt (trim rest) content (query_of command)))
        as G.
      destruct (result (readFile env (trim rest)) (logged_command env command w)).
      * eexists. split.
        -- apply G; [|apply readFile_quiet].
           rewrite H, switch_read. unfold truthy. now rewrite Hq.
        -- repeat constructor. apply one_turn_request_one_turn.
      * exists []. split; [|constructor].
        apply G; [|apply readFile_quiet].
        rewrite H, switch_read. unfold truthy. now rewrite Hq.
  - apply startsWith_inv in H as [rest H].
    pose proof (handleCommand_gather env command w (readFile env (trim rest))
                  (fun content => understand_prompt (trim rest) content))
      as G.
    destruct (result (readFile env (trim rest)) (logged_command env command w)).
    + eexists. split.
      * apply G; [|apply readFile_quiet]. now rewrite H, switch_understand.
      * repeat constructor. apply one_turn_request_one_turn.
    + exists []. split; [|constructor].
      apply G; [|apply readFile_quiet]. now rewrite H, switch_understand.
Qed.

(** C2. A call of [sendMessage] that reaches the server sends one request
    whose messages are the whole transcript, the new user turn included:
    role and content of every earlier turn, in order, and then the new user
    turn, which holds the message and is recorded in the transcript.
    The three scoped commands send instead a request with exactly one user
    message, the synthetic prompt around the gathered context: the file
    tree for [@workspace] with a query, the file's text for [@read] with a
    query and for [@understand]; when no context is gathered (no query, or
    the file cannot be read) they send nothing.  In every case each request
    of a scoped command carries one message, whatever the transcript. *)
Theorem request_messages :
  (forall env message w,
      trim message <> "@" ->
      exists turn,
        new_chat_requests w (after (sendMessage env message) w)
          [mkChatRequest (model (svc w))
             (map (fun msg => (msg_role msg, msg_content msg))
                  (messageHistory (svc w))
              +++ [(user, msg_content turn)])
             false]
        /\ msg_role turn = user
        /\ occurs_in message (msg_content turn)
        /\ In turn (messageHistory (svc (after (sendMessage env message) w))))
  /\ (forall env command w,
         baseCmd_of command = "@workspace" -> query_of command <> "" ->
         exists tree,
           result (scanWorkspace env) (logged_command env command w) = Return tree
           /\ new_chat_requests w (after (handleCommand env command) w)
                [one_turn_request (svc w)
                   (workspace_prompt tree (query_of command))])
  /\ (forall env command rest content w,
         baseCmd_of command = "@read " ++ rest -> query_of command <> "" ->
         result (readFile env (trim rest)) (logged_command env command w)
         = Return content ->
         new_chat_requests w (after (handleCommand env command) w)
           [one_turn_request (svc w)
              (file_prompt (trim rest) content (query_of command))])
  /\ (forall env command rest content w,
         baseCmd_of command = "@understand " ++ rest ->
         result (readFile env (trim rest)) (logged_command env command w)
         = Return content ->
         new_chat_requests w (after (handleCommand env command) w)
           [one_turn_request (svc w) (understand_prompt (trim rest) content)])
  /\ (forall env command w,
         scoped_command (baseCmd_of command) = true ->
         exists reqs,
           new_chat_requests w (after (handleCommand env command) w) reqs
           /\ Forall one_turn reqs)
  /\ (forall context query filePath,
         occurs_in context (workspace_prompt context query)
         /\ occurs_in context (file_prompt filePath context query)
         /\ occurs_in context (understand_prompt filePath context)).
Proof.
  split; [exact sendMessage_requests|].
  split; [exact workspace_requests|].
  split; [intros; now apply read_requests|].
  split; [intros; now apply understand_requests|].
  split; [exact scoped_requests|].
  intros context query filePath. split; [|split].
  - exists ("Workspace Context:" ++ nl), (nl ++ nl ++ "User Query: " ++ query).
    unfold workspace_prompt. now rewrite !append_assoc.
  - exists ("File Context (" ++ filePath ++ "):" ++ nl),
      (nl ++ nl ++ "User Query: " ++ query).
    unfold file_prompt. now rewrite !append_assoc.
  - exists ("Please analyze and explain this code file in detail:" ++ nl
            ++ "File path: " ++ filePath ++ nl ++ "Content:" ++ nl).
    eexists. unfold understand_prompt. rewrite !append_assoc. reflexivity.
Qed.

Lemma request_messages_witness :
  (exists turn,
      new_chat_requests fresh_world
        (after (sendMessage (closed_env "hi") "hello") fresh_world)
        [mkChatRequest "llama2" [(user, msg_content turn)] false]
      /\ msg_role turn = user
      /\ occurs_in "hello" (msg_content turn)
      /\ In turn (messageHistory
                    (svc (after (sendMessage (closed_env "hi") "hello")
                            fresh_world))))
  /\ new_chat_requests fresh_world
       (after (handleCommand (project_env "hi")
                 "@read src/ollamaService.ts: what is this") fresh_world)
       []
  /\ (exists reqs,
         new_chat_requests
           (after (sendMessage (closed_env "hi") "hello") fresh_world)
           (after (handleCommand (closed_env "hi") "@workspace: what is here")
              (after (sendMessage (closed_env "hi") "hello") fresh_world))
           reqs
         /\ Forall one_turn reqs).
Proof.
  split; [|split].
  - apply (proj1 request_messages (closed_env "hi") "hello" fresh_world).
    discriminate.
  - reflexivity.
  - apply (proj1 (proj2 (proj2 (proj2 (proj2 request_messages))))).
    reflexivity.
Defined.

(* ================================================================= *)
(** ** More about splitting, joining and trimming *)

Lemma split_not_nil (sep : ascii) (s : string) : split sep s <> [].
Proof.
  destruct s as [|c s]; simpl; [discriminate|].
  destruct (Ascii.eqb c sep); [discriminate|].
  destruct (split sep s); discriminate.
Qed.

Lemma split_pieces_free (sep : ascii) (s : string) :
  Forall (fun piece => all_chars (not_char sep) piece = true) (split sep s).
Proof.
  induction s as [|c s IH]; simpl.
  - repeat constructor.
  - destruct (Ascii.eqb c sep) eqn:E.
    + constructor; [reflexivity | exact IH].
    + destruct (split sep s) as [|h t].
      * repeat constructor. simpl. unfold not_char at 1. now rewrite E.
      * inversion IH; subst. constructor; [|assumption].
        simpl. unfold not_char at 1. now rewrite E.
Qed.

Lemma split_free (sep : ascii) (s : string) :
  all_chars (not_char sep) s = true -> split sep s = [s].
Proof.
  induction s as [|c s IH]; simpl; intros H; [reflexivity|].
  apply andb_true_iff in H as [Hc Hs]. unfold not_char in Hc.
  apply negb_true_iff in Hc. rewrite Hc, (IH Hs). reflexivity.
Qed.

Lemma split_app_sep (sep : ascii) (a b : string) :
  split sep (a ++ String sep b) = split sep a +++ split sep b.
Proof.
  induction a as [|c a IH]; simpl.
  - rewrite Ascii.eqb_refl. reflexivity.
  - rewrite IH. destruct (Ascii.eqb c sep); [reflexivity|].
    pose proof (split_not_nil sep a) as Ha.
    destruct (split sep a) as [|h t]; [congruence | reflexivity].
Qed.

Lemma split_join (l : list string) :
  l <> [] -> Forall (fun piece => one_line piece = true) l ->
  split LF (join nl l) = l.
Proof.
  intros Hne H. induction H as [|x l Hx Hl IH]; [congruence|].
  unfold join in *. destruct l as [|y l].
  - now apply split_free.
  - change (String.concat nl (x :: y :: l))
      with (x ++ String LF (String.concat nl (y :: l))).
    rewrite split_app_sep, (split_free LF x Hx), IH by discriminate.
    reflexivity.
Qed.

Lemma trimStart_head (s : string) :
  match trimStart s with
  | "" => True
  | String c _ => is_space c = false
  end.
Proof.
  induction s as [|c s IH]; simpl; [exact I|].
  destruct (is_space c) eqn:E; [exact IH | exact E].
Qed.

Lemma trimStart_fixed (s : string) :
  match s with "" => True | String c _ => is_space c = false end ->
  trimStart s = s.
Proof. destruct s as [|c s]; simpl; [reflexivity|]. now intros ->. Qed.

Lemma trimEnd_head (c : ascii) (s : string) :
  is_space c = false -> exists r, trimEnd (String c s) = String c r.
Proof.
  intros H. simpl. destruct (trimEnd s); [rewrite H|]; eauto.
Qed.

Lemma trimEnd_cons (c d : ascii) (s r : string) :
  trimEnd s = String d r -> trimEnd (String c s) = String c (String d r).
Proof. intros H. simpl. now rewrite H. Qed.

Lemma trimEnd_idem (s : string) : trimEnd (trimEnd s) = trimEnd s.
Proof.
  induction s as [|c s IH]; simpl; [reflexivity|].
  destruct (trimEnd s) as [|d r] eqn:E.
  - destruct (is_space c) eqn:Ec; simpl; [reflexivity|]. now rewrite Ec.
  - now apply trimEnd_cons.
Qed.

(** [trim] leaves a trimmed text alone. *)
Lemma trim_idem (s : string) : trim (trim s) = trim s.
Proof.
  unfold trim. pose proof (trimStart_head s) as H.
  destruct (trimStart s) as [|c r] eqn:E; [reflexivity|].
  destruct (trimEnd_head c r H) as [r' Hr]. rewrite Hr.
  rewrite trimStart_fixed by exact H. rewrite <- Hr. apply trimEnd_idem.
Qed.

Lemma lower_char_idem (c : ascii) : lower_char (lower_char c) = lower_char c.
Proof. destruct c as [[] [] [] [] [] [] [] []]; reflexivity. Qed.

Lemma toLowerCase_idem (s : string) : toLowerCase (toLowerCase s) = toLowerCase s.
Proof.
  induction s as [|c s IH]; simpl; [reflexivity|].
  now rewrite lower_char_idem, IH.
Qed.

(* ================================================================= *)
(** ** Imports *)

Lemma extractImports_map_filter (content : string) :
  extractImports content
  = map trim (filter (fun line => startsWith (trim line) "import")
                     (split LF content)).
Proof.
  unfold extractImports. induction (split LF content) as [|line l IH].
  - reflexivity.
  - cbn [flat_map filter]. rewrite IH.
    destruct (startsWith (trim line) "import"); reflexivity.
Qed.

Lemma extractImports_shape (content imp : string) :
  In imp (extractImports content) ->
  startsWith imp "import" = true /\ trim imp = imp /\ one_line imp = true.
Proof.
  unfold extractImports. rewrite in_flat_map. intros (line & Hl & Hi).
  destruct (startsWith (trim line) "import") eqn:E; [|contradiction].
  destruct Hi as [<-|[]]. split; [exact E|]. split; [apply trim_idem|].
  apply all_chars_trim.
  pose proof (split_pieces_free LF content) as H. rewrite Forall_forall in H.
  now apply H.
Qed.

Lemma extractImports_of_imports (l : list string) :
  Forall (fun imp => startsWith imp "import" = true /\ trim imp = imp) l ->
  flat_map (fun line => if startsWith (trim line) "import" then [trim line] else [])
    l = l.
Proof.
  induction 1 as [|x l [H1 H2] Hl IH]; [reflexivity|].
  cbn [flat_map]. rewrite IH, H2, H1. reflexivity.
Qed.

(** X1. [extractImports] returns, in the order of the text, the trimmed text
    of every line that starts with [import] once trimmed, one entry per such
    line.  Each entry starts with [import], has no white space around it
    and no line break in it, and extracting the imports of the extracted
    lines joined by line breaks gives the same list again. *)
Theorem extractImports_round_trip :
  (forall content,
      extractImports content
      = map trim (filter (fun line => startsWith (trim line) "import")
                         (split LF content)))
  /\ (forall content imp,
         In imp (extractImports content) ->
         startsWith imp "import" = true /\ trim imp = imp /\ one_line imp = true)
  /\ (forall content,
         extractImports (join nl (extractImports content))
         = extractImports content).
Proof.
  split; [exact extractImports_map_filter|].
  split; [exact extractImports_shape|].
  intros content.
  destruct (extractImports content) as [|x l] eqn:E; [reflexivity|].
  rewrite <- E. unfold extractImports at 1.
  rewrite split_join.
  - apply extractImports_of_imports. apply Forall_forall. intros imp Hi.
    destruct (extractImports_shape content imp Hi) as (H1 & H2 & _). auto.
  - rewrite E. discriminate.
  - apply Forall_forall. intros imp Hi.
    now destruct (extractImports_shape content imp Hi) as (_ & _ & H).
Qed.

(* ================================================================= *)
(** ** Complexity of joined texts *)

(** X2. The complexity of two texts joined by a line break is the sum of
    their complexities minus the one base point counted twice; every
    complexity is at least 1; and [calculateFunctionComplexity] computes the
    same number as [calculateCodeComplexity] on every text. *)
Theorem complexity_of_joined_texts :
  (forall a b,
      calculateCodeComplexity (a ++ nl ++ b) + 1
      = calculateCodeComplexity a + calculateCodeComplexity b)
  /\ (forall content, 1 <= calculateCodeComplexity content)
  /\ (forall content,
         calculateFunctionComplexity content = calculateCodeComplexity content).
Proof.
  split; [|split].
  - intros a b. unfold calculateCodeComplexity, nl.
    change (a ++ String LF "" ++ b) with (a ++ String LF b).
    rewrite split_app_sep, !count_branching_filter, filter_app, length_app. lia.
  - intros content. unfold calculateCodeComplexity.
    rewrite count_branching_filter. lia.
  - reflexivity.
Qed.

(* ================================================================= *)
(** ** The blocks of extracted functions *)

Lemma from_first_snoc {A} (p : A -> bool) (l : list A) (x : A) :
  from_first p (l +++ [x])
  = match from_first p l with
    | [] => if p x then [x] else []
    | r => r +++ [x]
    end.
Proof.
  induction l as [|y l IH]; simpl; [reflexivity|].
  destruct (p y); [reflexivity | exact IH].
Qed.

Lemma function_block_snoc (block : list string) (line : string) :
  function_block block -> is_function_start line = false ->
  function_block (block +++ [line]).
Proof.
  destruct block as [|start rest]; simpl; [tauto|].
  intros [H1 H2] H. split; [assumption|].
  rewrite forallb_app, H2. simpl. now rewrite H.
Qed.

Lemma function_block_not_nil (block : list string) :
  function_block block -> block <> [].
Proof. destruct block; simpl; [tauto | discriminate]. Qed.

Lemma ef_step_partition (processed : list string) (st : ef_state) (line : string) :
  one_line line = true ->
  ef_partition processed st ->
  ef_partition (processed +++ [line]) (ef_step st line).
Proof.
  destruct st as [[functions cur] fc]. unfold ef_partition, ef_step.
  intros Hline (HA & HB & HC & HE & HD).
  rewrite from_first_snoc.
  assert (HF : length (filter is_function_start (processed +++ [line]))
               = length (filter is_function_start processed)
                 + (if is_function_start line then 1 else 0)).
  { rewrite filter_app, length_app. cbn [filter].
    now destruct (is_function_start line). }
  rewrite HF. clear HF.
  destruct (is_function_start line) eqn:P.
  - (* a new function starts *)
    destruct cur as [f|].
    + destruct HD as (Hblock & Hcontent & Hlines).
      assert (Hbody : ef_body f = fc).
      { unfold ef_body. rewrite Hcontent.
        apply split_join; [now apply function_block_not_nil | assumption]. }
      split; [|split; [|split; [|split]]].
      * rewrite flat_map_app. cbn [flat_map]. rewrite Hbody, app_nil_r, HA.
        destruct (from_first is_function_start processed) eqn:E; [|reflexivity].
        apply app_eq_nil in HA as [_ HA].
        now apply function_block_not_nil in Hblock.
      * apply Forall_app. split; [assumption|].
        constructor; [|constructor]. rewrite Hbody. auto.
      * rewrite length_app. cbn [length] in *. lia.
      * repeat constructor. assumption.
      * split; [|split]; [|reflexivity|reflexivity].
        simpl. auto.
    + destruct HD as [-> ->]. cbn [flat_map app] in HA.
      split; [|split; [|split; [|split]]].
      * rewrite <- HA. reflexivity.
      * constructor.
      * cbn [length] in *. lia.
      * repeat constructor. assumption.
      * split; [|split]; [|reflexivity|reflexivity].
        simpl. auto.
  - (* the line goes to the open function, if there is one *)
    destruct cur as [f|].
    + destruct HD as (Hblock & Hcontent & Hlines).
      split; [|split; [|split; [|split]]].
      * rewrite app_assoc, HA.
        destruct (from_first is_function_start processed) eqn:E; [|reflexivity].
        apply app_eq_nil in HA as [_ HA].
        now apply function_block_not_nil in Hblock.
      * assumption.
      * cbn [length] in *. lia.
      * apply Forall_app. split; [assumption | repeat constructor; assumption].
      * cbn [fn_content fn_lines]. split; [|split]; [|reflexivity|reflexivity].
        now apply function_block_snoc.
    + destruct HD as [-> ->]. cbn [flat_map app] in HA.
      split; [|split; [|split; [|split]]].
      * rewrite <- HA. reflexivity.
      * constructor.
      * cbn [length] in *. lia.
      * constructor.
      * split; reflexivity.
Qed.

Lemma ef_fold_partition (l processed : list string) (st : ef_state) :
  Forall (fun line => one_line line = true) l ->
  ef_partition processed st ->
  ef_partition (processed +++ l) (fold_left ef_step l st).
Proof.
  revert processed st; induction l as [|x l IH]; intros processed st Hl H.
  - now rewrite app_nil_r.
  - inversion Hl; subst. cbn [fold_left].
    replace (processed +++ x :: l) with ((processed +++ [x]) +++ l)
      by now rewrite <- app_assoc.
    apply IH; [assumption|]. now apply ef_step_partition.
Qed.

(** X3. [extractFunctions] cuts the text into blocks: the recorded texts of
    the functions, line by line and in order, are exactly the lines of the
    text from the first function-start line to the end (lines before it
    belong to no function, and none is lost or repeated).  Each function's
    text opens with a function-start line and holds no other, its [lines]
    field is the number of lines of its text, and there are as many
    functions as function-start lines; without such a line the result is
    empty. *)
Theorem extractFunctions_partition (content : string) :
  let lines := split LF content in
  let functions := extractFunctions content in
  flat_map ef_body functions = from_first is_function_start lines
  /\ Forall (fun f => function_block (ef_body f)
                      /\ fn_lines f = length (ef_body f)
                      /\ 1 <= fn_lines f) functions
  /\ length functions = length (filter is_function_start lines)
  /\ (forallb (fun line => negb (is_function_start line)) lines = true ->
      functions = []).
Proof.
  cbv zeta.
  assert (H : ef_partition (split LF content)
                (fold_left ef_step (split LF content) ([], None, []))).
  { apply (ef_fold_partition (split LF content) [] ([], None, [])).
    - apply split_pieces_free.
    - cbn. repeat split; constructor. }
  assert (K : flat_map ef_body (extractFunctions content)
              = from_first is_function_start (split LF content)
              /\ Forall (fun f => function_block (ef_body f)
                                  /\ fn_lines f = length (ef_body f))
                   (extractFunctions content)
              /\ length (extractFunctions content)
                 = length (filter is_function_start (split LF content))).
  { unfold extractFunctions.
    destruct (fold_left ef_step (split LF content) ([], None, []))
      as [[functions cur] fc].
    destruct H as (HA & HB & HC & HE & HD).
    destruct cur as [f|].
    - destruct HD as (Hblock & Hcontent & Hlines).
      assert (Hbody : ef_body f = fc).
      { unfold ef_body. rewrite Hcontent.
        apply split_join; [now apply function_block_not_nil | assumption]. }
      split; [|split].
      + rewrite flat_map_app. cbn [flat_map]. now rewrite Hbody, app_nil_r.
      + apply Forall_app. split; [assumption|].
        constructor; [|constructor]. rewrite Hbody. auto.
      + rewrite length_app. cbn [length] in *. lia.
    - destruct HD as [-> ->]. cbn [length] in HC.
      split; [|split]; [now rewrite app_nil_r in HA | apply Forall_nil | cbn [length]; lia]. }
  destruct K as (K1 & K2 & K3).
  split; [assumption|]. split; [|split; [assumption|]].
  - eapply Forall_impl; [|exact K2]. intros f [Hb Hl].
    split; [assumption|]. split; [assumption|].
    rewrite Hl. destruct (ef_body f); simpl in *; [tauto | lia].
  - intros Hnone.
    assert (E : filter is_function_start (split LF content) = []).
    { apply filter_none. intros x Hx.
      rewrite forallb_forall in Hnone. specialize (Hnone x Hx).
      now apply negb_true_iff in Hnone. }
    rewrite E in K3. now destruct (extractFunctions content).
Qed.

Lemma extractFunctions_partition_witness :
  extractFunctions ("// greeting" ++ nl ++ "const x = 1") = [].
Proof.
  apply (proj2 (proj2 (proj2 (extractFunctions_partition
                                ("// greeting" ++ nl ++ "const x = 1"))))).
  reflexivity.
Defined.

(* ================================================================= *)
(** ** The names of the records *)

(** C10, as stated, fails on the second function-start pattern: on the
    line [save = function () {}] the recorded name is [save], the declared
    identifier; and a function assigned to a variable called [anonymous] is
    recorded under that name. *)
Lemma assigned_function_keeps_declared_name :
  is_function_start "save = function () {}" = true
  /\ extractFunctions "save = function () {}"
     = [mkFunctionInfo "save" "save = function () {}" 1]
  /\ map fn_name (extractFunctions "anonymous = function () {}") = ["anonymous"].
Proof. repeat split; reflexivity. Qed.

Lemma from_first_incl {A} (p : A -> bool) (l : list A) (x : A) :
  In x (from_first p l) -> In x l.
Proof.
  induction l as [|y l IH]; simpl; [tauto|].
  destruct (p y); [auto | intros H; right; auto].
Qed.

Lemma ef_step_names (processed : list string) (st : ef_state) (line : string) :
  ef_partition processed st -> ef_names processed st ->
  ef_names (processed +++ [line]) (ef_step st line).
Proof.
  destruct st as [[functions cur] fc].
  unfold ef_partition, ef_names, ef_records, ef_step.
  intros (HA & HB & HC & HE & HD) (N1 & N2 & N3).
  rewrite filter_app, map_app. cbn [filter].
  destruct (is_function_start line) eqn:E.
  - split; [|split].
    + destruct cur as [f|]; cbn [map];
        [rewrite map_app, N1 | rewrite map_app, <- N1, app_nil_r]; reflexivity.
    + destruct cur as [f|]; [|assumption].
      apply Forall_app. split; [assumption|]. constructor; [|constructor].
      destruct HD as (Hblock & Hcontent & _).
      unfold ef_body. rewrite Hcontent, split_join;
        [now apply N3 | now apply function_block_not_nil | assumption].
    + intros f [= <-]. reflexivity.
  - cbn [map]. rewrite app_nil_r. destruct cur as [f|].
    + split; [|split].
      * rewrite map_app in *. exact N1.
      * assumption.
      * intros f' [= <-]. cbn [fn_name].
        destruct HD as (Hblock & _). destruct fc as [|start fc]; [contradiction|].
        now apply N3.
    + split; [|split]; assumption.
Qed.

Lemma ef_fold_names (l processed : list string) (st : ef_state) :
  Forall (fun line => one_line line = true) l ->
  ef_partition processed st -> ef_names processed st ->
  ef_names (processed +++ l) (fold_left ef_step l st).
Proof.
  revert processed st; induction l as [|x l IH]; intros processed st Hl HP HN.
  - now rewrite app_nil_r.
  - inversion Hl; subst. cbn [fold_left].
    replace (processed +++ x :: l) with ((processed +++ [x]) +++ l)
      by now rewrite <- app_assoc.
    apply IH; [assumption | now apply ef_step_partition | now apply ef_step_names].
Qed.

(** Each record is named by the first word of the line that opens its own
    text, and the records follow the function-start lines one for one. *)
Lemma extractFunctions_own_names (content : string) :
  map fn_name (extractFunctions content)
  = map first_word_or_anonymous (filter is_function_start (split LF content))
  /\ Forall (fun f =>
               In f (extractFunctions content)
               /\ function_block (ef_body f)
               /\ fn_name f = first_word_or_anonymous (hd "" (ef_body f))
               /\ incl (ef_body f) (split LF content))
       (extractFunctions content).
Proof.
  assert (HP : ef_partition (split LF content)
                 (fold_left ef_step (split LF content) ([], None, []))).
  { apply (ef_fold_partition (split LF content) [] ([], None, [])).
    - apply split_pieces_free.
    - cbn. repeat split; constructor. }
  assert (HN : ef_names (split LF content)
                 (fold_left ef_step (split LF content) ([], None, []))).
  { apply (ef_fold_names (split LF content) [] ([], None, [])).
    - apply split_pieces_free.
    - cbn. repeat split; constructor.
    - cbn. repeat split; [constructor | discriminate]. }
  assert (K : map fn_name (extractFunctions content)
              = map first_word_or_anonymous
                  (filter is_function_start (split LF content))
              /\ flat_map ef_body (extractFunctions content)
                 = from_first is_function_start (split LF content)
              /\ Forall (fun f =>
                           function_block (ef_body f)
                           /\ fn_name f
                              = first_word_or_anonymous (hd "" (ef_body f)))
                   (extractFunctions content)).
  { unfold extractFunctions.
    destruct (fold_left ef_step (split LF content) ([], None, []))
      as [[functions cur] fc].
    unfold ef_names, ef_records in HN.
    destruct HP as (HA & HB & HC & HE & HD). destruct HN as (N1 & N2 & N3).
    assert (HB' : Forall (fun f =>
                            function_block (ef_body f)
                            /\ fn_name f
                               = first_word_or_anonymous (hd "" (ef_body f)))
                    functions).
    { rewrite Forall_forall in *. intros f Hf.
      split; [apply (HB f Hf) | now apply N2]. }
    destruct cur as [f|].
    - destruct HD as (Hblock & Hcontent & _).
      assert (Hbody : ef_body f = fc).
      { unfold ef_body. rewrite Hcontent.
        apply split_join; [now apply function_block_not_nil | assumption]. }
      split; [assumption|]. split.
      + rewrite flat_map_app. cbn [flat_map]. now rewrite Hbody, app_nil_r.
      + apply Forall_app. split; [assumption|].
        constructor; [|constructor]. rewrite Hbody. split; [assumption|].
        now apply N3.
    - destruct HD as [-> ->]. rewrite app_nil_r in N1, HA.
      repeat split; [assumption | assumption | constructor]. }
  destruct K as (K1 & K2 & K3). split; [assumption|].
  rewrite Forall_forall in *. intros f Hf.
  destruct (K3 f Hf) as [Hb Hn].
  repeat split; try assumption.
  intros line Hl. apply (from_first_incl is_function_start).
  rewrite <- K2. apply in_flat_map. exists f. auto.
Qed.

Lemma ec_step_names (processed : list string) (st : ec_state) (line : string) :
  ec_names processed st -> ec_names (processed +++ [line]) (ec_step st line).
Proof.
  destruct st as [[classes cur] cc]. unfold ec_names, ec_step, is_class_start.
  intros N. rewrite filter_app, map_app. cbn [filter].
  destruct (is_some (re_class_decl (trim line))) eqn:E.
  - destruct cur as [c|]; cbn [map];
      [rewrite map_app, N | rewrite map_app, <- N, app_nil_r]; reflexivity.
  - cbn [map]. rewrite app_nil_r. destruct cur as [c|]; [|assumption].
    rewrite map_app in *. exact N.
Qed.

Lemma ec_fold_names (l processed : list string) (st : ec_state) :
  ec_names processed st -> ec_names (processed +++ l) (fold_left ec_step l st).
Proof.
  revert processed st; induction l as [|x l IH]; intros processed st H.
  - now rewrite app_nil_r.
  - cbn [fold_left].
    replace (processed +++ x :: l) with ((processed +++ [x]) +++ l)
      by now rewrite <- app_assoc.
    apply IH. now apply ec_step_names.
Qed.

(** The class records follow the class-start lines one for one. *)
Lemma extractClasses_own_names (content : string) :
  map cls_name (extractClasses content)
  = map (fun _ => "class") (filter is_class_start (split LF content)).
Proof.
  pose proof (ec_fold_names (split LF content) [] ([], None, []) eq_refl) as H.
  unfold extractClasses. cbn [app] in H.
  destruct (fold_left ec_step (split LF content) ([], None, []))
    as [[classes cur] cc].
  unfold ec_names in H.
  assert (K : map cls_name (match cur with
                            | Some c => classes +++ [c]
                            | None => classes
                            end)
              = map first_word_or_anonymous
                  (filter is_class_start (split LF content))).
  { destruct cur; [assumption | now rewrite app_nil_r in H]. }
  rewrite K. apply map_ext_in. intros line Hl.
  apply filter_In in Hl as [_ Hl].
  apply keyword_name_first_word; [discriminate | reflexivity | exact Hl].
Qed.

(** The first pattern, on the trimmed line: the declared name is the
    captured word, the recorded one is the keyword at the head. *)
Lemma declared_function_first_word (line NAME : string) :
  re_function_decl (trim line) = Some NAME ->
  first_word_or_anonymous line = "function"
  \/ first_word_or_anonymous line = "async".
Proof.
  unfold re_function_decl, opt_async, orElse. intros H.
  destruct (lit "async" (trim line)) as [r|] eqn:E1.
  - destruct (many1 is_space r) as [[ws r']|] eqn:E2.
    + right. now apply (async_first_word line r r' ws).
    + left. apply keyword_name_first_word; [discriminate | reflexivity|].
      now rewrite H.
  - left. apply keyword_name_first_word; [discriminate | reflexivity|].
    now rewrite H.
Qed.

(** C10, amended. Every function record that [extractFunctions] returns is
    named by the first word token of the function-start line that opens its
    own text: the names of the records are, one for one and in order, the
    first words of the function-start lines of the text.  Such a line
    always has a word, so the fallback [anonymous] is never taken.
    On a line whose trimmed text begins [function NAME] the token is
    [function]; on a line that begins [async function NAME] it is [async];
    in both cases the declared NAME is not looked at, and it is not what is
    recorded unless it is itself one of these two words.  On a line that
    begins [NAME = function] the token is NAME itself.  Every class record
    that [extractClasses] returns is named [class], and there is one for
    every class-start line. *)
Theorem extracted_names_are_first_words :
  (forall line,
      is_function_start line = true ->
      exists w, match_word line = Some w /\ first_word_or_anonymous line = w)
  /\ (forall line,
         is_some (keyword_name "function" (trim line)) = true ->
         first_word_or_anonymous line = "function")
  /\ (forall line,
         begins_async_function (trim line) = true ->
         first_word_or_anonymous line = "async")
  /\ (forall line NAME,
         re_function_decl (trim line) = Some NAME ->
         (first_word_or_anonymous line = "function"
          \/ first_word_or_anonymous line = "async")
         /\ (NAME <> "function" -> NAME <> "async" ->
             first_word_or_anonymous line <> NAME))
  /\ (forall line NAME r,
         many1 is_word (trim line) = Some (NAME, r) ->
         is_some (lit "=" (snd (span is_space r))) = true ->
         first_word_or_anonymous line = NAME)
  /\ (forall content,
         map fn_name (extractFunctions content)
         = map first_word_or_anonymous
             (filter is_function_start (split LF content)))
  /\ (forall content f,
         In f (extractFunctions content) ->
         exists line rest,
           ef_body f = line :: rest
           /\ In line (split LF content) /\ is_function_start line = true
           /\ match_word line = Some (fn_name f))
  /\ (forall content c,
         In c (extractClasses content) ->
         cls_name c = "class"
         /\ exists line,
             In line (split LF content)
             /\ is_some (re_class_decl (trim line)) = true)
  /\ (forall content,
         map cls_name (extractClasses content)
         = map (fun _ => "class")
             (filter (fun line => is_some (re_class_decl (trim line)))
                (split LF content)))
  /\ map fn_name (extractFunctions
                    ("function greet(name) {" ++ nl ++ "}" ++ nl
                     ++ "  async function load() {}"))
     = ["function"; "async"]
  /\ map cls_name (extractClasses ("class Panel {" ++ nl ++ "}")) = ["class"].
Proof.
  split; [|split; [|split; [|split; [|split; [|split; [|split; [|split; [|split]]]]]]]].
  - intros line H. destruct (function_start_has_word line H) as [w Hw].
    exists w. split; [assumption|]. unfold first_word_or_anonymous. now rewrite Hw.
  - intros line H. apply keyword_name_first_word; auto. discriminate.
  - intros line H. unfold begins_async_function in H.
    destruct (lit "async" (trim line)) as [r|] eqn:E1; [|discriminate].
    destruct (many1 is_space r) as [[ws r']|] eqn:E2; [|discriminate].
    now apply (async_first_word line r r' ws).
  - intros line NAME H.
    pose proof (declared_function_first_word line NAME H) as K.
    split; [exact K|]. intros N1 N2 E. rewrite E in K. tauto.
  - intros line NAME r Hw Heq. unfold first_word_or_anonymous.
    now rewrite (assigned_function_first_word line NAME r Hw Heq).
  - intros content. apply extractFunctions_own_names.
  - intros content f H.
    pose proof (proj2 (extractFunctions_own_names content)) as K.
    rewrite Forall_forall in K. destruct (K f H) as (_ & Hb & Hn & Hi).
    destruct (ef_body f) as [|line rest] eqn:E; [contradiction|].
    destruct Hb as [Hs _]. cbn [hd] in Hn.
    exists line, rest. split; [reflexivity|].
    split; [apply Hi; now left|]. split; [assumption|].
    destruct (function_start_has_word line Hs) as [w Hw].
    unfold first_word_or_anonymous in Hn. rewrite Hw in Hn. congruence.
  - intros content c H.
    destruct (extractClasses_names content c H) as (line & H1 & H2 & H3).
    split; [|exists line; auto].
    rewrite H3. apply keyword_name_first_word; auto. discriminate.
  - exact extractClasses_own_names.
  - split; reflexivity.
Qed.

Lemma extracted_names_are_first_words_witness :
  first_word_or_anonymous "  function greet(name) {" = "function"
  /\ first_word_or_anonymous "async function load() {}" = "async"
  /\ first_word_or_anonymous "save = function () {}" = "save"
  /\ (exists w, match_word "async save = function () {}" = Some w
                /\ first_word_or_anonymous "async save = function () {}" = w)
  /\ first_word_or_anonymous "function greet(name) {" <> "greet"
  /\ (exists line rest,
         ef_body (mkFunctionInfo "async" "  async function load() {}" 1)
         = line :: rest
         /\ In line (split LF ("function greet(name) {" ++ nl ++ "}" ++ nl
                               ++ "  async function load() {}"))
         /\ is_function_start line = true
         /\ match_word line = Some "async").
Proof.
  split; [|split; [|split; [|split; [|split]]]].
  - apply (proj1 (proj2 extracted_names_are_first_words)). reflexivity.
  - apply (proj1 (proj2 (proj2 extracted_names_are_first_words))). reflexivity.
  - apply (proj1 (proj2 (proj2 (proj2 (proj2 extracted_names_are_first_words))))
             "save = function () {}" "save" " = function () {}");
      reflexivity.
  - apply (proj1 extracted_names_are_first_words). reflexivity.
  - apply (proj1 (proj2 (proj2 (proj2 extracted_names_are_first_words)))
             "function greet(name) {" "greet");
      [reflexivity | discriminate | discriminate].
  - apply (proj1 (proj2 (proj2 (proj2 (proj2 (proj2 (proj2
              extracted_names_are_first_words))))))
             ("function greet(name) {" ++ nl ++ "}" ++ nl
              ++ "  async function load() {}")
             (mkFunctionInfo "async" "  async function load() {}" 1)).
    right. left. reflexivity.
Defined.

(* ================================================================= *)
(** ** Naming findings *)

Lemma keyword_name_prefix (kw s w : string) :
  keyword_name kw s = Some w -> exists r, s = kw ++ r.
Proof.
  unfold keyword_name. destruct (lit kw s) as [r|] eqn:E; [|discriminate].
  intros _. exists r. now apply lit_inv.
Qed.

Lemma lit_indented (p s : string) (a : ascii) :
  is_space a = false -> indented s = true -> lit (String a p) s = None.
Proof.
  intros Ha Hs. destruct s as [|c r]; [reflexivity|].
  simpl in Hs. cbn [lit].
  destruct (Ascii.eqb_spec a c) as [->|]; [congruence | reflexivity].
Qed.

Lemma keyword_name_indented (kw' s : string) (a : ascii) :
  is_space a = false -> indented s = true ->
  keyword_name (String a kw') s = None.
Proof.
  intros Ha Hs. unfold keyword_name. now rewrite lit_indented.
Qed.

Lemma naming_issues_indented (index : nat) (line : string) :
  indented line = true -> naming_issues_of index line = [].
Proof.
  intros H. unfold naming_issues_of, re_var_decl, re_function_decl,
              re_class_decl, opt_async, orElse.
  rewrite !keyword_name_indented by (assumption || reflexivity).
  rewrite lit_indented by (assumption || reflexivity).
  reflexivity.
Qed.

Lemma var_decl_excludes (line v : string) :
  re_var_decl line = Some v ->
  re_function_decl line = None /\ re_class_decl line = None.
Proof.
  unfold re_var_decl, orElse. intros H.
  destruct (keyword_name "const" line) eqn:E1.
  - apply keyword_name_prefix in E1 as [r ->]. split; reflexivity.
  - destruct (keyword_name "let" line) eqn:E2.
    + apply keyword_name_prefix in E2 as [r ->]. split; reflexivity.
    + apply keyword_name_prefix in H as [r ->]. split; reflexivity.
Qed.

Lemma function_decl_excludes (line f : string) :
  re_function_decl line = Some f -> re_class_decl line = None.
Proof.
  unfold re_function_decl, opt_async, orElse. intros H.
  destruct (lit "async" line) as [r|] eqn:E1.
  - apply lit_inv in E1 as ->. reflexivity.
  - apply keyword_name_prefix in H as [r ->]. reflexivity.
Qed.

Lemma naming_issues_at_most_one (index : nat) (line : string) :
  length (naming_issues_of index line) <= 1.
Proof.
  unfold naming_issues_of.
  destruct (re_var_decl line) as [v|] eqn:E1.
  - destruct (var_decl_excludes line v E1) as [-> ->].
    destruct (negb (camelCaseRegex v)); simpl; lia.
  - destruct (re_function_decl line) as [f|] eqn:E2.
    + rewrite (function_decl_excludes line f E2).
      destruct (negb (camelCaseRegex f)); simpl; lia.
    + destruct (re_class_decl line) as [c|]; simpl; [|lia].
      destruct (negb (pascalCaseRegex c)); simpl; lia.
Qed.

Lemma forEach_indexed_length {A B} (f : nat -> A -> list B) (i : nat) (l : list A) :
  (forall k x, length (f k x) <= 1) ->
  length (forEach_indexed f i l) <= length l.
Proof.
  intros H. revert i; induction l as [|x l IH]; intros i; simpl; [lia|].
  rewrite length_app. specialize (H i x). specialize (IH (S i)). lia.
Qed.

Lemma forEach_indexed_in {A B} (f : nat -> A -> list B) (i : nat) (l : list A) (y : B) :
  In y (forEach_indexed f i l) ->
  exists k x, nth_error l k = Some x /\ In y (f (i + k) x).
Proof.
  revert i; induction l as [|x l IH]; intros i; simpl; [tauto|].
  intros H. apply in_app_or in H as [H|H].
  - exists 0, x. rewrite Nat.add_0_r. auto.
  - destruct (IH (S i) H) as (k & x' & H1 & H2).
    exists (S k), x'. replace (i + S k) with (S i + k) by lia. auto.
Qed.

Lemma forEach_indexed_nil {A B} (f : nat -> A -> list B) (i : nat) (l : list A) :
  (forall k x, In x l -> f k x = []) -> forEach_indexed f i l = [].
Proof.
  revert i; induction l as [|x l IH]; intros i H; simpl; [reflexivity|].
  rewrite (H i x (or_introl eq_refl)), IH; [reflexivity|].
  intros k y Hy. apply H. now right.
Qed.

Lemma naming_issue_shape (index : nat) (line issue : string) :
  In issue (naming_issues_of index line) ->
  declaration_line line = true
  /\ exists rest, issue = "Line " ++ show_nat (index + 1) ++ ": " ++ rest.
Proof.
  unfold naming_issues_of, declaration_line. intros H.
  apply in_app_or in H as [H|H]; [|apply in_app_or in H as [H|H]].
  - destruct (re_var_decl line) as [v|]; [|contradiction].
    destruct (negb (camelCaseRegex v)); [|contradiction].
    destruct H as [<-|[]]. split; [reflexivity|]. eexists. reflexivity.
  - destruct (re_function_decl line) as [f|]; [|contradiction].
    destruct (negb (camelCaseRegex f)); [|contradiction].
    destruct H as [<-|[]]. split; [|eexists; reflexivity].
    cbn [is_some]. now rewrite orb_true_r.
  - destruct (re_class_decl line) as [c|]; [|contradiction].
    destruct (negb (pascalCaseRegex c)); [|contradiction].
    destruct H as [<-|[]]. split; [|eexists; reflexivity].
    cbn [is_some]. now rewrite orb_true_r.
Qed.

Lemma digits_string_of_uint (d : Decimal.uint) :
  all_chars is_digit (NilEmpty.string_of_uint d) = true.
Proof. induction d; simpl; auto. Qed.

Lemma show_nat_digits (n : nat) : all_chars is_digit (show_nat n) = true.
Proof. apply digits_string_of_uint. Qed.

Lemma show_nat_inj (a b : nat) : show_nat a = show_nat b -> a = b.
Proof.
  unfold show_nat. intros H.
  apply (f_equal NilEmpty.uint_of_string) in H.
  rewrite !NilEmpty.usu in H. injection H as H.
  apply (f_equal Nat.of_uint) in H.
  now rewrite !DecimalNat.Unsigned.of_to in H.
Qed.

(** Two runs of digits that are each followed by a colon and start the same
    text are the same run. *)
Lemma digits_before_colon (x y u v : string) :
  all_chars is_digit x = true -> all_chars is_digit y = true ->
  x ++ String ":" u = y ++ String ":" v -> x = y.
Proof.
  revert y; induction x as [|c x IH]; intros [|d y] Hx Hy H;
    cbn [append all_chars] in *.
  - reflexivity.
  - injection H as <- _. apply andb_true_iff in Hy as [Hd _]. discriminate.
  - injection H as -> _. apply andb_true_iff in Hx as [Hc _]. discriminate.
  - injection H as -> H.
    apply andb_true_iff in Hx as [_ Hx]. apply andb_true_iff in Hy as [_ Hy].
    f_equal. now apply IH.
Qed.

Lemma line_label_inj (a b : nat) (rest : string) :
  startsWith ("Line " ++ show_nat a ++ ": " ++ rest) (line_label b) = true ->
  a = b.
Proof.
  unfold line_label. intros H. apply startsWith_inv in H as [r H].
  rewrite !append_assoc in H. apply append_inv_head in H.
  apply show_nat_inj.
  apply (digits_before_colon _ _ (" " ++ rest) (" " ++ r));
    auto using show_nat_digits.
Qed.

Lemma naming_issues_labelled (n index : nat) (line : string) :
  n <> index + 1 ->
  filter (labelled n) (naming_issues_of index line) = [].
Proof.
  intros Hn. apply filter_none. intros issue Hi.
  apply naming_issue_shape in Hi as (_ & rest & ->).
  unfold labelled. destruct (startsWith _ _) eqn:E; [|reflexivity].
  apply line_label_inj in E. congruence.
Qed.

Lemma filter_length_le {A} (p : A -> bool) (l : list A) :
  length (filter p l) <= length l.
Proof.
  induction l as [|x l IH]; simpl; [lia|]. destruct (p x); simpl; lia.
Qed.

Lemma forEach_indexed_labelled (n i : nat) (l : list string) :
  length (filter (labelled n) (forEach_indexed naming_issues_of i l)) <= 1
  /\ (n <= i -> filter (labelled n) (forEach_indexed naming_issues_of i l) = []).
Proof.
  revert i; induction l as [|x l IH]; intros i; cbn [forEach_indexed].
  - split; [simpl; lia | reflexivity].
  - rewrite filter_app, length_app.
    destruct (IH (S i)) as [IH1 IH2]. split.
    + destruct (Nat.eq_dec n (i + 1)) as [E|E].
      * rewrite IH2 by lia. cbn [length].
        pose proof (filter_length_le (labelled n) (naming_issues_of i x)).
        pose proof (naming_issues_at_most_one i x). lia.
      * rewrite naming_issues_labelled by assumption. cbn [length]. lia.
    + intros Hn. rewrite naming_issues_labelled by lia.
      rewrite IH2 by lia. reflexivity.
Qed.

(** X4. [checkNamingConventions] reports at most one finding per line of the
    text: for every line number, at most one finding carries it.  Every
    finding opens with [Line n: ] where [n] is the 1-based
    number of a line on which a declaration pattern matches at the very
    start.  The patterns are tried on the line as it is, not trimmed, so a
    line that opens with white space is never reported: a text whose lines
    are all indented or empty has no findings, however its declarations are
    named. *)
Theorem checkNamingConventions_findings :
  (forall content,
      length (checkNamingConventions content) <= length (split LF content))
  /\ (forall content n,
         length (filter (fun issue => startsWith issue ("Line " ++ show_nat n ++ ": "))
                   (checkNamingConventions content)) <= 1)
  /\ (forall content issue,
         In issue (checkNamingConventions content) ->
         exists k line rest,
           nth_error (split LF content) k = Some line
           /\ declaration_line line = true
           /\ issue = "Line " ++ show_nat (k + 1) ++ ": " ++ rest)
  /\ (forall content,
         forallb indented (split LF content) = true ->
         checkNamingConventions content = []).
Proof.
  split; [|split; [|split]].
  - intros content. unfold checkNamingConventions.
    apply forEach_indexed_length, naming_issues_at_most_one.
  - intros content n. unfold checkNamingConventions.
    apply (forEach_indexed_labelled n 0).
  - intros content issue H. unfold checkNamingConventions in H.
    apply forEach_indexed_in in H as (k & line & Hk & Hi).
    apply naming_issue_shape in Hi as (Hd & rest & ->).
    exists k, line, rest. auto.
  - intros content H. unfold checkNamingConventions.
    apply forEach_indexed_nil. intros k line Hl.
    apply naming_issues_indented. rewrite forallb_forall in H. now apply H.
Qed.

Lemma checkNamingConventions_findings_witness :
  checkNamingConventions ("  const Bad_Name = 1" ++ nl ++ "  class lower {}") = []
  /\ exists k line rest,
      nth_error (split LF ("var My_var = 1")) k = Some line
      /\ declaration_line line = true
      /\ "Line 1: Variable 'My_var' should use camelCase"
         = "Line " ++ show_nat (k + 1) ++ ": " ++ rest.
Proof.
  split.
  - apply (proj2 (proj2 (proj2 checkNamingConventions_findings))). reflexivity.
  - apply (proj1 (proj2 (proj2 checkNamingConventions_findings))). left.
    reflexivity.
Defined.

(* ================================================================= *)
(** ** The pattern of [@edit] *)

Lemma many1_all (p : ascii -> bool) (s a b : string) :
  many1 p s = Some (a, b) -> truthy a = true /\ all_chars p a = true.
Proof.
  unfold many1. destruct (span p s) as [a' b'] eqn:E.
  pose proof (span_all _ _ _ _ E) as H.
  destruct a'; [discriminate|]. intros K. injection K as <- <-. auto.
Qed.

Lemma space_not_digit (c : ascii) : is_space c = true -> is_digit c = false.
Proof.
  destruct c as [[] [] [] [] [] [] [] []]; try reflexivity; discriminate.
Qed.

Lemma digit_not_space (c : ascii) : is_digit c = true -> is_space c = false.
Proof.
  destruct c as [[] [] [] [] [] [] [] []]; try reflexivity; discriminate.
Qed.

Lemma last_dot_shape (s d : string) :
  last_dot s = Some d -> truthy d = true /\ all_chars is_dot d = true.
Proof.
  induction s as [|c s IH]; simpl; [discriminate|].
  destruct (last_dot s) as [d'|].
  - intros H. injection H as <-. now apply IH.
  - destruct (is_dot c) eqn:E; [|discriminate].
    intros H. injection H as <-. simpl. now rewrite E.
Qed.

Lemma re_edit_shape (s filePath line content : string) :
  re_edit s = Some (filePath, line, content) ->
  edit_groups filePath line content = true.
Proof.
  unfold re_edit. intros H. apply search_inv in H as (pre & t & _ & H).
  destruct (lit_ci "@edit" t) as [r|]; [|discriminate].
  destruct (many1 is_space r) as [[ws1 r1]|]; [|discriminate].
  destruct (many1 (fun c => negb (is_space c)) r1) as [[p r2]|] eqn:E1;
    [|discriminate].
  destruct (many1 is_space r2) as [[ws2 r3]|]; [|discriminate].
  destruct (many1 is_digit r3) as [[l r4]|] eqn:E2; [|discriminate].
  destruct (spaces_then_content r4) as [c|] eqn:E3; [|discriminate].
  injection H as <- <- <-.
  apply many1_all in E1 as [H1 H2]. apply many1_all in E2 as [H3 H4].
  assert (H5 : truthy c = true /\ all_chars is_dot c = true).
  { unfold spaces_then_content in E3.
    destruct (span is_space r4) as [[|c0 w] rest]; [discriminate|].
    destruct (many1 is_dot rest) as [[c' r5]|] eqn:E4.
    - injection E3 as <-. now apply many1_all in E4.
    - now apply last_dot_shape in E3. }
  destruct H5 as [H5 H6]. unfold edit_groups, not_space.
  now rewrite H1, H2, H3, H4, H5, H6.
Qed.

Lemma span_app (p : ascii -> bool) (a r : string) :
  all_chars p a = true -> ends_run p r = true -> span p (a ++ r) = (a, r).
Proof.
  intros Ha Hr. induction a as [|d a IH]; simpl in *.
  - destruct r as [|c r]; [reflexivity|]. simpl in Hr |- *.
    apply negb_true_iff in Hr. now rewrite Hr.
  - apply andb_true_iff in Ha as [Hd Ha]. now rewrite Hd, (IH Ha).
Qed.

Lemma many1_app (p : ascii -> bool) (a r : string) :
  truthy a = true -> all_chars p a = true -> ends_run p r = true ->
  many1 p (a ++ r) = Some (a, r).
Proof.
  intros Hne Ha Hr. unfold many1. rewrite (span_app p a r Ha Hr).
  destruct a; [discriminate | reflexivity].
Qed.

Lemma lit_ci_append (p r : string) : lit_ci p (p ++ r) = Some r.
Proof.
  induction p as [|a p IH]; simpl; [reflexivity|].
  now rewrite Ascii.eqb_refl.
Qed.

Lemma search_head {A} (m : string -> option A) (s : string) (x : A) :
  m s = Some x -> search m s = Some x.
Proof. intros H. destruct s; simpl; now rewrite H. Qed.

Lemma ends_run_append (p q : ascii -> bool) (a r : string) :
  truthy a = true -> all_chars q a = true ->
  (forall c, q c = true -> p c = false) ->
  ends_run p (a ++ r) = true.
Proof.
  intros Hne Ha Hpq. destruct a as [|c a]; [discriminate|].
  simpl in *. apply andb_true_iff in Ha as [Hc _].
  now rewrite (Hpq c Hc).
Qed.

Lemma re_edit_parses (ws1 ws2 ws3 filePath line content : string) :
  blank ws1 = true -> blank ws2 = true -> blank ws3 = true ->
  edit_groups filePath line content = true ->
  indented content = false ->
  re_edit ("@edit" ++ ws1 ++ filePath ++ ws2 ++ line ++ ws3 ++ content)
  = Some (filePath, line, content).
Proof.
  intros B1 B2 B3 G I. unfold edit_groups in G. unfold blank in *.
  repeat match goal with
         | K : (_ && _) = true |- _ => apply andb_true_iff in K as [? ?]
         end.
  unfold re_edit. apply search_head.
  rewrite lit_ci_append.
  rewrite (many1_app is_space ws1) by
    (try assumption;
     apply (ends_run_append is_space not_space); try assumption;
     intros c Hc; unfold not_space in Hc; now apply negb_true_iff in Hc).
  rewrite (many1_app (fun c => negb (is_space c)) filePath) by
    (try assumption;
     apply (ends_run_append _ is_space); try assumption;
     intros c Hc; now rewrite Hc).
  rewrite (many1_app is_space ws2) by
    (try assumption;
     apply (ends_run_append is_space is_digit); try assumption;
     apply digit_not_space).
  rewrite (many1_app is_digit line) by
    (try assumption;
     apply (ends_run_append is_digit is_space); try assumption;
     apply space_not_digit).
  unfold spaces_then_content.
  assert (HE : ends_run is_space content = true).
  { destruct content; [reflexivity|]. simpl in I |- *. now rewrite I. }
  rewrite (span_app is_space ws3 content) by assumption.
  destruct ws3 as [|c3 w3]; [discriminate|].
  rewrite <- (append_nil_r content) at 1.
  rewrite (many1_app is_dot content "") by (assumption || reflexivity).
  reflexivity.
Qed.

(** X5. The pattern of [@edit] either fails or yields three non-empty
    groups: a path without white space, a run of digits and a content
    without line terminators; so [handleCommand] answers with the format
    error exactly when the pattern does not match.  Conversely, from
    [@edit], a path, a line number and a content that does not open with
    white space, separated by white space, the pattern recovers the three
    parts as they were written. *)
Theorem re_edit_groups :
  (forall s filePath line content,
      re_edit s = Some (filePath, line, content) ->
      edit_groups filePath line content = true
      /\ truthy filePath && truthy line && truthy content = true)
  /\ (forall ws1 ws2 ws3 filePath line content,
         blank ws1 = true -> blank ws2 = true -> blank ws3 = true ->
         edit_groups filePath line content = true ->
         indented content = false ->
         re_edit ("@edit" ++ ws1 ++ filePath ++ ws2 ++ line ++ ws3 ++ content)
         = Some (filePath, line, content)).
Proof.
  split; [|exact re_edit_parses].
  intros s filePath line content H.
  pose proof (re_edit_shape s filePath line content H) as G.
  split; [assumption|]. unfold edit_groups in G.
  repeat match goal with
         | K : (_ && _) = true |- _ => apply andb_true_iff in K as [? ?]
         end.
  repeat (apply andb_true_iff; split); assumption.
Qed.

Lemma re_edit_groups_witness :
  re_edit "@edit src/app.ts 12 const x = 1;"
  = Some ("src/app.ts", "12", "const x = 1;")
  /\ edit_groups "src/app.ts" "12" "const x = 1;" = true.
Proof.
  split.
  - apply (proj2 re_edit_groups " " " " " " "src/app.ts" "12" "const x = 1;");
      reflexivity.
  - apply (proj1 re_edit_groups "@edit src/app.ts 12 const x = 1;").
    reflexivity.
Defined.

(* ================================================================= *)
(** ** The outcomes of [sendMessage] *)

(** X6. With both context fields unset (as they are in every reachable
    state), [sendMessage] on the lone [@] returns the list of commands and
    touches nothing.  On any other message it appends the user turn and
    sends the transcript: the one chat request that it logs carries role
    and content of every turn, the new one last; if the server answers with a good status and a
    body that parses, it appends the assistant turn and returns the reply;
    if the request fails, the status is bad or the body does not parse, it
    throws that failure to its caller and the user turn stays in the
    transcript without an answer. *)
Theorem sendMessage_outcomes (env : Env) (message : string) (w : World) :
  workspaceContext (svc w) = "" -> currentFileContext (svc w) = None ->
  let turn := mkChatMessage user message (clock env (log w)) in
  let url := apiUrl (svc w) ++ "/api/chat" in
  let request :=
    mkChatRequest (model (svc w))
      (map (fun msg => (msg_role msg, msg_content msg)) (messageHistory (svc w))
       +++ [(user, message)])
      false in
  let w' := after (sendMessage env message) w in
  (trim message = "@" ->
   sendMessage env message w = (Return getCommandSuggestions, w))
  /\ (trim message <> "@" ->
      exists events,
        log w' = log w +++ [ENow; EFetchChat url request] +++ events
        /\ chat_requests events = [])
  /\ (trim message <> "@" ->
      match fetchChat env (log w +++ [ENow]) url request with
      | inl e =>
          result (sendMessage env message) w = Throw e
          /\ messageHistory (svc w') = messageHistory (svc w) +++ [turn]
      | inr response =>
          if ok response then
            match json response with
            | inr data =>
                result (sendMessage env message) w
                = Return (resp_message_content data)
                /\ messageHistory (svc w')
                   = messageHistory (svc w)
                     +++ [turn;
                          mkChatMessage assistant (resp_message_content data)
                            (clock env ((log w +++ [ENow]) +++ [EFetchChat url request]))]
            | inl e =>
                result (sendMessage env message) w = Throw e
                /\ messageHistory (svc w') = messageHistory (svc w) +++ [turn]
            end
          else
            result (sendMessage env message) w = Throw (http_error (status response))
            /\ messageHistory (svc w') = messageHistory (svc w) +++ [turn]
      end).
Proof.
  intros Hw Hf. cbv zeta. split; [|split].
  - intros Ht. unfold sendMessage. rewrite Ht. reflexivity.
  - intros Ht. apply String.eqb_neq in Ht.
    unfold sendMessage. rewrite Ht. run_m. rewrite Hw, Hf.
    unfold truthy, wire_messages. cbn [String.eqb negb]. run_m.
    rewrite map_app. cbn [map msg_role msg_content].
    destruct (fetchChat env _ _ _) as [e|response]; run_m;
      [|destruct (ok response); run_m;
        [destruct (json response) as [e|data]; run_m|]];
      eexists; (split; [rewrite <- !app_assoc; reflexivity | reflexivity]).
  - intros Ht. apply String.eqb_neq in Ht.
    unfold sendMessage. rewrite Ht. run_m. rewrite Hw, Hf.
    unfold truthy, wire_messages. cbn [String.eqb negb]. run_m.
    rewrite map_app. cbn [map msg_role msg_content].
    destruct (fetchChat env _ _ _) as [e|response]; run_m.
    + split; reflexivity.
    + destruct (ok response); run_m.
      * destruct (json response) as [e|data]; run_m.
        -- split; reflexivity.
        -- split; [reflexivity|].
           now rewrite <- (app_assoc (messageHistory (svc w))).
      * split; reflexivity.
Qed.

Lemma sendMessage_outcomes_witness :
  result (sendMessage (closed_env "hi there") "hello") fresh_world
  = Return "hi there"
  /\ map msg_role
       (messageHistory (svc (after (sendMessage (closed_env "hi there") "hello")
                               fresh_world)))
     = [user; assistant].
Proof.
  pose proof (sendMessage_outcomes (closed_env "hi there") "hello" fresh_world
                eq_refl eq_refl) as H.
  cbv zeta in H. destruct H as (_ & _ & H).
  assert (K : trim "hello" <> "@") by discriminate.
  specialize (H K). cbn in H. destruct H as [H1 H2].
  split; [exact H1 | exact (f_equal (map msg_role) H2)].
Defined.

(* ================================================================= *)
(** ** What each command does to the service and to the server *)

Section Branches.

Variable R : World -> World -> Prop.
Hypothesis R_refl : forall w, R w w.
Hypothesis R_trans : forall a b c, R a b -> R b c -> R a c.
Hypothesis R_event :
  forall w ev, is_chat ev = false -> R w (with_event w ev).
Hypothesis R_history :
  forall w history, R w (mkWorld (set_messageHistory (svc w) history) (log w)).
Hypothesis R_model :
  forall w model', R w (mkWorld (set_model (svc w) model') (log w)).
Hypothesis R_chat :
  forall w url body, R w (with_event w (EFetchChat url body)).

Variable env : Env.

(** The branches are taken as they come; a branch that would need a
    hypothesis the relation does not satisfy must have been excluded. *)
Ltac keeps_branch :=
  repeat first
    [ apply keeps_ret; assumption
    | apply keeps_this; assumption
    | apply keeps_listModels; assumption
    | apply keeps_scanWorkspace; assumption
    | apply keeps_readFile; assumption
    | apply keeps_analyzeCode; assumption
    | apply keeps_searchCode; assumption
    | apply keeps_editFile; assumption
    | apply keeps_explainCode; assumption
    | apply keeps_suggestRefactoring; assumption
    | apply keeps_analyzeDependencies; assumption
    | apply keeps_ask_with_prompt; assumption
    | apply keeps_clearHistory; assumption
    | apply keeps_setModel; assumption
    | apply keeps_bind; [assumption| |intros ?]
    | match goal with
      | |- keeps _ (if ?b then _ else _) => destruct b
      | |- keeps _ (match ?x with _ => _ end) => destruct x
      end ].

(** Every command but [@clear] and [@model]: nothing is assigned. *)
Lemma keeps_switch_without_assignment (baseCmd query : string) :
  String.eqb baseCmd "@clear" = false ->
  startsWith baseCmd "@model " = false ->
  keeps R (handleCommand_switch env baseCmd query).
Proof.
  clear R_history R_model.
  intros H1 H2. unfold handleCommand_switch, handle_default.
  rewrite H1, H2. keeps_branch.
Qed.

(** Every command but the three scoped ones: no chat request. *)
Lemma keeps_switch_without_chat (baseCmd query : string) :
  scoped_command baseCmd = false ->
  keeps R (handleCommand_switch env baseCmd query).
Proof.
  clear R_chat.
  unfold scoped_command. intros H.
  apply orb_false_iff in H as [H H3]. apply orb_false_iff in H as [H1 H2].
  unfold handleCommand_switch, handle_default.
  rewrite H1, H2, H3. keeps_branch.
Qed.

End Branches.

Lemma same_service_refl (w : World) : same_service w w.
Proof. reflexivity. Qed.

Lemma same_service_trans (a b c : World) :
  same_service a b -> same_service b c -> same_service a c.
Proof. unfold same_service. congruence. Qed.

Lemma same_service_event (w : World) (ev : Event) : same_service w (with_event w ev).
Proof. reflexivity. Qed.

Lemma same_chat_refl (w : World) : same_chat w w.
Proof. reflexivity. Qed.

Lemma same_chat_trans (a b c : World) :
  same_chat a b -> same_chat b c -> same_chat a c.
Proof. unfold same_chat. congruence. Qed.

Lemma same_chat_event (w : World) (ev : Event) :
  is_chat ev = false -> same_chat w (with_event w ev).
Proof. intros H. now destruct (quiet_event w ev H). Qed.

Lemma handleCommand_svc (env : Env) (command : string) (w : World) :
  svc (after (handleCommand env command) w)
  = svc (after (handleCommand_switch env (baseCmd_of command) (query_of command))
           (logged_command env command w)).
Proof.
  unfold after. rewrite handleCommand_run.
  now destruct (handleCommand_switch env _ _ _) as [[text|e] w'].
Qed.

Lemma listModels_same_service (env : Env) (w : World) :
  same_service w (after (listModels env) w).
Proof.
  apply keeps_listModels;
    [exact same_service_refl | exact same_service_trans
     | intros; apply same_service_event].
Qed.

Lemma switch_model (env : Env) (rest query : string) :
  handleCommand_switch env ("@model " ++ rest) query =
  (models <- listModels env ;;
   if existsb (fun m => String.eqb (model_name m) (trim rest)) models then
     setModel (trim rest) ;;;
     clearHistory ;;;
     ret ("Model changed to: " ++ trim rest)
   else
     ret ("Error: Model " ++ dq ++ trim rest ++ dq ++ " not found")).
Proof. reflexivity. Qed.

Lemma all_chars_hd (P : ascii -> bool) (l : list string) :
  Forall (fun piece => all_chars P piece = true) l -> all_chars P (hd "" l) = true.
Proof. destruct 1; [reflexivity | assumption]. Qed.

Lemma baseCmd_no_colon (command : string) :
  all_chars (not_char ":") (baseCmd_of command) = true.
Proof.
  unfold baseCmd_of. apply all_chars_trim, all_chars_hd, split_pieces_free.
Qed.

Lemma handleCommand_transcript (env : Env) (command : string) (w : World) :
  let h := messageHistory (svc (after (handleCommand env command) w)) in
  h = messageHistory (svc w) +++ [command_turn env command w] \/ h = [].
Proof.
  cbv zeta. rewrite handleCommand_svc.
  destruct (String.eqb (baseCmd_of command) "@clear") eqn:E1.
  - right. apply String.eqb_eq in E1. rewrite E1. reflexivity.
  - destruct (startsWith (baseCmd_of command) "@model ") eqn:E2.
    + apply startsWith_inv in E2 as [rest E2]. rewrite E2, switch_model.
      pose proof (listModels_same_service env (logged_command env command w)) as S.
      unfold same_service, after in S. unfold after, bind.
      destruct (listModels env (logged_command env command w)) as [[models|e] w1];
        cbn [fst snd] in *; [|left; now rewrite S].
      destruct (existsb _ models).
      * right. run_m. reflexivity.
      * left. run_m. now rewrite S.
    + left.
      now rewrite (keeps_switch_without_assignment same_service same_service_refl
                     same_service_trans (fun w ev _ => same_service_event w ev)
                     (fun w url body => same_service_event w (EFetchChat url body))
                     env _ _ E1 E2 (logged_command env command w)).
Qed.

(** X7. What [handleCommand] does to the service object.  For every input
    one of three things holds when it returns.  Either the only change is
    the user turn with the raw command at the end of the transcript.  Or
    the command was [@clear] and the transcript is empty.  Or the command
    was [@model NAME], the server listed NAME, the model is now NAME and
    the transcript is empty; NAME is taken from the lower-cased text before
    the first colon, so a model whose name holds an upper-case letter or a
    colon is never selected.  The URL and the context fields never
    change. *)
Theorem handleCommand_service_effect (env : Env) (command : string) (w : World) :
  let w' := after (handleCommand env command) w in
  svc w' = set_messageHistory (svc w)
             (messageHistory (svc w) +++ [command_turn env command w])
  \/ (baseCmd_of command = "@clear" /\ svc w' = set_messageHistory (svc w) [])
  \/ (exists rest models,
         baseCmd_of command = "@model " ++ rest
         /\ result (listModels env) (logged_command env command w) = Return models
         /\ existsb (fun m => String.eqb (model_name m) (trim rest)) models = true
         /\ svc w' = set_model (set_messageHistory (svc w) []) (trim rest)
         /\ all_chars not_upper (trim rest) = true
         /\ all_chars (not_char ":") (trim rest) = true).
Proof.
  cbv zeta. rewrite handleCommand_svc.
  destruct (String.eqb (baseCmd_of command) "@clear") eqn:E1.
  - right. left. apply String.eqb_eq in E1. split; [assumption|].
    rewrite E1. reflexivity.
  - destruct (startsWith (baseCmd_of command) "@model ") eqn:E2.
    + apply startsWith_inv in E2 as [rest E2].
      pose proof (baseCmd_not_upper command) as U.
      pose proof (baseCmd_no_colon command) as C.
      rewrite E2 in U, C. rewrite all_chars_append in U, C.
      apply andb_true_iff in U as [_ U]. apply andb_true_iff in C as [_ C].
      rewrite E2, switch_model.
      pose proof (listModels_same_service env (logged_command env command w)) as S.
      unfold same_service, after in S. unfold after, bind, result.
      destruct (listModels env (logged_command env command w)) as [[models|e] w1];
        cbn [fst snd] in *; [|left; exact S].
      destruct (existsb _ models) eqn:Ex.
      * right. right. exists rest, models.
        repeat split; auto using all_chars_trim.
        run_m. rewrite S. reflexivity.
      * left. exact S.
    + left.
      apply (keeps_switch_without_assignment same_service same_service_refl
               same_service_trans (fun w ev _ => same_service_event w ev)
               (fun w url body => same_service_event w (EFetchChat url body))
               env _ _ E1 E2).
Qed.

(** X8. Only the three scoped commands talk to the model: for every input
    whose command part is not [@workspace] and does not begin with [@read ]
    or [@understand ], [handleCommand] sends no chat request, whatever the
    editor and the server answer. *)
Theorem only_scoped_commands_chat (env : Env) (command : string) (w : World) :
  scoped_command (baseCmd_of command) = false ->
  new_chat_requests w (after (handleCommand env command) w) [].
Proof.
  intros H. unfold new_chat_requests.
  rewrite handleCommand_requests, app_nil_r.
  pose proof (keeps_switch_without_chat same_chat same_chat_refl same_chat_trans
                same_chat_event (fun w h => eq_refl) (fun w m => eq_refl)
                env _ (query_of command) H (logged_command env command w)) as K.
  unfold same_chat in K. rewrite K.
  apply logged_command_requests.
Qed.

Lemma only_scoped_commands_chat_witness :
  new_chat_requests fresh_world
    (after (handleCommand (project_env "hi") "@explain src/ollamaService.ts")
       fresh_world) [].
Proof.
  apply only_scoped_commands_chat. reflexivity.
Defined.

(* ================================================================= *)
(** ** The file tree: what is put in is found *)



















(* ================================================================= *)
(** ** File commands without an open folder *)

Lemma readFile_without_folder (env : Env) (filePath : string) (w : World) :
  no_folder env ->
  readFile env filePath w
  = (Throw (new_Error (read_failure filePath)),
     with_event w (EConsoleError "Error reading file:" (new_Error no_workspace))).
Proof.
  intros Hnf. unfold readFile. run_m. rewrite Hnf. run_m. reflexivity.
Qed.

(** After [readFile] has failed on the missing folder, the method's own
    handler and then the handler of [handleCommand] run. *)
Lemma answer_of_failed_read (env : Env) (command prefix label filePath : string)
  (w : World) (method : M string) :
  no_folder env ->
  handleCommand_switch env (baseCmd_of command) (query_of command) = method ->
  (forall w0 error w1,
      readFile env filePath w0 = (Throw error, w1) ->
      method w0
      = (Throw (new_Error (prefix ++ String_of error)),
         with_event w1 (EConsoleError label error))) ->
  answers_locally env command w (no_folder_answer prefix filePath).
Proof.
  intros Hnf Hs Hm. unfold answers_locally, result, after.
  rewrite handleCommand_run, Hs.
  rewrite (Hm _ _ _ (readFile_without_folder env filePath _ Hnf)).
  cbn [fst snd log svc with_event]. split; [reflexivity|].
  unfold logged_command. cbn [log]. rewrite !remote_calls_app.
  cbn. now rewrite !app_nil_r.
Qed.

(** A method that starts with [readFile] and wraps what it catches. *)
Ltac failed_read E :=
  run_m; rewrite E; run_m; rewrite ?append_assoc; reflexivity.

Lemma answer_of_direct_failure (env : Env) (command text : string) (w : World)
  (e : Thrown) (evs : list Event) :
  handleCommand_switch env (baseCmd_of command) (query_of command)
    (logged_command env command w)
  = (Throw e, mkWorld (svc (logged_command env command w))
                      (log (logged_command env command w) +++ evs)) ->
  message_of e = text ->
  remote_calls evs = [] ->
  answers_locally env command w ("Error executing command: " ++ text).
Proof.
  intros Hs Hm Hr. unfold answers_locally, result, after.
  rewrite handleCommand_run, Hs. cbn [fst snd log]. rewrite Hm.
  split; [reflexivity|].
  unfold logged_command. cbn [log]. rewrite !remote_calls_app, Hr.
  cbn. now rewrite !app_nil_r.
Qed.

(** X10. With no folder open, every command that works on files answers with
    an error text and never reaches the server.  The text names the path as
    [handleCommand] cut it and ends with [No workspace folder is open.];
    [@analyze], [@explain], [@refactor] and [@deps] put their own prefix in
    front of the failure of [readFile], [@read] (with a query) and
    [@understand] show that failure as it is, and [@search] shows its own. *)
Theorem file_commands_without_folder (env : Env) (command rest : string) (w : World) :
  no_folder env ->
  let filePath := trim rest in
  (baseCmd_of command = "@analyze " ++ rest ->
   answers_locally env command w
     (no_folder_answer ("Failed to analyze code in " ++ filePath ++ ": ") filePath))
  /\ (baseCmd_of command = "@explain " ++ rest ->
      answers_locally env command w
        (no_folder_answer "Failed to explain code: " filePath))
  /\ (baseCmd_of command = "@refactor " ++ rest ->
      answers_locally env command w
        (no_folder_answer "Failed to suggest refactoring: " filePath))
  /\ (baseCmd_of command = "@deps " ++ rest ->
      answers_locally env command w
        (no_folder_answer "Failed to analyze dependencies: " filePath))
  /\ (baseCmd_of command = "@understand " ++ rest ->
      answers_locally env command w
        ("Error executing command: " ++ read_failure filePath))
  /\ (baseCmd_of command = "@read " ++ rest -> query_of command <> "" ->
      answers_locally env command w
        ("Error executing command: " ++ read_failure filePath))
  /\ (baseCmd_of command = "@search " ++ rest ->
      answers_locally env command w
        ("Error executing command: Failed to search code: Error: " ++ no_workspace)).
Proof.
  intros Hnf. cbv zeta.
  split; [|split; [|split; [|split; [|split; [|split]]]]].
  - intros Hb. apply (answer_of_failed_read env command _ "Error analyzing code:"
                        (trim rest) w (analyzeCode env (trim rest)) Hnf).
    + now rewrite Hb.
    + intros w0 error w1 E. unfold analyzeCode. failed_read E.
  - intros Hb. apply (answer_of_failed_read env command _ "Error explaining code:"
                        (trim rest) w (explainCode env (trim rest)) Hnf).
    + now rewrite Hb.
    + intros w0 error w1 E. unfold explainCode. failed_read E.
  - intros Hb. apply (answer_of_failed_read env command _
                        "Error suggesting refactoring:"
                        (trim rest) w (suggestRefactoring env (trim rest)) Hnf).
    + now rewrite Hb.
    + intros w0 error w1 E. unfold suggestRefactoring. failed_read E.
  - intros Hb. apply (answer_of_failed_read env command _
                        "Error analyzing dependencies:"
                        (trim rest) w (analyzeDependencies env (trim rest)) Hnf).
    + now rewrite Hb.
    + intros w0 error w1 E. unfold analyzeDependencies. failed_read E.
  - intros Hb.
    eapply (answer_of_direct_failure env command _ w
              (new_Error (read_failure (trim rest)))).
    + rewrite Hb, switch_understand. cbv zeta. unfold bind.
      rewrite (readFile_without_folder env (trim rest) _ Hnf). reflexivity.
    + reflexivity.
    + reflexivity.
  - intros Hb Hq. apply String.eqb_neq in Hq.
    eapply (answer_of_direct_failure env command _ w
              (new_Error (read_failure (trim rest)))).
    + rewrite Hb, switch_read. cbv zeta. unfold truthy. rewrite Hq.
      cbn [negb]. unfold bind.
      rewrite (readFile_without_folder env (trim rest) _ Hnf). reflexivity.
    + reflexivity.
    + reflexivity.
  - intros Hb.
    eapply (answer_of_direct_failure env command _ w
              (new_Error ("Failed to search code: Error: " ++ no_workspace))).
    + rewrite Hb.
      change (handleCommand_switch env ("@search " ++ rest) (query_of command))
        with (searchCode env (trim rest)).
      unfold searchCode. run_m. rewrite Hnf. run_m. reflexivity.
    + reflexivity.
    + reflexivity.
Qed.

Lemma file_commands_without_folder_witness :
  answers_locally (closed_env "hi") "@deps package.json" fresh_world
    ("Error executing command: Failed to analyze dependencies: "
     ++ "Error: Failed to read file package.json: "
     ++ "Error: No workspace folder is open.").
Proof.
  assert (Hnf : no_folder (closed_env "hi")) by (intros l; reflexivity).
  exact (proj1 (proj2 (proj2 (proj2
           (file_commands_without_folder (closed_env "hi") "@deps package.json"
              "package.json" fresh_world Hnf)))) eq_refl).
Defined.

(* ================================================================= *)
(** ** The dependency report *)

Lemma getPackageDependencies_returns (env : Env) (w : World) :
  exists deps w', getPackageDependencies env w = (Return deps, w').
Proof.
  unfold getPackageDependencies. run_m.
  destruct (first_folder _) as [folder|]; run_m; [|eauto].
  destruct (openTextDocument env _ _) as [e|document]; run_m; [eauto|].
  destruct (parseManifest env _) as [e|manifest]; run_m; eauto.
Qed.

Lemma own_imports_are_found (content : string) :
  findUnusedImports content (extractImports content) = [].
Proof.
  rewrite findUnusedImports_filter. apply filter_none. intros imp Hi.
  unfold reported_unused.
  destruct (importName_of imp) as [n|] eqn:E; [|reflexivity].
  apply importName_of_inv in E as [Hn _]. apply extractImports_occurs in Hi.
  pose proof (occurs_in_trans _ _ _ Hn Hi) as H.
  apply occurs_in_includes in H. now rewrite H.
Qed.

(** X11. [getPackageDependencies] never throws: without a folder, without a
    readable or well-formed [package.json], the list is empty; otherwise it
    is the dependencies of the manifest followed by its development
    dependencies.  So
    [analyzeDependencies] fails exactly when the file itself cannot be read.
    When it can, the report is the header, the imports of the file, and the
    package dependencies; the section of unused imports never appears in
    it, since an import line always finds its own name in the text. *)
Theorem analyzeDependencies_report (env : Env) (filePath : string) (w : World) :
  (forall w0,
      result (getPackageDependencies env) w0
      = Return
          match first_folder (workspaceFolders env (log w0)) with
          | None => []
          | Some folder =>
              match openTextDocument env (log w0)
                      (joinPath env folder "package.json") with
              | inl _ => []
              | inr document =>
                  match parseManifest env (getText document) with
                  | inl _ => []
                  | inr packageJson =>
                      dependencies packageJson +++ devDependencies packageJson
                  end
              end
          end)
  /\ ((exists e, result (analyzeDependencies env filePath) w = Throw e)
      <-> (exists e, result (readFile env filePath) w = Throw e))
  /\ (forall content w1,
         readFile env filePath w = (Return content, w1) ->
         exists deps,
           result (getPackageDependencies env) w1 = Return deps
           /\ result (analyzeDependencies env filePath) w
              = Return ("📦 Dependency Analysis for " ++ filePath ++ ":" ++ nl ++ nl
                        ++ "🔍 Imports:" ++ nl
                        ++ concat_map (fun imp => "- " ++ imp ++ nl)
                             (extractImports content)
                        ++ nl
                        ++ "📦 Package Dependencies:" ++ nl
                        ++ concat_map
                             (fun dep => "- " ++ fst dep ++ ": " ++ snd dep ++ nl)
                             deps)).
Proof.
  split; [|split].
  - intros w0. unfold getPackageDependencies. run_m.
    destruct (first_folder _) as [folder|]; run_m; [|reflexivity].
    destruct (openTextDocument env _ _) as [e|document]; run_m; [reflexivity|].
    destruct (parseManifest env _) as [e|manifest]; run_m; reflexivity.
  - unfold analyzeDependencies, result. run_m.
    destruct (readFile env filePath w) as [[content|e] w1]; run_m.
    + destruct (getPackageDependencies_returns env w1) as (deps & w' & E).
      rewrite E. run_m. split; intros [e H]; discriminate.
    + split; intros _; eauto.
  - intros content w1 E.
    destruct (getPackageDependencies_returns env w1) as (deps & w' & E').
    exists deps. unfold result. rewrite E'. split; [reflexivity|].
    unfold analyzeDependencies. run_m. rewrite E. run_m. rewrite E'. run_m.
    rewrite own_imports_are_found. cbn [length Nat.ltb Nat.leb].
    rewrite !append_assoc. reflexivity.
Qed.

Lemma analyzeDependencies_report_witness :
  exists deps,
    result (getPackageDependencies (project_env "hi"))
      (after (readFile (project_env "hi") "src/ollamaService.ts") fresh_world)
    = Return deps
    /\ result (analyzeDependencies (project_env "hi") "src/ollamaService.ts")
         fresh_world
       = Return ("📦 Dependency Analysis for src/ollamaService.ts:" ++ nl ++ nl
                 ++ "🔍 Imports:" ++ nl
                 ++ concat_map (fun imp => "- " ++ imp ++ nl)
                      (extractImports "export class OllamaService {}")
                 ++ nl
                 ++ "📦 Package Dependencies:" ++ nl
                 ++ concat_map
                      (fun dep => "- " ++ fst dep ++ ": " ++ snd dep ++ nl)
                      deps).
Proof.
  apply (proj2 (proj2 (analyzeDependencies_report (project_env "hi")
                         "src/ollamaService.ts" fresh_world))).
  reflexivity.
Defined.

(* ================================================================= *)
(** ** Searching *)

Lemma search_lines_query (relativePath q1 q2 : string) (i : nat)
  (lines : list string) (acc : string * nat) :
  toLowerCase q1 = toLowerCase q2 ->
  search_lines relativePath q1 i lines acc
  = search_lines relativePath q2 i lines acc.
Proof.
  intros H. revert i acc; induction lines as [|line lines IH]; intros i acc.
  - reflexivity.
  - cbn [search_lines]. destruct acc as [results matchCount].
    rewrite H. apply IH.
Qed.

Lemma search_lines_count (relativePath query : string) (i : nat)
  (lines : list string) (results : string) (matchCount : nat) :
  snd (search_lines relativePath query i lines (results, matchCount))
  = matchCount + length (filter (line_matches query) lines).
Proof.
  revert i results matchCount; induction lines as [|line lines IH];
    intros i results matchCount.
  - simpl. lia.
  - cbn [search_lines filter]. unfold line_matches at 1.
    destruct (includes (toLowerCase line) (toLowerCase query)).
    + rewrite IH. simpl. lia.
    + apply IH.
Qed.

Lemma search_lines_no_match (relativePath query : string) (i : nat)
  (lines : list string) (acc : string * nat) :
  filter (line_matches query) lines = [] ->
  search_lines relativePath query i lines acc = acc.
Proof.
  revert i; induction lines as [|line lines IH]; intros i H; [reflexivity|].
  cbn [search_lines filter] in *. destruct acc as [results matchCount].
  unfold line_matches in H at 1.
  destruct (includes (toLowerCase line) (toLowerCase query)); [discriminate|].
  now apply IH.
Qed.

Lemma foldM_ext {A B} (f g : B -> A -> M B) (l : list A) (b : B) (w : World) :
  (forall b x w, f b x w = g b x w) -> foldM f l b w = foldM g l b w.
Proof.
  intros H. revert b w; induction l as [|x l IH]; intros b w; [reflexivity|].
  cbn [foldM]. unfold bind. rewrite H.
  destruct (g b x w) as [[b'|e] w']; [apply IH | reflexivity].
Qed.

Lemma includes_empty (s : string) : includes s "" = true.
Proof. destruct s; reflexivity. Qed.

(** X12. The search looks at a query only through its lower-case form: two
    queries that differ in letter case give the same result in every world.
    Within one file the number of matches counted is the number of lines
    whose lower-case text includes the lower-case query, lines without a
    match leave the result text as it was, and the empty query matches every
    line. *)
Theorem searchCode_ignores_case :
  (forall env q1 q2 w,
      toLowerCase q1 = toLowerCase q2 ->
      searchCode env q1 w = searchCode env q2 w)
  /\ (forall env query w, searchCode env (toLowerCase query) w = searchCode env query w)
  /\ (forall relativePath query i lines results matchCount,
         snd (search_lines relativePath query i lines (results, matchCount))
         = matchCount + length (filter (line_matches query) lines))
  /\ (forall relativePath query i lines acc,
         filter (line_matches query) lines = [] ->
         search_lines relativePath query i lines acc = acc)
  /\ (forall relativePath i lines results matchCount,
         snd (search_lines relativePath "" i lines (results, matchCount))
         = matchCount + length lines).
Proof.
  assert (K : forall env q1 q2 w,
             toLowerCase q1 = toLowerCase q2 ->
             searchCode env q1 w = searchCode env q2 w).
  { intros env q1 q2 w H. unfold searchCode, try_catch, bind.
    destruct (read_workspaceFolders env w) as [[folders|e] w0]; [|reflexivity].
    destruct (first_folder folders); [|reflexivity].
    destruct (call _ _ w0) as [[files|e] w1]; [|reflexivity].
    rewrite (foldM_ext _
               (fun acc file =>
                  document <- open_document env file ;;
                  ret (search_lines (asRelativePath env file) q2 0
                         (split LF (getText document)) acc))).
    - reflexivity.
    - intros b x w2. unfold bind.
      destruct (open_document env x w2) as [[document|e] w3]; [|reflexivity].
      now rewrite (search_lines_query _ q1 q2). }
  split; [exact K|]. split; [|split; [|split]].
  - intros env query w. apply K, toLowerCase_idem.
  - exact search_lines_count.
  - exact search_lines_no_match.
  - intros relativePath i lines results matchCount.
    rewrite search_lines_count. f_equal. f_equal.
    induction lines as [|line lines IH]; [reflexivity|].
    cbn [filter]. unfold line_matches at 1.
    cbn [toLowerCase]. rewrite includes_empty. now rewrite IH.
Qed.

Lemma searchCode_ignores_case_witness :
  searchCode (project_env "hi") "OLLAMA" fresh_world
  = searchCode (project_env "hi") "ollama" fresh_world
  /\ search_lines "a.ts" "class" 0 ["let x = 1"; "x += 2"] ("none", 0) = ("none", 0).
Proof.
  split.
  - apply (proj1 searchCode_ignores_case). reflexivity.
  - apply (proj1 (proj2 (proj2 (proj2 searchCode_ignores_case)))). reflexivity.
Defined.

(* ================================================================= *)
(** ** The chat panel *)

Lemma handleCommand_returns (env : Env) (command : string) (w : World) :
  exists response w1, handleCommand env command w = (Return response, w1).
Proof.
  rewrite handleCommand_run.
  destruct (handleCommand_switch env _ _ _) as [[text|e] w']; eauto.
Qed.

Lemma handleCommand_clear (env : Env) (command : string) (w : World) :
  baseCmd_of command = "@clear" ->
  handleCommand env command w
  = (Return "Chat history cleared",
     mkWorld (set_messageHistory (svc w) []) (log w +++ [ENow])).
Proof.
  intros H. rewrite handleCommand_run, H. reflexivity.
Qed.

(** X13. One message through the chat panel.  The handler never lets a
    thrown value escape.  A text that (trimmed) begins with [@] is handed to
    [handleCommand]; when the answer is not empty it is appended to the
    transcript as an assistant turn and posted with that transcript, so the
    transcript ends with the command and its answer, or holds the answer
    alone when the command emptied it: after [@clear] the transcript holds
    the one turn "Chat history cleared".  An empty answer is neither
    recorded nor posted.  Any other text is announced by a "thinking" post
    and sent to the model: the reply is posted with the transcript, a
    failure is shown as an error message and posted as an error. *)
Theorem panel_message (env : Env) (message_text : string) (w : World) :
  let text := trim message_text in
  let w' := after (onSendMessage env message_text) w in
  result (onSendMessage env message_text) w = Return tt
  /\ (startsWith text "@" = true ->
      exists response w1,
        handleCommand env text w = (Return response, w1)
        /\ (response = "" -> w' = w1)
        /\ (response <> "" ->
            let turn := mkChatMessage assistant response (clock env (log w1)) in
            svc w' = set_messageHistory (svc w1) (messageHistory (svc w1) +++ [turn])
            /\ log w'
               = log w1 +++ [ENow;
                             EPostMessage "response" response
                               (Some (messageHistory (svc w1) +++ [turn]))]
            /\ (messageHistory (svc w')
                = messageHistory (svc w) +++ [command_turn env text w; turn]
                \/ messageHistory (svc w') = [turn])
            /\ (baseCmd_of text = "@clear" ->
                messageHistory (svc w')
                = [mkChatMessage assistant "Chat history cleared"
                     (clock env (log w +++ [ENow]))])))
  /\ (startsWith text "@" = false ->
      let w0 := with_event w (EPostMessage "thinking" "Thinking..." None) in
      (forall response w1,
          sendMessage env text w0 = (Return response, w1) ->
          w' = with_event w1
                 (EPostMessage "response" response (Some (messageHistory (svc w1)))))
      /\ (forall e w1,
             sendMessage env text w0 = (Throw e, w1) ->
             svc w' = svc w1
             /\ log w'
                = log w1 +++ [EShowErrorMessage ("Error: " ++ String_of e);
                              EPostMessage "error" ("Error: " ++ String_of e) None])).
Proof.
  cbv zeta. split; [|split].
  - unfold onSendMessage, result, try_catch.
    match goal with
    | |- fst (match ?m w with _ => _ end) = _ => destruct (m w) as [[[]|e] w1]
    end; reflexivity.
  - intros At.
    destruct (handleCommand_returns env (trim message_text) w)
      as (response & w1 & H).
    exists response, w1. split; [exact H|].
    pose proof (handleCommand_transcript env (trim message_text) w) as T.
    cbv zeta in T. unfold after in T. rewrite H in T. cbn [snd] in T.
    unfold onSendMessage, after, try_catch, bind. rewrite At, H.
    unfold truthy. split.
    + intros ->. reflexivity.
    + intros N. apply String.eqb_neq in N. rewrite N.
      unfold addToHistory, getMessageHistory. run_m.
      split; [reflexivity|]. split; [now rewrite <- app_assoc|]. split.
      * destruct T as [T | T]; rewrite T; [left | right];
          [now rewrite <- app_assoc | reflexivity].
      * intros C. rewrite (handleCommand_clear env _ w C) in H.
        injection H as <- <-. reflexivity.
  - intros At. split.
    + intros response w1 H.
      unfold onSendMessage, after, try_catch, bind. rewrite At.
      unfold postMessage at 1, call at 1. cbn [fst snd].
      unfold with_event in H. rewrite H.
      unfold getMessageHistory. run_m. reflexivity.
    + intros e w1 H. unfold with_event in H.
      split; unfold onSendMessage, after, try_catch, bind; rewrite At;
        unfold postMessage at 1, call at 1; cbn [fst snd]; rewrite H;
        run_m; [reflexivity | now rewrite <- app_assoc].
Qed.

Lemma panel_message_witness :
  exists response w1,
    handleCommand (project_env "hi") (trim " @clear ") fresh_world
    = (Return response, w1)
    /\ messageHistory
         (svc (after (onSendMessage (project_env "hi") " @clear ") fresh_world))
       = [mkChatMessage assistant "Chat history cleared"
            (clock (project_env "hi") (log fresh_world +++ [ENow]))].
Proof.
  destruct (proj1 (proj2 (panel_message (project_env "hi") " @clear " fresh_world))
              eq_refl) as (response & w1 & H & _ & K).
  exists response, w1. split; [exact H|].
  apply K; [|reflexivity].
  intros E. rewrite E in H. vm_compute in H. discriminate H.
Defined.

(* ================================================================= *)
(** ** The listing of the workspace *)








(* ================================================================= *)
(** ** Editing a line *)

(** X15. The outcomes of [editFile].  It never touches the service and
    sends no chat request.  Whatever is thrown inside comes out as an
    [Error] whose message is "Failed to edit file: " followed by the text of
    the cause, and the only value returned is the success text.  When the
    folder is open, the document opens and holds the line, the edit replaces
    the line from column 0 to its length, and the success text is returned
    whatever [applyEdit] resolves to: an edit that the editor refuses is
    reported as successful. *)
Theorem editFile_outcomes (env : Env) (filePath : string) (line : N)
  (content : string) (w : World) :
  quiet w (after (editFile env filePath line content) w)
  /\ (forall e,
         result (editFile env filePath line content) w = Throw e ->
         exists cause, e = new_Error ("Failed to edit file: " ++ String_of cause))
  /\ (forall text,
         result (editFile env filePath line content) w = Return text ->
         text = edit_success filePath line)
  /\ (forall folder document lineText accepted,
         first_folder (workspaceFolders env (log w)) = Some folder ->
         openTextDocument env (log w) (joinPath env folder filePath) = inr document ->
         lineAt document (Z.of_N line - 1) = inr lineText ->
         applyEdit env (log w +++ [EOpenTextDocument (joinPath env folder filePath)])
           (doc_uri document) (Z.of_N line - 1) (String.length lineText) content
         = inr accepted ->
         editFile env filePath line content w
         = (Return (edit_success filePath line),
            mkWorld (svc w)
              (log w +++ [EOpenTextDocument (joinPath env folder filePath);
                          EApplyEdit (doc_uri document) (Z.of_N line - 1)
                            (String.length lineText) content]))).
Proof.
  split; [|split; [|split]].
  - apply (keeps_editFile quiet quiet_refl quiet_trans quiet_event).
  - intros e. unfold editFile. run_m.
    destruct (first_folder _); run_m.
    + destruct (openTextDocument env _ _) as [c|document]; run_m;
        [intros [= <-]; exists c; reflexivity|].
      destruct (lineAt document _) as [c|lineText]; run_m;
        [intros [= <-]; exists c; reflexivity|].
      destruct (applyEdit env _ _ _ _ _) as [c|accepted]; run_m;
        [intros [= <-]; exists c; reflexivity | discriminate].
    + intros [= <-]. exists (new_Error no_workspace). reflexivity.
  - intros text. unfold editFile, edit_success. run_m.
    destruct (first_folder _); run_m; [|discriminate].
    destruct (openTextDocument env _ _) as [c|document]; run_m; [discriminate|].
    destruct (lineAt document _) as [c|lineText]; run_m; [discriminate|].
    destruct (applyEdit env _ _ _ _ _) as [c|accepted]; run_m; [discriminate|].
    now intros [= <-].
  - intros folder document lineText accepted HF HO HL HA.
    unfold editFile, edit_success. run_m. rewrite HF. run_m. rewrite HO. run_m.
    rewrite HL. run_m. rewrite HA. run_m. now rewrite <- app_assoc.
Qed.

Lemma editFile_outcomes_witness :
  applyEdit refusing_env [EOpenTextDocument "/ws/src/ollamaService.ts"]
    "/ws/src/ollamaService.ts" 0 29 "class X {}" = inr false
  /\ result (editFile refusing_env "src/ollamaService.ts" 1 "class X {}") fresh_world
     = Return "✅ Successfully edited line 1 in src/ollamaService.ts".
Proof.
  split; [reflexivity|].
  pose proof (proj2 (proj2 (proj2
                (editFile_outcomes refusing_env "src/ollamaService.ts" 1
                   "class X {}" fresh_world)))
                "/ws"
                (mkTextDocument "/ws/src/ollamaService.ts"
                   "export class OllamaService {}"
                   (fun n => if (n =? 0)%Z
                             then inr "export class OllamaService {}"
                             else inl (new_Error "Illegal value for `line`")))
                "export class OllamaService {}" false
                eq_refl eq_refl eq_refl eq_refl) as H.
  unfold result. rewrite H. reflexivity.
Defined.

(* ================================================================= *)
(** ** The refactoring report *)

Lemma append_eqb_self (h a : string) :
  String.eqb (h ++ a) h = String.eqb a "".
Proof.
  destruct (String.eqb a "") eqn:E.
  - apply String.eqb_eq in E as ->. rewrite append_nil_r. apply String.eqb_refl.
  - apply String.eqb_neq. apply String.eqb_neq in E. intros H. apply E.
    apply (append_inv_head h). now rewrite append_nil_r.
Qed.

(** X16. The all-clear of [suggestRefactoring].  When the file is read, the
    report opens with the header, and it is the header followed by the line
    "No major refactoring suggestions found" exactly when none of the four
    checks reports anything: no function longer than 20 lines, no function
    of complexity above 5, no repeated window and no naming issue.  The
    diagnostics that the method fetches play no part in it. *)
Theorem suggestRefactoring_all_clear (env : Env) (filePath : string) (w : World)
  (content : string) (w1 : World) (diagnostics : list Diagnostic) (w2 : World) :
  readFile env filePath w = (Return content, w1) ->
  getDiagnostics_of env filePath w1 = (Return diagnostics, w2) ->
  exists report,
    suggestRefactoring env filePath w = (Return report, w2)
    /\ startsWith report (refactoring_header filePath) = true
    /\ (report = refactoring_header filePath ++ all_clear
        <-> long_functions content = []
            /\ complex_functions content = []
            /\ findCodeDuplicates content = []
            /\ checkNamingConventions content = []).
Proof.
  intros HR HD. eexists. split.
  - unfold suggestRefactoring, try_catch, bind. rewrite HR, HD. reflexivity.
  - cbv zeta.
    change (filter (fun f => (20 <? fn_lines f)%nat) (extractFunctions content))
      with (long_functions content).
    change (filter (fun f => (5 <? calculateFunctionComplexity (fn_content f))%nat)
              (extractFunctions content))
      with (complex_functions content).
    change ("🔄 Refactoring Suggestions for " ++ filePath ++ ":" ++ nl ++ nl)
      with (refactoring_header filePath).
    generalize (refactoring_header filePath) as header. intros header.
    destruct (long_functions content) as [|f1 l1];
      destruct (complex_functions content) as [|f2 l2];
      destruct (findCodeDuplicates content) as [|d l3];
      destruct (checkNamingConventions content) as [|issue l4];
      cbn [length Nat.ltb Nat.leb];
      rewrite ?append_assoc, ?append_eqb_self, ?String.eqb_refl;
      cbn [append String.eqb Ascii.eqb Bool.eqb];
      rewrite ?append_assoc;
      (split; [apply startsWith_append|]);
      (split; [intros H | intros (H1 & H2 & H3 & H4)]);
      try discriminate; try (repeat split; reflexivity);
      apply append_inv_head in H; discriminate H.
Qed.

Lemma suggestRefactoring_all_clear_witness :
  result (suggestRefactoring (project_env "hi") "src/ollamaService.ts") fresh_world
  = Return (refactoring_header "src/ollamaService.ts" ++ all_clear).
Proof.
  destruct (suggestRefactoring_all_clear (project_env "hi") "src/ollamaService.ts"
              fresh_world "export class OllamaService {}"
              (with_event fresh_world (EOpenTextDocument "/ws/src/ollamaService.ts"))
              []
              (mkWorld (svc fresh_world)
                 [EOpenTextDocument "/ws/src/ollamaService.ts";
                  EOpenTextDocument "/ws/src/ollamaService.ts";
                  EGetDiagnostics "/ws/src/ollamaService.ts"])
              eq_refl eq_refl) as (report & R & _ & K).
  unfold result. rewrite R. cbn [fst]. f_equal.
  apply K. repeat split; reflexivity.
Defined.
